(** * cdp_pipeline: a shallow embedding of the pipeline negotiation core

    The development follows the Python package [cdp_pipeline]:
    - [core.py]       : [FileFormat], [ChannelMode], [AudioFile],
                        [CDPOperation] and its [get_command_args];
    - [breakpoint.py] : [BreakpointValue], [Breakpoint] and the resolution of
                        an automation curve against a duration;
    - [executor.py]   : [PipelineExecutor], a class whose methods thread a
                        counter, a scratch directory and the file system;
    - [pipeline.py]   : [Pipeline.run];
    - [operations.py] : the predefined operations and [custom_operation].

    Conventions of the embedding.
    - Python [float] and [int] values are exact rationals ([Q]); rounding,
      infinities and NaN are outside the model.
    - A [pathlib.Path] (a POSIX path) is the list of its components, with
      the root as a first component; [p / s] reads the components of [s],
      and an absolute [s] replaces [p].
    - An exception is a value of [Exn]; a method that can raise returns
      [Ok] or [Err].
    - Methods of the executor are computations of a state-and-error monad
      over [State]; the state survives an exception, as the file system and
      the executor object do in Python.
    - Python builtins whose definition is not part of the package ([float]
      and [int] applied to a string, [str] and the [.6f] format applied to a
      float) and the external toolset reached through [sh] are fields of the
      classes [PyBuiltins] and [Toolset]. *)

From Stdlib Require Import QArith Sorting.Sorted Sorting.Permutation.
From Stdlib Require Import String Ascii ZArith Lia.
From stdpp Require Import gmap strings list pretty.

Open Scope string_scope.
Open Scope list_scope.

(** ** Python builtins and results *)

Class PyBuiltins := {
  (** [float(s)] for a string [s]; [None] stands for [ValueError]. *)
  py_float : string -> option Q;
  (** [int(s)] for a string [s]; [None] stands for [ValueError]. *)
  py_int : string -> option Z;
  (** [str(x)] for a float [x]. *)
  py_str_float : Q -> string;
  (** [f"{x:.6f}"]. *)
  py_fmt_6f : Q -> string
}.

Definition Path := list string.

(** The places of the package that raise, with the data their message shows. *)
Inductive Exn :=
| FloatValueError (s : string)
| UnknownFileFormat (suffix : string)
| ChannelInfoFailed (p : Path)
| DurationFailed (p : Path)
| BothMustBeMono
| BothMustBeWav
| CannotConvertMonoToStereo (p : Path)
| CdpCommandFailed (program : string) (args : list string)
| ErrorReturnCode (program : string) (args : list string)
| InputNotFound (p : Path)
| CopySourceMissing (p : Path)
| SameFileError (p : Path)
| NoSuchObject (r : nat)
| IndexError
| CannotCreateStereo (n : nat)
| MultipleOutputs (n : nat).

Inductive PyClass :=
| ValueError | RuntimeError | FileNotFoundError | OSError | PyIndexError
| ShError | Unreachable.

Definition exn_class (e : Exn) : PyClass :=
  match e with
  | FloatValueError _ | UnknownFileFormat _ | BothMustBeMono | BothMustBeWav
  | CannotConvertMonoToStereo _ | CannotCreateStereo _ | MultipleOutputs _ =>
      ValueError
  | ChannelInfoFailed _ | DurationFailed _ | CdpCommandFailed _ _ =>
      RuntimeError
  | InputNotFound _ | CopySourceMissing _ => FileNotFoundError
  | SameFileError _ => OSError
  | NoSuchObject _ => Unreachable
  | IndexError => PyIndexError
  | ErrorReturnCode _ _ => ShError
  end.

Inductive Result (A : Type) :=
| Ok (a : A)
| Err (e : Exn).
Arguments Ok {A} a.
Arguments Err {A} e.

(** ** Strings *)

Module Str.

Definition is_char (c d : ascii) : bool := Ascii.eqb c d.

(** [s.endswith(c)] for a one-character suffix. *)
Fixpoint endswith_char (s : string) (c : ascii) : bool :=
  match s with
  | EmptyString => false
  | String d EmptyString => is_char d c
  | String _ s' => endswith_char s' c
  end.

(** [s.rstrip(c)] for a one-character set. *)
Fixpoint rstrip_char (s : string) (c : ascii) : string :=
  match s with
  | EmptyString => EmptyString
  | String d s' =>
      match rstrip_char s' c with
      | EmptyString => if is_char d c then EmptyString else String d EmptyString
      | r => String d r
      end
  end.

(** [sep.join(l)]. *)
Fixpoint join (sep : string) (l : list string) : string :=
  match l with
  | [] => ""
  | [x] => x
  | x :: l' => x +:+ sep +:+ join sep l'
  end.

(** [s.split(c)] for a one-character separator: never empty. *)
Fixpoint split_char (c : ascii) (s : string) : list string :=
  match s with
  | EmptyString => [EmptyString]
  | String d s' =>
      if is_char d c then EmptyString :: split_char c s'
      else match split_char c s' with
           | [] => [String d EmptyString]
           | w :: ws => String d w :: ws
           end
  end.

(** The ASCII characters [str.split()] treats as white space. *)
Definition is_space (c : ascii) : bool :=
  let n := nat_of_ascii c in
  (n =? 32)%nat || ((9 <=? n)%nat && (n <=? 13)%nat)
  || ((28 <=? n)%nat && (n <=? 31)%nat).

(** [s.split()]: the maximal runs of characters that are not white space.
    [cur] is the run being read, in reverse. *)
Fixpoint split_ws_aux (cur : list ascii) (s : string) : list string :=
  match s with
  | EmptyString =>
      match cur with
      | [] => []
      | _ => [string_of_list_ascii (rev cur)]
      end
  | String d s' =>
      if is_space d then
        match cur with
        | [] => split_ws_aux [] s'
        | _ => string_of_list_ascii (rev cur) :: split_ws_aux [] s'
        end
      else split_ws_aux (d :: cur) s'
  end.

Definition split_ws (s : string) : list string := split_ws_aux [] s.

(** [sub in s]. *)
Fixpoint contains (sub s : string) : bool :=
  String.prefix sub s
  || match s with
     | EmptyString => false
     | String _ s' => contains sub s'
     end.

(** [s.rfind(c)]: the index of the last occurrence. *)
Fixpoint rfind_char (c : ascii) (s : string) : option nat :=
  match s with
  | EmptyString => None
  | String d s' =>
      match rfind_char c s' with
      | Some i => Some (S i)
      | None => if is_char d c then Some 0%nat else None
      end
  end.

(** [s.replace(old, new)] for a non-empty [old]; [skip] counts the
    characters of a match that are still to be dropped. *)
Fixpoint replace_aux (old new : string) (skip : nat) (s : string) : string :=
  match s with
  | EmptyString => EmptyString
  | String d s' =>
      match skip with
      | S k => replace_aux old new k s'
      | O =>
          if String.prefix old s
          then new +:+ replace_aux old new (String.length old - 1) s'
          else String d (replace_aux old new 0 s')
      end
  end.

Definition replace (old new s : string) : string := replace_aux old new 0 s.

(** [f"{n:0wd}"] for a natural number. *)
Fixpoint zeros (k : nat) : string :=
  match k with
  | O => ""
  | S k' => String "0" (zeros k')
  end.

Definition zero_pad (w n : nat) : string :=
  let d := pretty n in
  zeros (w - String.length d) +:+ d.

End Str.

(** ** Paths: the operations of [pathlib] the package uses *)

Module Pathlib.

(** A string without a separator: the name of one component. *)
Definition plain (s : string) : bool :=
  forallb (fun c => negb (Str.is_char c "/")) (list_ascii_of_string s).

(** The components a string stands for: what lies between its separators,
    without the empty pieces and the pieces ["."]. *)
Definition parts (s : string) : list string :=
  List.filter (fun c => negb (String.eqb c "") && negb (String.eqb c "."))
    (Str.split_char "/" s).

(** The root of an absolute string, as a first component chosen so that
    [to_str] gives the string back: [""] for ["/"], and ["/"] for exactly two
    leading separators, which POSIX keeps apart. *)
Definition root (s : string) : option string :=
  if String.prefix "///" s then Some ""
  else if String.prefix "//" s then Some "/"
  else if String.prefix "/" s then Some ""
  else None.

(** [p / s] for a string [s]. *)
Definition truediv (p : Path) (s : string) : Path :=
  match root s with
  | Some r => r :: parts s
  | None => p ++ parts s
  end.

(** [p / name] where [name] is one component: the [name] of a file. *)
Definition joinpath (p : Path) (name : string) : Path := p ++ [name].

(** [p.name]: the final component; a component given with separators counts
    by its last piece. *)
Definition name (p : Path) : string :=
  List.last (Str.split_char "/" (List.last p "")) "".

(** [p.parent]. *)
Definition parent (p : Path) : Path := removelast p.

(** [p.suffix]: from the last dot of the name, unless that dot is the first
    or the last character. *)
Definition suffix (p : Path) : string :=
  let n := name p in
  match Str.rfind_char "." n with
  | Some i =>
      if (0 <? i)%nat && (i <? String.length n - 1)%nat
      then String.substring i (String.length n - i) n
      else ""
  | None => ""
  end.

(** [p.stem]. *)
Definition stem (p : Path) : string :=
  let n := name p in
  match Str.rfind_char "." n with
  | Some i =>
      if (0 <? i)%nat && (i <? String.length n - 1)%nat
      then String.substring 0 i n
      else n
  | None => n
  end.

(** [str(p)]. *)
Definition to_str (p : Path) : string :=
  match p with
  | [] => "."
  | [""] => "/"
  | _ => Str.join "/" p
  end.

End Pathlib.

(** ** core.py *)

Inductive FileFormat := WAV | ANA.

Inductive ChannelMode := MONO | STEREO.

#[global] Instance FileFormat_eq_dec : EqDecision FileFormat.
Proof. solve_decision. Defined.

#[global] Instance ChannelMode_eq_dec : EqDecision ChannelMode.
Proof. solve_decision. Defined.

(** [FileFormat.value]. *)
Definition format_value (f : FileFormat) : string :=
  match f with
  | WAV => "wav"
  | ANA => "ana"
  end.

(** [ChannelMode(n)]: the member whose value is [n], [None] for
    [ValueError]. *)
Definition ChannelMode_of_int (n : Z) : option ChannelMode :=
  if (n =? 1)%Z then Some MONO
  else if (n =? 2)%Z then Some STEREO
  else None.

Record AudioFile := {
  path : Path;
  format : FileFormat;
  channels : ChannelMode;
  (** For split stereo: [Some 1] (left) or [Some 2] (right). *)
  channel_index : option Z
}.

#[global] Instance AudioFile_eq_dec : EqDecision AudioFile.
Proof. solve_decision. Defined.

Definition is_mono (f : AudioFile) : bool := bool_decide (channels f = MONO).
Definition is_stereo (f : AudioFile) : bool := bool_decide (channels f = STEREO).
Definition is_wav (f : AudioFile) : bool := bool_decide (format f = WAV).
Definition is_ana (f : AudioFile) : bool := bool_decide (format f = ANA).

Record OperationRequirements := {
  req_format : FileFormat;
  req_channels : ChannelMode
}.

(** ** breakpoint.py *)

(** [BreakpointValue.time]: a number of seconds or a string. *)
Inductive TimeSpec :=
| TNum (x : Q)
| TStr (s : string).

Record BreakpointValue := {
  time : TimeSpec;
  value : Q
}.

Record Breakpoint := {
  points : list BreakpointValue;
  bp_name : option string
}.

(** A parameter of an operation: [params : List[Any]] holds numbers,
    breakpoints and, after [_process_breakpoints], strings. *)
Inductive Param :=
| PInt (z : Z)
| PFloat (x : Q)
| PStr (s : string)
| PBreakpoint (bp : Breakpoint).

Definition is_automatable (p : Param) : bool :=
  match p with
  | PBreakpoint _ => true
  | _ => false
  end.

(** [RuntimeWarning]: the breakpoint at [warn_time] is beyond the file
    duration [warn_duration]. *)
Record Warning := {
  warn_time : Q;
  warn_duration : Q
}.

(** [x < y] on numbers, the comparison [list.sort] uses. *)
Definition Qltb (x y : Q) : bool := negb (Qle_bool y x).

Section Breakpoints.
Context `{PyBuiltins}.

Definition is_percentage (p : BreakpointValue) : bool :=
  match time p with
  | TStr s => Str.endswith_char s "%"
  | TNum _ => false
  end.

Definition get_absolute_time (p : BreakpointValue) (duration : Q) : Result Q :=
  match time p with
  | TStr s =>
      if Str.endswith_char s "%" then
        match py_float (Str.rstrip_char s "%") with
        | Some percentage => Ok ((percentage / 100) * duration)%Q
        | None => Err (FloatValueError (Str.rstrip_char s "%"))
        end
      else
        match py_float s with
        | Some t => Ok t
        | None => Err (FloatValueError s)
        end
  | TNum x => Ok x
  end.

(** [list.sort(key=lambda x: x[0])]: a stable sort that compares keys with
    [<] only, here by insertion from the right. *)
Fixpoint insert_by_time {A} (x : Q * A) (l : list (Q * A)) : list (Q * A) :=
  match l with
  | [] => [x]
  | y :: l' =>
      if Qltb (fst y) (fst x) then y :: insert_by_time x l'
      else x :: l
  end.

Fixpoint sort_by_time {A} (l : list (Q * A)) : list (Q * A) :=
  match l with
  | [] => []
  | x :: l' => insert_by_time x (sort_by_time l')
  end.

(** The first loop of [to_absolute_times]: [result] and [original_order],
    built together. *)
Fixpoint resolve_points (ps : list BreakpointValue) (duration : Q)
  : Result (list (Q * Q) * list (Q * TimeSpec)) :=
  match ps with
  | [] => Ok ([], [])
  | p :: ps' =>
      match get_absolute_time p duration with
      | Err e => Err e
      | Ok abs_time =>
          match resolve_points ps' duration with
          | Err e => Err e
          | Ok (result, original_order) =>
              Ok ((abs_time, value p) :: result,
                  (abs_time, time p) :: original_order)
          end
      end
  end.

(** The second loop: one warning for each number beyond the duration. *)
Fixpoint beyond_duration (original_order : list (Q * TimeSpec)) (duration : Q)
  : list Warning :=
  match original_order with
  | [] => []
  | (t, TNum original) :: rest =>
      if Qltb duration t
      then {| warn_time := original; warn_duration := duration |}
           :: beyond_duration rest duration
      else beyond_duration rest duration
  | (_, TStr _) :: rest => beyond_duration rest duration
  end.

(** [Breakpoint.to_absolute_times]: the sorted points and the warnings
    issued. *)
Definition to_absolute_times (bp : Breakpoint) (duration : Q)
  : Result (list (Q * Q) * list Warning) :=
  match resolve_points (points bp) duration with
  | Err e => Err e
  | Ok (result, original_order) =>
      Ok (sort_by_time result, beyond_duration original_order duration)
  end.

(** [Breakpoint.to_file_content]. *)
Definition to_file_content (bp : Breakpoint) (duration : Q)
  : Result (string * list Warning) :=
  match to_absolute_times bp duration with
  | Err e => Err e
  | Ok (absolute_points, ws) =>
      Ok (Str.join (String "010" "")
            (map (fun tv => py_fmt_6f (fst tv) +:+ " " +:+ py_fmt_6f (snd tv))
                 absolute_points),
          ws)
  end.

(** [Breakpoint.__str__]. *)
Definition str_time (t : TimeSpec) : string :=
  match t with
  | TNum x => py_str_float x
  | TStr s => s
  end.

Definition Breakpoint_str (bp : Breakpoint) : string :=
  let name_str :=
    match bp_name bp with
    | Some n => if bool_decide (n = "") then "" else n +:+ ": "
    | None => ""
    end in
  let points_str :=
    Str.join ", "
      (map (fun p => "(" +:+ str_time (time p) +:+ ", "
                     +:+ py_str_float (value p) +:+ ")") (points bp)) in
  "Breakpoint(" +:+ name_str +:+ points_str +:+ ")".

End Breakpoints.

(** ** core.py: operations *)

(** [CDPOperation.mode : Optional[Union[str, int]]]. *)
Inductive Mode :=
| ModeStr (s : string)
| ModeInt (z : Z).

Record CDPOperation := {
  name : string;
  program : string;
  subcommand : option string;
  mode : option Mode;
  input_requirements : OperationRequirements;
  output_format : FileFormat;
  params : list Param;
  multi_input : bool
}.

(** [dataclasses.replace(operation, params=ps)]. *)
Definition replace_params (operation : CDPOperation) (ps : list Param)
  : CDPOperation :=
  {| name := name operation;
     program := program operation;
     subcommand := subcommand operation;
     mode := mode operation;
     input_requirements := input_requirements operation;
     output_format := output_format operation;
     params := ps;
     multi_input := multi_input operation |}.

Section CommandArgs.
Context `{PyBuiltins}.

Definition str_mode (m : Mode) : string :=
  match m with
  | ModeStr s => s
  | ModeInt z => pretty z
  end.

(** [str(p)] for a parameter. *)
Definition str_param (p : Param) : string :=
  match p with
  | PInt z => pretty z
  | PFloat x => py_str_float x
  | PStr s => s
  | PBreakpoint bp => Breakpoint_str bp
  end.

(** [CDPOperation.get_command_args]: [args] grows statement by statement, as
    in the method. *)
Definition get_command_args (self : CDPOperation) (input_files : list AudioFile)
  (output_file : AudioFile) : Result (list string) :=
  let args := [] in
  let args :=
    match subcommand self with
    | Some s => if bool_decide (s = "") then args else args ++ [s]
    | None => args
    end in
  let args :=
    match mode self with
    | Some m => args ++ [str_mode m]
    | None => args
    end in
  let args_inputs :=
    if multi_input self
    then Ok (args ++ map (fun f => Pathlib.to_str (path f)) input_files)
    else match input_files with
         | f :: _ => Ok (args ++ [Pathlib.to_str (path f)])
         | [] => Err IndexError
         end in
  match args_inputs with
  | Err e => Err e
  | Ok args =>
      let args := args ++ [Pathlib.to_str (path output_file)] in
      let args := args ++ map str_param (params self) in
      Ok args
  end.

End CommandArgs.

(** ** The state of a run *)

(** The programs reached through [sh], by the place that calls them. *)
Inductive Command :=
| sfprops | sndinfo | housekeep | pvoc | submix
| cdp (prog : string).

Definition command_name (c : Command) : string :=
  match c with
  | sfprops => "sfprops"
  | sndinfo => "sndinfo"
  | housekeep => "housekeep"
  | pvoc => "pvoc"
  | submix => "submix"
  | cdp prog => prog
  end.

(** What a run does to the world, in order. *)
Inductive Event :=
| Call (c : Command) (args : list string)
| Copy (src dst : Path)
| Unlink (p : Path)
| WriteText (p : Path) (content : string)
| Mkdir (p : Path)
| Rmtree (p : Path).

Record State := {
  (** [PipelineExecutor._counter]. *)
  _counter : nat;
  (** The files that exist. *)
  files : gset Path;
  (** The [CDPOperation] objects, by reference. *)
  heap : list CDPOperation;
  trace : list Event;
  warnings : list Warning
}.

(** The external toolset and the operating system. *)
Class Toolset := {
  (** [sh.<program>] applied to [args], with the files that exist: the text printed, or
      [None] when [sh] raises. *)
  sh : gset Path -> string -> list string -> option string;
  (** The name of a new [tempfile.TemporaryDirectory()]. *)
  mkdtemp : Path
}.

Definition M (A : Type) : Type := State -> Result A * State.

Definition ret {A} (a : A) : M A := fun st => (Ok a, st).

Definition raise {A} (e : Exn) : M A := fun st => (Err e, st).

Definition bind {A B} (m : M A) (k : A -> M B) : M B :=
  fun st =>
    match m st with
    | (Ok a, st') => k a st'
    | (Err e, st') => (Err e, st')
    end.

Notation "'let*' x ':=' m 'in' k" := (bind m (fun x => k))
  (at level 10, x pattern, m at level 100, k at level 200).
Notation "m ';;' k" := (bind m (fun _ => k))
  (at level 100, k at level 200, right associativity).

(** [try: m except Exception: raise e]. *)
Definition try_except {A} (m : M A) (e : Exn) : M A :=
  fun st =>
    match m st with
    | (Ok a, st') => (Ok a, st')
    | (Err _, st') => (Err e, st')
    end.

(** [try: m finally: c], the shape of a [with] statement. *)
Definition finally {A} (m : M A) (c : M unit) : M A :=
  fun st =>
    match m st with
    | (r, st') =>
        match c st' with
        | (Ok _, st'') => (r, st'')
        | (Err e, st'') => (Err e, st'')
        end
    end.

Definition lift {A} (r : Result A) : M A := fun st => (r, st).

Definition log (ev : Event) : M unit :=
  fun st =>
    (Ok tt, {| _counter := _counter st; files := files st; heap := heap st;
               trace := trace st ++ [ev]; warnings := warnings st |}).

Definition warn (ws : list Warning) : M unit :=
  fun st =>
    (Ok tt, {| _counter := _counter st; files := files st; heap := heap st;
               trace := trace st; warnings := warnings st ++ ws |}).

Definition set_files (f : gset Path -> gset Path) : M unit :=
  fun st =>
    (Ok tt, {| _counter := _counter st; files := f (files st);
               heap := heap st; trace := trace st;
               warnings := warnings st |}).

(** [p.exists()]. *)
Definition exists_ (p : Path) : M bool :=
  fun st => (Ok (bool_decide (p ∈ files st)), st).

(** The file an invocation was asked to write exists once it returned. *)
Definition created (p : Path) : M unit := set_files (fun fs => {[p]} ∪ fs).

(** [p.unlink()]. *)
Definition unlink (p : Path) : M unit :=
  log (Unlink p) ;; set_files (fun fs => fs ∖ {[p]}).

(** [shutil.rmtree(d, ignore_errors=True)] and
    [TemporaryDirectory.cleanup()]: nothing under [d] is left. *)
Definition rmtree (d : Path) : M unit :=
  log (Rmtree d) ;;
  set_files (fun fs => filter (fun p => ¬ d `prefix_of` p) fs).

(** [shutil.copy(src, dst)]. *)
Definition copy (src dst : Path) : M unit :=
  log (Copy src dst) ;;
  let* present := exists_ src in
  if negb present then raise (CopySourceMissing src)
  else if bool_decide (src = dst) then raise (SameFileError src)
  else created dst.

(** [p.write_text(content)]. *)
Definition write_text (p : Path) (content : string) : M unit :=
  log (WriteText p content) ;; created p.

(** Reading an object through a reference. *)
Definition deref (r : nat) : M CDPOperation :=
  fun st =>
    match heap st !! r with
    | Some op => (Ok op, st)
    | None => (Err (NoSuchObject r), st)
    end.

(** A new object; its reference is returned. *)
Definition alloc (op : CDPOperation) : M nat :=
  fun st =>
    (Ok (length (heap st)),
     {| _counter := _counter st; files := files st;
        heap := heap st ++ [op]; trace := trace st;
        warnings := warnings st |}).

Section Shell.
Context `{Toolset}.

(** [sh.<c>] applied to [args]. *)
Definition sh_call (c : Command) (args : list string) : M string :=
  log (Call c args) ;;
  fun st =>
    match sh (files st) (command_name c) args with
    | Some out => (Ok out, st)
    | None => (Err (ErrorReturnCode (command_name c) args), st)
    end.

End Shell.

(** ** executor.py *)

Record PipelineExecutor := {
  keep_temp : bool;
  verbose : bool;
  (** The [TemporaryDirectory] object, when the executor made one. *)
  _temp_dir_obj : option Path;
  temp_dir : Path
}.

(** [dict[k].append(f)], with a new entry [k: []] first when [k] is not a
    key; a [dict] keeps its keys in the order they were added. *)
Fixpoint dict_append {K} `{EqDecision K} {V} (d : list (K * list V)) (k : K) (f : V)
  : list (K * list V) :=
  match d with
  | [] => [(k, [f])]
  | (k', fs) :: d' =>
      if decide (k' = k) then (k', fs ++ [f]) :: d'
      else (k', fs) :: dict_append d' k f
  end.

(** The grouping loop of [execute_operation]. *)
Definition group_by_channel (prepared_inputs : list AudioFile)
  : list (option Z * list AudioFile) :=
  fold_left (fun channels f => dict_append channels (channel_index f) f)
            prepared_inputs [].

(** The token after the first ['DURATION:'] that is followed by one. *)
Fixpoint duration_token (parts : list string) : option string :=
  match parts with
  | part :: ((next :: _) as rest) =>
      if bool_decide (part = "DURATION:") then Some next
      else duration_token rest
  | _ => None
  end.

(** The line loop of [get_duration]: the token to hand to [float], from the
    first line that has one. *)
Fixpoint duration_in_lines (lines : list string) : option string :=
  match lines with
  | [] => None
  | line :: rest =>
      if Str.contains "DURATION:" line then
        match duration_token (Str.split_ws line) with
        | Some tok => Some tok
        | None => duration_in_lines rest
        end
      else duration_in_lines rest
  end.

(** The body of the loop of [split_stereo] over the channels [1] and [2]. *)
Definition stereo_channel (temp_input : Path) (i : Z) : AudioFile :=
  {| path := Pathlib.joinpath (Pathlib.parent temp_input)
               (Str.replace ".wav" ("_c" +:+ pretty i +:+ ".wav")
                  (Pathlib.name temp_input));
     format := WAV;
     channels := MONO;
     channel_index := Some i |}.

Section Executor.
Context `{PyBuiltins} `{Toolset}.

Definition _next_temp_file (self : PipelineExecutor) (base_name extension : string)
  : M Path :=
  fun st =>
    let c := S (_counter st) in
    (Ok (Pathlib.truediv (temp_dir self)
           (base_name +:+ "_" +:+ Str.zero_pad 4 c +:+ "." +:+ extension)),
     {| _counter := c; files := files st; heap := heap st;
        trace := trace st; warnings := warnings st |}).

Definition get_file_info (self : PipelineExecutor) (p : Path)
  : M (FileFormat * ChannelMode) :=
  let* fmt :=
    (if bool_decide (Pathlib.suffix p = ".ana") then ret ANA
     else if bool_decide (Pathlib.suffix p = ".wav") then ret WAV
     else raise (UnknownFileFormat (Pathlib.suffix p))) in
  let* channels :=
    (match fmt with
     | WAV =>
         try_except
           (let* out := sh_call sfprops ["-c"; Pathlib.to_str p] in
            match py_int out with
            | Some channel_count =>
                match ChannelMode_of_int channel_count with
                | Some channels => ret channels
                | None => raise (ChannelInfoFailed p)
                end
            | None => raise (ChannelInfoFailed p)
            end)
           (ChannelInfoFailed p)
     | ANA => ret MONO
     end) in
  ret (fmt, channels).

Definition get_duration (self : PipelineExecutor) (audio_file : AudioFile)
  : M Q :=
  try_except
    (let* result := sh_call sndinfo ["len"; Pathlib.to_str (path audio_file)] in
     match duration_in_lines (Str.split_char "010" result) with
     | Some tok =>
         match py_float tok with
         | Some d => ret d
         | None => raise (FloatValueError tok)
         end
     | None => raise (DurationFailed (path audio_file))
     end)
    (DurationFailed (path audio_file)).

(** [Breakpoint.write_to_file]. *)
Definition write_to_file (bp : Breakpoint) (filepath : Path) (duration : Q)
  : M Path :=
  let* cw := lift (to_file_content bp duration) in
  warn (snd cw) ;;
  write_text filepath (fst cw) ;;
  ret filepath.

Definition write_breakpoint_file (self : PipelineExecutor) (bp : Breakpoint)
  (duration : Q) (base_name : string) : M Path :=
  let* filepath := _next_temp_file self base_name "txt" in
  write_to_file bp filepath duration ;;
  ret filepath.

Definition split_stereo (self : PipelineExecutor) (audio_file : AudioFile)
  : M (list AudioFile) :=
  if negb (is_stereo audio_file) then ret [audio_file]
  else
    let temp_input :=
      Pathlib.joinpath (temp_dir self) (Pathlib.name (path audio_file)) in
    copy (path audio_file) temp_input ;;
    sh_call housekeep ["chans"; "2"; Pathlib.to_str temp_input] ;;
    created (path (stereo_channel temp_input 1)) ;;
    created (path (stereo_channel temp_input 2)) ;;
    ret [stereo_channel temp_input 1; stereo_channel temp_input 2].

Definition merge_stereo (self : PipelineExecutor) (left right : AudioFile)
  (output_path : Path) : M AudioFile :=
  if negb (is_mono left) || negb (is_mono right) then raise BothMustBeMono
  else if negb (is_wav left) || negb (is_wav right) then raise BothMustBeWav
  else
    sh_call submix ["interleave"; Pathlib.to_str (path left);
                    Pathlib.to_str (path right); Pathlib.to_str output_path] ;;
    created output_path ;;
    ret {| path := output_path; format := WAV; channels := STEREO;
           channel_index := None |}.

Definition convert_to_ana (self : PipelineExecutor) (audio_file : AudioFile)
  : M AudioFile :=
  if negb (is_wav audio_file) then ret audio_file
  else
    let* output_path :=
      _next_temp_file self (Pathlib.stem (path audio_file)) "ana" in
    sh_call pvoc ["anal"; "1"; Pathlib.to_str (path audio_file);
                  Pathlib.to_str output_path] ;;
    created output_path ;;
    ret {| path := output_path; format := ANA;
           channels := channels audio_file;
           channel_index := channel_index audio_file |}.

Definition convert_to_wav (self : PipelineExecutor) (audio_file : AudioFile)
  : M AudioFile :=
  if negb (is_ana audio_file) then ret audio_file
  else
    let* output_path :=
      _next_temp_file self (Pathlib.stem (path audio_file)) "wav" in
    sh_call pvoc ["synth"; Pathlib.to_str (path audio_file);
                  Pathlib.to_str output_path] ;;
    created output_path ;;
    ret {| path := output_path; format := WAV;
           channels := channels audio_file;
           channel_index := channel_index audio_file |}.

(** The first loop of [prepare_inputs]: channels. *)
Fixpoint prepare_channels (self : PipelineExecutor) (input_files : list AudioFile)
  (required_channels : ChannelMode) : M (list AudioFile) :=
  match input_files with
  | [] => ret []
  | audio_file :: rest =>
      let* here :=
        (if bool_decide (required_channels = MONO) && is_stereo audio_file
         then split_stereo self audio_file
         else if bool_decide (required_channels = STEREO) && is_mono audio_file
         then raise (CannotConvertMonoToStereo (path audio_file))
         else ret [audio_file]) in
      let* prepared := prepare_channels self rest required_channels in
      ret (here ++ prepared)
  end.

(** The second loop of [prepare_inputs]: formats. *)
Fixpoint prepare_formats (self : PipelineExecutor) (prepared : list AudioFile)
  (required_format : FileFormat) : M (list AudioFile) :=
  match prepared with
  | [] => ret []
  | audio_file :: rest =>
      let* here :=
        (if bool_decide (required_format = ANA) && is_wav audio_file
         then convert_to_ana self audio_file
         else if bool_decide (required_format = WAV) && is_ana audio_file
         then convert_to_wav self audio_file
         else ret audio_file) in
      let* converted := prepare_formats self rest required_format in
      ret (here :: converted)
  end.

Definition prepare_inputs (self : PipelineExecutor) (input_files : list AudioFile)
  (required_format : FileFormat) (required_channels : ChannelMode)
  : M (list AudioFile) :=
  let* prepared := prepare_channels self input_files required_channels in
  prepare_formats self prepared required_format.

Definition _execute_cdp_command (self : PipelineExecutor) (prog : string)
  (args : list string) : M string :=
  try_except (sh_call (cdp prog) args) (CdpCommandFailed prog args).

(** The parameter loop of [_process_breakpoints], from index [i]. *)
Fixpoint process_params (self : PipelineExecutor) (operation : nat) (i : nat)
  (ps : list Param) (duration : Q) : M (list Param) :=
  match ps with
  | [] => ret []
  | param :: rest =>
      let* here :=
        (match param with
         | PBreakpoint bp =>
             let* op := deref operation in
             let* bp_file :=
               write_breakpoint_file self bp duration
                 (name op +:+ "_param" +:+ pretty i) in
             ret (PStr (Pathlib.to_str bp_file))
         | _ => ret param
         end) in
      let* processed_params :=
        process_params self operation (S i) rest duration in
      ret (here :: processed_params)
  end.

Definition _process_breakpoints (self : PipelineExecutor) (operation : nat)
  (input_files : list AudioFile) : M nat :=
  let* op := deref operation in
  let has_breakpoints := existsb is_automatable (params op) in
  if negb has_breakpoints then ret operation
  else
    let* duration :=
      (match input_files with
       | f :: _ => get_duration self f
       | [] => raise IndexError
       end) in
    let* op := deref operation in
    let* processed_params :=
      process_params self operation 0 (params op) duration in
    let* op := deref operation in
    alloc (replace_params op processed_params).

(** The body of the loop over the channel groups. *)
Definition execute_group (self : PipelineExecutor) (operation : nat)
  (output_base_name : string) (channel_idx : option Z)
  (channel_files : list AudioFile) : M AudioFile :=
  let suffix :=
    match channel_idx with
    | Some i => if (i =? 0)%Z then "" else "_c" +:+ pretty i
    | None => ""
    end in
  let* op := deref operation in
  let* output_path :=
    _next_temp_file self (output_base_name +:+ suffix)
      (format_value (output_format op)) in
  let* op := deref operation in
  let output_file :=
    {| path := output_path; format := output_format op; channels := MONO;
       channel_index := channel_idx |} in
  let* processed_operation :=
    _process_breakpoints self operation channel_files in
  let* processed := deref processed_operation in
  let* cmd_args := lift (get_command_args processed channel_files output_file) in
  let* processed := deref processed_operation in
  _execute_cdp_command self (program processed) cmd_args ;;
  created output_path ;;
  ret output_file.

Fixpoint execute_groups (self : PipelineExecutor) (operation : nat)
  (output_base_name : string) (groups : list (option Z * list AudioFile))
  : M (list AudioFile) :=
  match groups with
  | [] => ret []
  | (channel_idx, channel_files) :: rest =>
      let* output_file :=
        execute_group self operation output_base_name channel_idx
          channel_files in
      let* output_files :=
        execute_groups self operation output_base_name rest in
      ret (output_file :: output_files)
  end.

Definition execute_operation (self : PipelineExecutor) (operation : nat)
  (input_files : list AudioFile) (output_base_name : string)
  : M (list AudioFile) :=
  let* op := deref operation in
  let* prepared_inputs :=
    prepare_inputs self input_files
      (req_format (input_requirements op))
      (req_channels (input_requirements op)) in
  let* op := deref operation in
  if bool_decide (req_channels (input_requirements op) = MONO) then
    execute_groups self operation output_base_name
      (group_by_channel prepared_inputs)
  else
    let* op := deref operation in
    let* output_path :=
      _next_temp_file self output_base_name
        (format_value (output_format op)) in
    let* op := deref operation in
    let output_file :=
      {| path := output_path; format := output_format op;
         channels := req_channels (input_requirements op);
         channel_index := None |} in
    let* processed_operation :=
      _process_breakpoints self operation prepared_inputs in
    let* processed := deref processed_operation in
    let* cmd_args :=
      lift (get_command_args processed prepared_inputs output_file) in
    let* processed := deref processed_operation in
    _execute_cdp_command self (program processed) cmd_args ;;
    created output_path ;;
    ret [output_file].

(** [PipelineExecutor.cleanup]. *)
Definition cleanup (self : PipelineExecutor) : M unit :=
  match _temp_dir_obj self with
  | Some d =>
      if negb (keep_temp self) then rmtree d
      else ret tt
  | None =>
      if negb (keep_temp self) then rmtree (temp_dir self)
      else ret tt
  end.

(** The finalizer of the [tempfile.TemporaryDirectory] that [__init__] makes
    when it is given no directory. It runs when that object is collected,
    which is when the executor is, unless [cleanup] has removed the directory
    already; [keep_temp] has no part in it. *)
Definition collected (self : PipelineExecutor) : M unit :=
  match _temp_dir_obj self with
  | Some d => if keep_temp self then rmtree d else ret tt
  | None => ret tt
  end.

(** [PipelineExecutor.__init__]: the executor and a counter at zero. *)
Definition new_executor (temp_dir_arg : option Path) (keep verb : bool)
  : M PipelineExecutor :=
  (fun st =>
     (Ok tt, {| _counter := 0; files := files st; heap := heap st;
                trace := trace st; warnings := warnings st |})) ;;
  match temp_dir_arg with
  | Some d =>
      log (Mkdir d) ;;
      ret {| keep_temp := keep; verbose := verb;
             _temp_dir_obj := None; temp_dir := d |}
  | None =>
      ret {| keep_temp := keep; verbose := verb;
             _temp_dir_obj := Some mkdtemp; temp_dir := mkdtemp |}
  end.

End Executor.

(** ** pipeline.py *)

(** The options of [Pipeline.run]. *)
Record RunOptions := {
  opt_temp_dir : option Path;
  opt_keep_temp : bool;
  opt_output_channels : option ChannelMode;
  opt_output_format : option FileFormat;
  opt_verbose : bool;
  opt_overwrite : bool
}.

(** [next((f for f in files if f.channel_index == i), default)]. *)
Definition next_with_index (i : Z) (fs : list AudioFile) (default : AudioFile)
  : AudioFile :=
  match List.find (fun f => bool_decide (channel_index f = Some i)) fs with
  | Some f => f
  | None => default
  end.

(** [result.path = output_path]. *)
Definition set_path (f : AudioFile) (p : Path) : AudioFile :=
  {| path := p; format := format f; channels := channels f;
     channel_index := channel_index f |}.

Section Pipeline.
Context `{PyBuiltins} `{Toolset}.

(** The loop that loads the input files. *)
Fixpoint load_inputs (executor : PipelineExecutor) (input_files : list Path)
  : M (list AudioFile) :=
  match input_files with
  | [] => ret []
  | input_path :: rest =>
      let* present := exists_ input_path in
      if negb present then raise (InputNotFound input_path)
      else
        let* info := get_file_info executor input_path in
        let audio_file :=
          {| path := input_path; format := fst info; channels := snd info;
             channel_index := None |} in
        let* audio_files := load_inputs executor rest in
        ret (audio_file :: audio_files)
  end.

(** The loop over the operations, from index [i]. *)
Fixpoint run_operations (executor : PipelineExecutor) (i : nat)
  (operations : list nat) (current_files : list AudioFile)
  : M (list AudioFile) :=
  match operations with
  | [] => ret current_files
  | operation :: rest =>
      let* op := deref operation in
      let operation_name := "op" +:+ Str.zero_pad 2 i +:+ "_" +:+ name op in
      let* current_files :=
        execute_operation executor operation current_files operation_name in
      run_operations executor (S i) rest current_files
  end.

(** [[f(x) for x in xs]] for a method [f] of the executor. *)
Fixpoint map_M {A B} (f : A -> M B) (xs : list A) : M (list B) :=
  match xs with
  | [] => ret []
  | x :: xs' =>
      let* y := f x in
      let* ys := map_M f xs' in
      ret (y :: ys)
  end.

(** The conversion of the last outputs to the output format. *)
Definition finalize_format (executor : PipelineExecutor)
  (output_format : FileFormat) (current_files : list AudioFile)
  : M (list AudioFile) :=
  match output_format with
  | WAV => map_M (convert_to_wav executor) current_files
  | ANA => map_M (convert_to_ana executor) current_files
  end.

(** The channel configuration of the output and the write to
    [output_path]. *)
Definition finalize_channels (executor : PipelineExecutor)
  (output_channels : option ChannelMode) (input_is_stereo : bool)
  (current_files : list AudioFile) (output_path : Path) : M AudioFile :=
  if bool_decide (output_channels = Some STEREO)
     || (bool_decide (output_channels = None) && input_is_stereo)
  then
    match current_files with
    | [f0; f1] =>
        let left := next_with_index 1 current_files f0 in
        let right := next_with_index 2 current_files f1 in
        let* left :=
          (if negb (is_wav left) then convert_to_wav executor left
           else ret left) in
        let* right :=
          (if negb (is_wav right) then convert_to_wav executor right
           else ret right) in
        merge_stereo executor left right output_path
    | [f0] =>
        if is_stereo f0 then
          copy (path f0) output_path ;;
          ret (set_path f0 output_path)
        else raise (CannotCreateStereo 1)
    | _ => raise (CannotCreateStereo (length current_files))
    end
  else
    match current_files with
    | [f0] =>
        copy (path f0) output_path ;;
        ret (set_path f0 output_path)
    | _ => raise (MultipleOutputs (length current_files))
    end.

(** The body of the [with] statement of [Pipeline.run]. *)
Definition run_body (executor : PipelineExecutor) (operations : list nat)
  (input_files : list Path) (output_path : Path) (opts : RunOptions)
  : M AudioFile :=
  let output_format :=
    match opt_output_format opts with
    | Some f => f
    | None => WAV
    end in
  let* audio_files := load_inputs executor input_files in
  let input_is_stereo := existsb is_stereo audio_files in
  let* current_files := run_operations executor 0 operations audio_files in
  let* current_files := finalize_format executor output_format current_files in
  finalize_channels executor (opt_output_channels opts) input_is_stereo
    current_files output_path.

(** [Pipeline.run]; [operations] is [self.operations]. *)
Definition run (operations : list nat) (input_files : list Path)
  (output_path : Path) (opts : RunOptions) : M AudioFile :=
  let* present := exists_ output_path in
  (if opt_overwrite opts && present then unlink output_path else ret tt) ;;
  let* executor :=
    new_executor (opt_temp_dir opts) (opt_keep_temp opts) (opt_verbose opts) in
  finally (run_body executor operations input_files output_path opts)
          (cleanup executor).

(** A call of [Pipeline.run] with what follows it: the executor is a local
    variable of [run], so it is collected once the call is over. *)
Definition run_and_collect (operations : list nat) (input_files : list Path)
  (output_path : Path) (opts : RunOptions) : M AudioFile :=
  let* present := exists_ output_path in
  (if opt_overwrite opts && present then unlink output_path else ret tt) ;;
  let* executor :=
    new_executor (opt_temp_dir opts) (opt_keep_temp opts) (opt_verbose opts) in
  finally
    (finally (run_body executor operations input_files output_path opts)
             (cleanup executor))
    (collected executor).

End Pipeline.

(** ** An instance of the builtins and of the toolset, to run the model *)

Module Demo.

Definition digit_of (c : ascii) : option Z :=
  let n := nat_of_ascii c in
  if (48 <=? n)%nat && (n <=? 57)%nat then Some (Z.of_nat (n - 48)) else None.

(** The value of a run of digits after [acc], and how many were read. *)
Fixpoint digits (acc : Z) (count : nat) (s : string) : option (Z * nat) :=
  match s with
  | EmptyString => Some (acc, count)
  | String c s' =>
      match digit_of c with
      | Some d => digits (acc * 10 + d) (S count) s'
      | None => None
      end
  end.

(** The text before and after the first dot. *)
Fixpoint cut_at_dot (s : string) : string * option string :=
  match s with
  | EmptyString => (EmptyString, None)
  | String c s' =>
      if Str.is_char c "." then (EmptyString, Some s')
      else let '(a, b) := cut_at_dot s' in (String c a, b)
  end.

Definition unsigned_decimal (s : string) : option Q :=
  match cut_at_dot s with
  | (whole, None) =>
      match digits 0 0 whole with
      | Some (n, S _) => Some (inject_Z n)
      | _ => None
      end
  | (whole, Some frac) =>
      match digits 0 0 whole, digits 0 0 frac with
      | Some (n, a), Some (m, b) =>
          if (a + b =? 0)%nat then None
          else Some (Qred (inject_Z n + Qmake m (Pos.of_nat (10 ^ b))))
      | _, _ => None
      end
  end.

(** [float(s)] on plain decimal numerals. *)
Definition float_of_string (s : string) : option Q :=
  match s with
  | String "-" s' => option_map Qopp (unsigned_decimal s')
  | _ => unsigned_decimal s
  end.

(** [int(s)] on plain decimal numerals, white space stripped. *)
Definition int_of_string (s : string) : option Z :=
  match Str.split_ws s with
  | [String "-" t] =>
      match digits 0 0 t with
      | Some (n, S _) => Some (- n)%Z
      | _ => None
      end
  | [t] =>
      match digits 0 0 t with
      | Some (n, S _) => Some n
      | _ => None
      end
  | _ => None
  end.

(** A decimal rendering with [k] digits after the point, rounded half up. *)
Definition fixed (k : nat) (x : Q) : string :=
  let scale := (10 ^ Z.of_nat k)%Z in
  let n := ((2 * Qnum x * scale + Zpos (Qden x)) / (2 * Zpos (Qden x)))%Z in
  let a := Z.abs n in
  (if (n <? 0)%Z then "-" else "")
  +:+ pretty (a / scale)%Z +:+ "."
  +:+ Str.zero_pad k (Z.to_nat (a mod scale)).

Definition builtins : PyBuiltins := {|
  py_float := float_of_string;
  py_int := int_of_string;
  py_str_float := fixed 1;
  py_fmt_6f := fixed 6
|}.

(** A toolset in which every program succeeds; [sfprops] reports
    [channel_count] channels and [sndinfo] a duration of [seconds]. *)
Definition toolset (channel_count seconds : string) : Toolset := {|
  sh := fun _ prog _ =>
    if bool_decide (prog = "sfprops") then Some channel_count
    else if bool_decide (prog = "sndinfo")
    then Some ("DURATION: " +:+ seconds +:+ " secs samples 184064")
    else Some "";
  mkdtemp := ["tmp"; "tmpdir"]
|}.

(** The same toolset without the program [missing], which fails. *)
Definition toolset_without (missing channel_count seconds : string) : Toolset := {|
  sh := fun fs prog args =>
    if bool_decide (prog = missing) then None
    else @sh (toolset channel_count seconds) fs prog args;
  mkdtemp := ["tmp"; "tmpdir"]
|}.

(** A toolset in which every program fails. *)
Definition broken_toolset : Toolset := {|
  sh := fun _ _ _ => None;
  mkdtemp := ["tmp"; "tmpdir"]
|}.

Definition empty_state (fs : gset Path) (objects : list CDPOperation) : State :=
  {| _counter := 0; files := fs; heap := objects; trace := [];
     warnings := [] |}.

Definition mono_ana : OperationRequirements :=
  {| req_format := ANA; req_channels := MONO |}.

(** [operations.blur(2.0)]. *)
Definition blur : CDPOperation :=
  {| name := "blur_2.0"; program := "blur"; subcommand := Some "blur";
     mode := None; input_requirements := mono_ana; output_format := ANA;
     params := [PFloat 2]; multi_input := false |}.

(** [operations.combine_interleave(1)]. *)
Definition combine_interleave : CDPOperation :=
  {| name := "combine_interleave_1"; program := "combine";
     subcommand := Some "interleave"; mode := None;
     input_requirements := mono_ana; output_format := ANA;
     params := [PInt 1]; multi_input := true |}.

(** A blur whose amount is the curve [from_pairs((0.0, 1.0), ("100%", 5.0))]. *)
Definition blur_ramp : CDPOperation :=
  {| name := "blur_auto"; program := "blur"; subcommand := Some "blur";
     mode := None; input_requirements := mono_ana; output_format := ANA;
     params :=
       [PBreakpoint
          {| points := [ {| time := TNum 0; value := 1 |};
                         {| time := TStr "100%"; value := 5 |} ];
             bp_name := None |}];
     multi_input := false |}.


(** An executor with the scratch area [tmp]. *)
Definition executor : PipelineExecutor :=
  {| keep_temp := false; verbose := false; _temp_dir_obj := None;
     temp_dir := ["tmp"] |}.

(** An operation on stereo waveforms. *)
Definition widen : CDPOperation :=
  {| name := "widen"; program := "widen"; subcommand := None; mode := None;
     input_requirements := {| req_format := WAV; req_channels := STEREO |};
     output_format := WAV; params := []; multi_input := false |}.

Definition default_options : RunOptions :=
  {| opt_temp_dir := None; opt_keep_temp := false;
     opt_output_channels := None; opt_output_format := None;
     opt_verbose := false; opt_overwrite := false |}.

Definition overwrite_options : RunOptions :=
  {| opt_temp_dir := None; opt_keep_temp := false;
     opt_output_channels := None; opt_output_format := None;
     opt_verbose := false; opt_overwrite := true |}.



(** [keep_temp=True] and no directory given. *)
Definition kept_options : RunOptions :=
  {| opt_temp_dir := None; opt_keep_temp := true;
     opt_output_channels := None; opt_output_format := None;
     opt_verbose := false; opt_overwrite := false |}.

End Demo.

#[global] Existing Instance Demo.builtins.

(** * The vocabulary of the properties *)

(** ** Automation curves *)

(** What the specification says an absolute time is: a number is itself, a
    percentage [P] of a duration [D] is [D * P / 100]. *)
Inductive resolves_to `{PyBuiltins} (D : Q) : TimeSpec -> Q -> Prop :=
| resolves_number (x : Q) :
    resolves_to D (TNum x) x
| resolves_percentage (s : string) (P t : Q) :
    Str.endswith_char s "%" = true ->
    py_float (Str.rstrip_char s "%") = Some P ->
    (t == D * P / 100)%Q ->
    resolves_to D (TStr s) t
| resolves_numeral (s : string) (t : Q) :
    Str.endswith_char s "%" = false ->
    py_float s = Some t ->
    resolves_to D (TStr s) t.

(** The time-specs on which [float] raises. *)
Definition unparsable `{PyBuiltins} (ts : TimeSpec) : Prop :=
  match ts with
  | TNum _ => False
  | TStr s =>
      if Str.endswith_char s "%"
      then py_float (Str.rstrip_char s "%") = None
      else py_float s = None
  end.

(** A point given as a number of seconds beyond the duration. *)
Definition beyond (D : Q) (p : BreakpointValue) : bool :=
  match time p with
  | TNum t => Qltb D t
  | TStr _ => false
  end.

Definition by_time {A} (a b : Q * A) : Prop := (fst a <= fst b)%Q.

(** The times and values of a result, as reduced fractions. *)
Definition reduced (r : Result (list (Q * Q) * list Warning))
  : option (list (Q * Q) * list Warning) :=
  match r with
  | Ok (l, ws) => Some (map (fun tv => (Qred (fst tv), Qred (snd tv))) l, ws)
  | Err _ => None
  end.

(** ** Relations between the state before and the state after *)

(** [m] takes every state to one that [R] relates to it, whether it returns
    or raises. *)
Definition run_rel {A} (R : State -> State -> Prop) (m : M A) : Prop :=
  forall st, R st (snd (m st)).

(** The trace grows, and by events of the kind [P] only. *)
Definition trace_ext (P : Event -> Prop) (st st' : State) : Prop :=
  exists t, trace st' = trace st ++ t /\ Forall P t.

(** No object is changed; new ones may appear. *)
Definition heap_ext (st st' : State) : Prop :=
  forall r op, heap st !! r = Some op -> heap st' !! r = Some op.

(** The file [q] is not made. *)
Definition not_made (q : Path) (st st' : State) : Prop :=
  q ∈ files st' -> q ∈ files st.

(** The file [q] is neither made nor removed. *)
Definition untouched (q : Path) (st st' : State) : Prop :=
  q ∈ files st' <-> q ∈ files st.

(** The kinds of events. *)
Definition is_split_event (ev : Event) : Prop :=
  match ev with
  | Copy _ _ | Call housekeep _ => True
  | _ => False
  end.

Definition is_conversion_event (ev : Event) : Prop :=
  match ev with
  | Call pvoc _ => True
  | _ => False
  end.


Definition no_event (ev : Event) : Prop := False.

(** The two descriptors that stand for a stereo input: mono, the first
    tagged 1 (left) and the second tagged 2 (right). *)
Definition split_pair (l : list AudioFile) : Prop :=
  exists left right,
    l = [left; right]
    /\ channels left = MONO /\ channels right = MONO
    /\ channel_index left = Some 1%Z /\ channel_index right = Some 2%Z.

(** The first pass at the input [f]: when mono is required and [f] is
    stereo, the descriptors [l] that replace it are its two channels, and
    the events are a copy of the file into the scratch directory [T] and the
    split of that copy ([housekeep chans 2]); otherwise [f] stays, and there
    is no event. *)
Definition split_step (T : Path) (required_channels : ChannelMode)
  (f : AudioFile) (l : list AudioFile) (events : list Event) : Prop :=
  match required_channels, channels f with
  | MONO, STEREO =>
      split_pair l
      /\ exists copied,
           T `prefix_of` copied
           /\ events
              = [ Copy (path f) copied;
                  Call housekeep ["chans"; "2"; Pathlib.to_str copied] ]
  | _, _ => l = [f] /\ events = []
  end.

(** The second pass at the descriptor [p]: when [p] is in the required
    format, the descriptor [c] is [p], and there is no event; otherwise [c]
    is in the required format, with the channels and the tag of [p], and the
    one event is the conversion ([pvoc anal 1] to analysis data, [pvoc synth]
    to a waveform) of the file of [p] into the file of [c]. *)
Definition convert_step (required_format : FileFormat) (p c : AudioFile)
  (events : list Event) : Prop :=
  if bool_decide (format p = required_format) then c = p /\ events = []
  else
    format c = required_format
    /\ channels c = channels p
    /\ channel_index c = channel_index p
    /\ events
       = [ Call pvoc
             match required_format with
             | ANA => ["anal"; "1"; Pathlib.to_str (path p);
                       Pathlib.to_str (path c)]
             | WAV => ["synth"; Pathlib.to_str (path p);
                       Pathlib.to_str (path c)]
             end ].

(** What [split_stereo] makes of a file. *)
Definition split_shape (self : PipelineExecutor) (f : AudioFile)
  : list AudioFile :=
  if is_stereo f then
    let temp_input := Pathlib.joinpath (temp_dir self) (Pathlib.name (path f)) in
    [stereo_channel temp_input 1; stereo_channel temp_input 2]
  else [f].

(** [c] is [p] in the format [fmt]: [p] itself when it has that format, a
    descriptor with the channels and the channel tag of [p] otherwise. *)
Definition converted_from (fmt : FileFormat) (p c : AudioFile) : Prop :=
  format c = fmt
  /\ channels c = channels p
  /\ channel_index c = channel_index p
  /\ (format p = fmt -> c = p).

(** A step of the executor whose scratch area is [T]: no object is changed,
    and no file outside [T] is made or removed. *)
Definition step_in (T : Path) (st st' : State) : Prop :=
  heap_ext st st'
  /\ forall q, ~ T `prefix_of` q -> untouched q st st'.

(** The invocations of an operation's own program. *)
Definition is_invocation (ev : Event) : bool :=
  match ev with
  | Call (cdp _) _ => true
  | _ => false
  end.

Definition not_invocation (ev : Event) : Prop := is_invocation ev = false.

(** ** The stages of a run *)

(** The scratch area of a run. *)
Definition scratch_dir `{Toolset} (opts : RunOptions) : Path :=
  match opt_temp_dir opts with
  | Some d => d
  | None => mkdtemp
  end.

(** What [Pipeline.run] does before it enters the [with] statement. *)
Definition setup `{PyBuiltins} `{Toolset} (output_path : Path) (opts : RunOptions)
  : M PipelineExecutor :=
  let* present := exists_ output_path in
  (if opt_overwrite opts && present then unlink output_path else ret tt) ;;
  new_executor (opt_temp_dir opts) (opt_keep_temp opts) (opt_verbose opts).



(** ** Materialization *)

(** The text of a sequence of points: a line for each point, with its time
    and its value to six decimals. *)
Definition curve_text `{PyBuiltins} (points : list (Q * Q)) : string :=
  Str.join (String "010" "")
    (map (fun tv => py_fmt_6f (fst tv) +:+ " " +:+ py_fmt_6f (snd tv)) points).

(** The sequence a curve resolves to against the duration [D]: its points,
    each at its absolute time and with its value, ascending by time. *)
Definition resolved_sequence `{PyBuiltins} (D : Q) (bp : Breakpoint)
  (result : list (Q * Q)) : Prop :=
  exists resolved,
    Forall2 (fun p r => resolves_to D (time p) (fst r) /\ snd r = value p)
      (points bp) resolved
    /\ Permutation resolved result
    /\ StronglySorted by_time result.

(** The file of the curve that is the parameter [i] of the operation named
    [base], when it is the scratch file number [c]:
    [<scratch>/<base>_param<i>_<c, four digits>.txt]. *)
Definition curve_file (T : Path) (base : string) (i c : nat) : Path :=
  Pathlib.truediv T
    ((base +:+ "_param" +:+ pretty i)
     +:+ "_" +:+ Str.zero_pad 4 c +:+ "." +:+ "txt").

(** The parameters [ps'] and the events that stand for the parameters [ps],
    from the index [i] on and after [c] scratch files: a curve has become the
    path of its file, written with the text of the sequence it resolves to;
    any other parameter is as it was, and gives no event. *)
Inductive materializes `{PyBuiltins} (T : Path) (base : string) (d : Q)
  : nat -> nat -> list Param -> list Param -> list Event -> Prop :=
| materializes_nil (i c : nat) :
    materializes T base d i c [] [] []
| materializes_scalar (i c : nat) (p : Param) (ps ps' : list Param)
    (events : list Event) :
    is_automatable p = false ->
    materializes T base d (S i) c ps ps' events ->
    materializes T base d i c (p :: ps) (p :: ps') events
| materializes_curve (i c : nat) (bp : Breakpoint) (result : list (Q * Q))
    (ps ps' : list Param) (events : list Event) :
    resolved_sequence d bp result ->
    materializes T base d (S i) (S c) ps ps' events ->
    materializes T base d i c (PBreakpoint bp :: ps)
      (PStr (Pathlib.to_str (curve_file T base i (S c))) :: ps')
      (WriteText (curve_file T base i (S c)) (curve_text result) :: events).

(** The files that events write. *)
Definition written (events : list Event) : list Path :=
  flat_map (fun ev => match ev with
                      | WriteText p _ => [p]
                      | _ => []
                      end) events.

(** ** Channel groups *)

(** The descriptor [f] carries the channel tag [k]; [None] is the tag of the
    untagged ones. *)
Definition with_tag (k : option Z) (f : AudioFile) : Prop :=
  channel_index f = k.

#[global] Instance with_tag_dec k f : Decision (with_tag k f).
Proof. unfold with_tag. apply _. Defined.

(** [groups] are the descriptors [fs] grouped by channel tag: one group for
    each tag that occurs, holding the descriptors with that tag, in order. *)
Definition grouped_by_tag (fs : list AudioFile)
  (groups : list (option Z * list AudioFile)) : Prop :=
  NoDup (map fst groups)
  /\ (forall f, f ∈ fs -> channel_index f ∈ map fst groups)
  /\ Forall (fun g => snd g <> [] /\ snd g = filter (with_tag (fst g)) fs)
            groups.

(** The invocation [ev] and the output descriptor [o] of the channel group
    [g] of the operation [op]: the program of [op] is called with the
    arguments that [op], maybe with other parameters, has for the files of the
    group and [o]; and [o] is a mono descriptor in the output format of [op]
    with the tag of the group. *)
Definition group_outcome `{PyBuiltins} (op : CDPOperation)
  (g : option Z * list AudioFile) (ev : Event) (o : AudioFile) : Prop :=
  channel_index o = fst g
  /\ channels o = MONO
  /\ format o = output_format op
  /\ exists processed_params args,
       get_command_args (replace_params op processed_params) (snd g) o
       = Ok args
       /\ ev = Call (cdp (program op)) args.


(** The descriptor [f] is what an operation that requires [fmt] and [ch]
    takes. *)
Definition meets (fmt : FileFormat) (ch : ChannelMode) (f : AudioFile) : Prop :=
  format f = fmt /\ channels f = ch.

(** ** breakpoint.py: building a curve *)

(** [Breakpoint(name=name)]. *)
Definition new_breakpoint (name : option string) : Breakpoint :=
  {| points := []; bp_name := name |}.

(** [Breakpoint.add]. *)
Definition add (self : Breakpoint) (t : TimeSpec) (v : Q) : Breakpoint :=
  {| points := points self ++ [{| time := t; value := v |}];
     bp_name := bp_name self |}.

(** [Breakpoint.__len__]. *)
Definition len (self : Breakpoint) : nat := length (points self).

(** [Breakpoint.from_pairs]. *)
Definition from_pairs (pairs : list (TimeSpec * Q)) (name : option string)
  : Breakpoint :=
  fold_left (fun bp tv => add bp (fst tv) (snd tv)) pairs (new_breakpoint name).

(** [Breakpoint.linear]. *)
Definition linear (start_value end_value : Q) (name : option string)
  : Breakpoint :=
  let bp := new_breakpoint name in
  let bp := add bp (TStr "0%") start_value in
  let bp := add bp (TStr "100%") end_value in
  bp.

(** [Breakpoint.fade_in]; the percentage is a float, written in the
    f-string as [str] writes it. *)
Definition fade_in `{PyBuiltins} (duration_percent max_value : Q)
  (name : option string) : Breakpoint :=
  let bp := new_breakpoint name in
  let bp := add bp (TStr "0%") 0 in
  let bp := add bp (TStr (py_str_float duration_percent +:+ "%")) max_value in
  let bp := add bp (TStr "100%") max_value in
  bp.

(** [Breakpoint.fade_out]. *)
Definition fade_out `{PyBuiltins} (start_percent start_value : Q)
  (name : option string) : Breakpoint :=
  let bp := new_breakpoint name in
  let bp := add bp (TStr "0%") start_value in
  let bp := add bp (TStr (py_str_float start_percent +:+ "%")) start_value in
  let bp := add bp (TStr "100%") 0 in
  bp.

(** The builtins on the numerals of the constructors: [float] reads ["0"]
    and ["100"] as these numbers. *)
Definition reads_percent_bounds `{PyBuiltins} : Prop :=
  py_float "0" = Some 0%Q /\ py_float "100" = Some 100%Q.

(** [str] writes the float [x] as a numeral that [float] reads back. *)
Definition round_trips `{PyBuiltins} (x : Q) : Prop :=
  Str.endswith_char (py_str_float x) "%" = false
  /\ py_float (py_str_float x) = Some x.

(** ** operations.py *)

Module Operations.
Section Operations.
Context `{PyBuiltins}.

Definition ana_mono : OperationRequirements :=
  {| req_format := ANA; req_channels := MONO |}.

Definition wav_mono : OperationRequirements :=
  {| req_format := WAV; req_channels := MONO |}.

Definition blur (blur_amount : Param) : CDPOperation :=
  {| name := "blur_" +:+ str_param blur_amount;
     program := "blur"; subcommand := Some "blur"; mode := None;
     input_requirements := ana_mono; output_format := ANA;
     params := [blur_amount]; multi_input := false |}.

Definition combine_interleave (leafsize : Param) : CDPOperation :=
  {| name := "combine_interleave_" +:+ str_param leafsize;
     program := "combine"; subcommand := Some "interleave"; mode := None;
     input_requirements := ana_mono; output_format := ANA;
     params := [leafsize]; multi_input := true |}.

Definition morph (morphing_factor : Param) : CDPOperation :=
  {| name := "morph_" +:+ str_param morphing_factor;
     program := "morph"; subcommand := Some "morph"; mode := None;
     input_requirements := ana_mono; output_format := ANA;
     params := [morphing_factor]; multi_input := true |}.

Definition pitch_transpose (semitones : Param) : CDPOperation :=
  {| name := "pitch_transpose_" +:+ str_param semitones;
     program := "pitch"; subcommand := Some "transp"; mode := None;
     input_requirements := ana_mono; output_format := ANA;
     params := [semitones]; multi_input := false |}.

Definition stretch_time (time_stretch : Param) : CDPOperation :=
  {| name := "stretch_time_" +:+ str_param time_stretch;
     program := "stretch"; subcommand := Some "time"; mode := None;
     input_requirements := ana_mono; output_format := ANA;
     params := [time_stretch]; multi_input := false |}.

Definition modify_speed (speed : Param) : CDPOperation :=
  {| name := "modify_speed_" +:+ str_param speed;
     program := "modify"; subcommand := Some "speed";
     mode := Some (ModeInt 1);
     input_requirements := wav_mono; output_format := WAV;
     params := [speed]; multi_input := false |}.

Definition envel_attack (attack_time : Param) : CDPOperation :=
  {| name := "envel_attack_" +:+ str_param attack_time;
     program := "envel"; subcommand := Some "attack"; mode := None;
     input_requirements := wav_mono; output_format := WAV;
     params := [attack_time]; multi_input := false |}.

Definition filter_lohi (attenuation pass_band stop_band : Param) (mode_ : Z)
  : CDPOperation :=
  {| name := "filter_lohi_" +:+ str_param pass_band +:+ "_"
             +:+ str_param stop_band;
     program := "filter"; subcommand := Some "lohi";
     mode := Some (ModeInt mode_);
     input_requirements := wav_mono; output_format := WAV;
     params := [attenuation; pass_band; stop_band]; multi_input := false |}.

(** [custom_operation]; an argument left out is its default. *)
Definition custom_operation (name_ program_ : string)
  (subcommand_ : option string) (mode_ : option Mode)
  (input_format output_format_ : FileFormat) (channels_ : ChannelMode)
  (params_ : option (list Param)) (multi_input_ : bool) : CDPOperation :=
  {| name := name_; program := program_; subcommand := subcommand_;
     mode := mode_;
     input_requirements :=
       {| req_format := input_format; req_channels := channels_ |};
     output_format := output_format_;
     params := match params_ with
               | Some (p :: ps) => p :: ps
               | _ => []
               end;
     multi_input := multi_input_ |}.

(** The operations that the module defines without [custom_operation]. *)
Inductive predefined : CDPOperation -> Prop :=
| predefined_blur a : predefined (blur a)
| predefined_combine_interleave a : predefined (combine_interleave a)
| predefined_morph a : predefined (morph a)
| predefined_pitch_transpose a : predefined (pitch_transpose a)
| predefined_stretch_time a : predefined (stretch_time a)
| predefined_modify_speed a : predefined (modify_speed a)
| predefined_envel_attack a : predefined (envel_attack a)
| predefined_filter_lohi a b c m : predefined (filter_lohi a b c m).

End Operations.
End Operations.

(** [m] raises no other exceptions than those in [P]. *)
Definition raises_only {A} (P : Exn -> Prop) (m : M A) : Prop :=
  forall st e st', m st = (Err e, st') -> P e.

(** The exceptions of the toolset and of the file system. *)
Definition from_outside (e : Exn) : Prop :=
  match exn_class e with
  | ShError | FileNotFoundError | OSError => True
  | _ => False
  end.

(** ** Names *)

(** A digit, and a string of digits. *)
Definition is_digit (c : ascii) : bool :=
  (48 <=? nat_of_ascii c)%nat && (nat_of_ascii c <=? 57)%nat.

Definition numeral (s : string) : Prop :=
  forallb is_digit (list_ascii_of_string s) = true.

(** The operations [refs] are objects, and the name of each of them is the
    name of one component. *)
Definition plain_names (refs : list nat) (st : State) : bool :=
  forallb (fun r => match heap st !! r with
                    | Some op => Pathlib.plain (name op)
                    | None => false
                    end) refs.

(** A step in the scratch directory [T], for operations with such names. *)
Definition guarded (refs : list nat) (T : Path) (st st' : State) : Prop :=
  plain_names refs st = true -> step_in T st st'.

(** * Properties *)

(** ** Paths and names *)

Lemma list_ascii_of_string_app (a b : string) :
  list_ascii_of_string (a +:+ b)
  = list_ascii_of_string a ++ list_ascii_of_string b.
Proof. induction a as [| c a IH]; simpl; [reflexivity | now rewrite IH]. Qed.

Lemma append_inv_head (a u v : string) : a +:+ u = a +:+ v -> u = v.
Proof.
  induction a as [| c a IH]; simpl; [auto |].
  intros Heq. injection Heq as Heq. now apply IH.
Qed.

Lemma append_inv_tail (u v z : string) : u +:+ z = v +:+ z -> u = v.
Proof.
  intros Heq. apply (f_equal list_ascii_of_string) in Heq.
  rewrite !list_ascii_of_string_app in Heq. apply app_inv_tail in Heq.
  apply (f_equal string_of_list_ascii) in Heq.
  now rewrite !string_of_list_ascii_of_string in Heq.
Qed.

Lemma plain_app (a b : string) :
  Pathlib.plain (a +:+ b) = Pathlib.plain a && Pathlib.plain b.
Proof.
  unfold Pathlib.plain. now rewrite list_ascii_of_string_app, forallb_app.
Qed.

Lemma plain_split_char (s : string) :
  Forall (fun w => Pathlib.plain w = true) (Str.split_char "/" s).
Proof.
  induction s as [| d s IH]; simpl.
  - now repeat constructor.
  - destruct (Str.is_char d "/") eqn:Hd.
    + now constructor.
    + destruct (Str.split_char "/" s) as [| w ws].
      * repeat constructor. unfold Pathlib.plain. simpl. now rewrite Hd.
      * inversion IH as [| ? ? Hw Hws]; subst. constructor; [| exact Hws].
        unfold Pathlib.plain in *. simpl. now rewrite Hd.
Qed.

Lemma plain_name (p : Path) : Pathlib.plain (Pathlib.name p) = true.
Proof.
  unfold Pathlib.name.
  pose proof (plain_split_char (List.last p "")) as Hall.
  induction Hall as [| w [| w' ws] Hw Hws IH]; [reflexivity | exact Hw | exact IH].
Qed.

Lemma plain_substring (s : string) (a n : nat) :
  Pathlib.plain s = true -> Pathlib.plain (String.substring a n s) = true.
Proof.
  unfold Pathlib.plain. revert a n.
  induction s as [| d s IH]; intros [| a] [| n] Hs; simpl in *;
    try reflexivity; apply andb_true_iff in Hs as [Hd Hs].
  - rewrite Hd. now apply (IH 0%nat).
  - now apply IH.
  - now apply IH.
Qed.

Lemma plain_stem (p : Path) : Pathlib.plain (Pathlib.stem p) = true.
Proof.
  unfold Pathlib.stem. cbv zeta.
  destruct (Str.rfind_char "." (Pathlib.name p)) as [i |]; [| apply plain_name].
  destruct (_ && _); [| apply plain_name].
  apply plain_substring, plain_name.
Qed.

Lemma split_char_absent (c : ascii) (s : string) :
  forallb (fun d => negb (Str.is_char d c)) (list_ascii_of_string s) = true ->
  Str.split_char c s = [s].
Proof.
  induction s as [| d s IH]; simpl; [reflexivity |].
  intros Hall. apply andb_true_iff in Hall as [Hd Hs].
  apply negb_true_iff in Hd. rewrite Hd, (IH Hs). reflexivity.
Qed.

Lemma prefix_other_head (c d : ascii) (r s : string) :
  c <> d -> String.prefix (String c r) (String d s) = false.
Proof. intros Hne. simpl. now destruct (Ascii.ascii_dec c d). Qed.

Lemma root_plain (s : string) : Pathlib.plain s = true -> Pathlib.root s = None.
Proof.
  unfold Pathlib.root, Pathlib.plain.
  destruct s as [| d s]; [reflexivity |]. cbn [list_ascii_of_string forallb].
  intros Hs. apply andb_true_iff in Hs as [Hd _].
  apply negb_true_iff in Hd. unfold Str.is_char in Hd.
  assert (Hne : "/"%char <> d).
  { intros <-. now rewrite Ascii.eqb_refl in Hd. }
  now rewrite !prefix_other_head.
Qed.

Lemma truediv_plain (p : Path) (s : string) :
  Pathlib.plain s = true -> s <> "" -> s <> "." ->
  Pathlib.truediv p s = p ++ [s].
Proof.
  intros Hs Hne Hdot. unfold Pathlib.truediv, Pathlib.parts.
  rewrite (root_plain s Hs), (split_char_absent "/" s Hs). simpl.
  destruct (String.eqb_spec s ""); [contradiction |].
  destruct (String.eqb_spec s "."); [contradiction |]. reflexivity.
Qed.

Lemma name_snoc (p : Path) (n : string) :
  Pathlib.plain n = true -> Pathlib.name (p ++ [n]) = n.
Proof.
  intros Hn. unfold Pathlib.name. rewrite last_last.
  now rewrite (split_char_absent "/" n Hn).
Qed.

Lemma numeral_pretty_N_go (x : N) (s : string) :
  numeral s -> numeral (pretty_N_go x s).
Proof.
  revert s. induction (N.lt_wf_0 x) as [x _ IH]. intros s Hs.
  destruct (N.eq_0_gt_0_cases x) as [-> | Hpos]; [exact Hs |].
  rewrite pretty_N_go_step by exact Hpos.
  apply IH; [apply N.div_lt; lia |].
  unfold numeral. simpl. rewrite Hs, andb_true_r.
  unfold pretty_N_char. repeat case_match; reflexivity.
Qed.

Lemma numeral_pretty_nat (n : nat) : numeral (pretty n).
Proof.
  unfold pretty, pretty_nat, pretty, pretty_N.
  destruct (decide (N.of_nat n = 0%N)); [reflexivity |].
  now apply numeral_pretty_N_go.
Qed.

Lemma numeral_zeros (k : nat) : numeral (Str.zeros k).
Proof. induction k as [| k IH]; [reflexivity | exact IH]. Qed.

Lemma numeral_app (a b : string) : numeral a -> numeral b -> numeral (a +:+ b).
Proof.
  unfold numeral. rewrite list_ascii_of_string_app, forallb_app.
  now intros -> ->.
Qed.

Lemma numeral_zero_pad (w n : nat) : numeral (Str.zero_pad w n).
Proof. unfold Str.zero_pad. apply numeral_app; [apply numeral_zeros | apply numeral_pretty_nat]. Qed.

Lemma numeral_plain (s : string) : numeral s -> Pathlib.plain s = true.
Proof.
  unfold numeral, Pathlib.plain.
  induction (list_ascii_of_string s) as [| c l IH]; simpl; [reflexivity |].
  intros Hd. apply andb_true_iff in Hd as [Hc Hl]. rewrite (IH Hl), andb_true_r.
  unfold Str.is_char. destruct (Ascii.eqb_spec c "/") as [-> |]; [discriminate | reflexivity].
Qed.




(** ** Automation curves *)

Section BreakpointFacts.
Context `{PyBuiltins}.

Lemma Qltb_true (x y : Q) : Qltb x y = true -> (x < y)%Q.
Proof.
  unfold Qltb. intros Hb. apply Qnot_le_lt. intros Hle.
  apply Qle_bool_iff in Hle. rewrite Hle in Hb. discriminate.
Qed.

Lemma Qltb_false (x y : Q) : Qltb x y = false -> (y <= x)%Q.
Proof.
  unfold Qltb. intros Hb. apply Qle_bool_iff.
  destruct (Qle_bool y x); [reflexivity | discriminate].
Qed.

Lemma get_absolute_time_ok (p : BreakpointValue) (D t : Q) :
  get_absolute_time p D = Ok t -> resolves_to D (time p) t.
Proof.
  unfold get_absolute_time. destruct (time p) as [x | s].
  - intros [= <-]. constructor.
  - destruct (Str.endswith_char s "%") eqn:Hpct.
    + destruct (py_float (Str.rstrip_char s "%")) as [P |] eqn:HP; [| discriminate].
      intros [= <-]. eapply resolves_percentage; eauto. field.
    + destruct (py_float s) as [t' |] eqn:Ht; [| discriminate].
      intros [= <-]. now apply resolves_numeral.
Qed.

Lemma get_absolute_time_err (p : BreakpointValue) (D : Q) (e : Exn) :
  get_absolute_time p D = Err e -> unparsable (time p).
Proof.
  unfold get_absolute_time, unparsable. destruct (time p) as [x | s].
  - discriminate.
  - destruct (Str.endswith_char s "%").
    + destruct (py_float (Str.rstrip_char s "%")); [discriminate | reflexivity].
    + destruct (py_float s); [discriminate | reflexivity].
Qed.

Lemma get_absolute_time_number (p : BreakpointValue) (D x : Q) :
  time p = TNum x -> get_absolute_time p D = Ok x.
Proof. unfold get_absolute_time. now intros ->. Qed.

(** The first loop: one resolved pair per point, in order, value kept. *)
Lemma resolve_points_ok (ps : list BreakpointValue) (D : Q) result original :
  resolve_points ps D = Ok (result, original) ->
  Forall2 (fun p r => get_absolute_time p D = Ok (fst r) /\ snd r = value p)
          ps result
  /\ original = map (fun p => match get_absolute_time p D with
                              | Ok t => (t, time p)
                              | Err _ => (0%Q, time p)
                              end) ps.
Proof.
  revert result original.
  induction ps as [| p ps IH]; simpl; intros result original.
  - intros [= <- <-]. split; [constructor | reflexivity].
  - destruct (get_absolute_time p D) as [t |] eqn:Ht; [| discriminate].
    destruct (resolve_points ps D) as [[res orig] |]; [| discriminate].
    intros [= <- <-]. destruct (IH res orig eq_refl) as [IH1 IH2].
    split; [constructor; [split; [exact Ht | reflexivity] | exact IH1] |].
    simpl. now rewrite IH2.
Qed.

Lemma resolve_points_err (ps : list BreakpointValue) (D : Q) (e : Exn) :
  resolve_points ps D = Err e -> Exists (fun p => unparsable (time p)) ps.
Proof.
  induction ps as [| p ps IH]; simpl; [discriminate |].
  destruct (get_absolute_time p D) as [t |] eqn:Ht.
  - destruct (resolve_points ps D) as [[res orig] |] eqn:Hr.
    + discriminate.
    + intros He. apply Exists_cons_tl. now apply IH.
  - intros _. apply Exists_cons_hd. eapply get_absolute_time_err; eauto.
Qed.

(** The sort. *)
Lemma insert_by_time_perm {A} (x : Q * A) (l : list (Q * A)) :
  Permutation (x :: l) (insert_by_time x l).
Proof.
  induction l as [| y l IH]; simpl; [reflexivity |].
  destruct (Qltb (fst y) (fst x)); [| reflexivity].
  rewrite perm_swap. now apply perm_skip.
Qed.

Lemma sort_by_time_perm {A} (l : list (Q * A)) :
  Permutation l (sort_by_time l).
Proof.
  induction l as [| x l IH]; simpl; [reflexivity |].
  rewrite <- insert_by_time_perm. now apply perm_skip.
Qed.

Lemma insert_by_time_sorted {A} (x : Q * A) (l : list (Q * A)) :
  StronglySorted by_time l -> StronglySorted by_time (insert_by_time x l).
Proof.
  induction 1 as [| y l Hs IH Hall]; simpl.
  - repeat constructor.
  - destruct (Qltb (fst y) (fst x)) eqn:Hlt.
    + constructor; [exact IH |].
      apply (Permutation_Forall (insert_by_time_perm x l)).
      constructor; [| exact Hall].
      unfold by_time. apply Qlt_le_weak. now apply Qltb_true.
    + apply Qltb_false in Hlt. constructor; [now constructor |].
      constructor; [exact Hlt |].
      eapply Forall_impl; [exact Hall |].
      intros z Hz. unfold by_time in *. eapply Qle_trans; eauto.
Qed.

Lemma sort_by_time_sorted {A} (l : list (Q * A)) :
  StronglySorted by_time (sort_by_time l).
Proof.
  induction l as [| x l IH]; simpl; [constructor |].
  now apply insert_by_time_sorted.
Qed.

(** The sort is stable: it is the only sorted arrangement that keeps points
    of equal time in their order; here, on a list that is already sorted
    it changes nothing. *)
Lemma sort_by_time_sorted_id {A} (l : list (Q * A)) :
  StronglySorted by_time l -> sort_by_time l = l.
Proof.
  induction 1 as [| x l Hs IH Hall]; simpl; [reflexivity |].
  rewrite IH. destruct l as [| y l]; simpl; [reflexivity |].
  destruct (Qltb (fst y) (fst x)) eqn:Hlt; [| reflexivity].
  apply Qltb_true in Hlt. inversion Hall as [| ? ? Hxy _]; subst.
  unfold by_time in Hxy. exfalso. eapply Qlt_not_le; eauto.
Qed.

(** The warnings, read off the points. *)
Lemma beyond_duration_points (ps : list BreakpointValue) (D : Q) result original :
  resolve_points ps D = Ok (result, original) ->
  beyond_duration original D
  = map (fun p => {| warn_time := match time p with
                                  | TNum t => t
                                  | TStr _ => 0
                                  end;
                     warn_duration := D |})
        (List.filter (beyond D) ps).
Proof.
  revert result original.
  induction ps as [| p ps IH]; simpl; intros result original.
  - now intros [= <- <-].
  - destruct (get_absolute_time p D) as [t |] eqn:Ht; [| discriminate].
    destruct (resolve_points ps D) as [[res orig] |]; [| discriminate].
    intros [= <- <-]. specialize (IH res orig eq_refl).
    unfold beyond at 1. unfold get_absolute_time in Ht. simpl.
    destruct (time p) as [x | s] eqn:Htime.
    + injection Ht as <-.
      destruct (Qltb D x); simpl; rewrite ?Htime; now rewrite IH.
    + exact IH.
Qed.

End BreakpointFacts.

(** Where every time is a number (a time that is not a number, NaN, is
    outside the model, and [list.sort] does not order such times):
    [to_absolute_times] resolves every point (a percentage [P] to
    [D * P / 100], a number of seconds to itself), keeps every value, and
    returns the resolved points sorted ascending by time, whatever the order
    of insertion; it raises only when [float] does. *)
Theorem to_absolute_times_resolves_and_sorts `{PyBuiltins}
  (bp : Breakpoint) (D : Q) :
  match to_absolute_times bp D with
  | Ok (result, _) =>
      exists resolved,
        Forall2 (fun p r => resolves_to D (time p) (fst r) /\ snd r = value p)
                (points bp) resolved
        /\ Permutation resolved result
        /\ result = sort_by_time resolved
        /\ StronglySorted by_time result
  | Err _ => Exists (fun p => unparsable (time p)) (points bp)
  end.
Proof.
  unfold to_absolute_times.
  destruct (resolve_points (points bp) D) as [[result original] | e] eqn:Hr.
  - exists result. apply resolve_points_ok in Hr as [Hall _].
    repeat split.
    + eapply Forall2_impl; [exact Hall |].
      intros p r [Ht Hv]. split; [now apply get_absolute_time_ok | exact Hv].
    + apply sort_by_time_perm.
    + apply sort_by_time_sorted.
  - eapply resolve_points_err; eauto.
Qed.

(** Scenario A and Scenario B of the specification: the same curve, in two
    orders of insertion, resolves to the same sequence. *)
Example scenario_A_B :
  let a := {| time := TStr "0%"; value := 5 |} in
  let b := {| time := TStr "50%"; value := 10 |} in
  let c := {| time := TStr "99%"; value := 2 |} in
  reduced (to_absolute_times {| points := [a; b; c]; bp_name := None |} 2)
  = Some ([(0, 5); (1, 10); (99 # 50, 2)]%Q, [])
  /\ reduced (to_absolute_times {| points := [c; a; b]; bp_name := None |} 2)
     = Some ([(0, 5); (1, 10); (99 # 50, 2)]%Q, []).
Proof. split; vm_compute; reflexivity. Qed.

(** C4. Every point given as a number of seconds beyond the duration is kept
    in the output and gives exactly one warning, which names that time and
    the duration; no other point gives one, so a curve of percentages gives
    none. *)
Theorem to_absolute_times_warnings `{PyBuiltins} (bp : Breakpoint) (D : Q) :
  match to_absolute_times bp D with
  | Ok (result, ws) =>
      ws = map (fun p => {| warn_time := match time p with
                                         | TNum t => t
                                         | TStr _ => 0
                                         end;
                            warn_duration := D |})
               (List.filter (beyond D) (points bp))
      /\ Forall (fun p => exists t, time p = TNum t /\ (D < t)%Q
                                    /\ In (t, value p) result)
                (List.filter (beyond D) (points bp))
      /\ length result = length (points bp)
      /\ Forall (fun p => is_percentage p = true -> beyond D p = false)
                (points bp)
  | Err _ => True
  end.
Proof.
  unfold to_absolute_times.
  destruct (resolve_points (points bp) D) as [[result original] | e] eqn:Hr;
    [| exact I].
  pose proof (beyond_duration_points _ _ _ _ Hr) as Hws.
  apply resolve_points_ok in Hr as [Hall _].
  split; [exact Hws |]. split; [| split].
  - apply List.Forall_forall. intros p Hp.
    apply List.filter_In in Hp as [Hin Hb].
    unfold beyond in Hb. destruct (time p) as [t | s] eqn:Htime; [| discriminate].
    exists t. split; [reflexivity |]. split; [now apply Qltb_true |].
    apply (Permutation_in _ (sort_by_time_perm result)).
    clear Hws. induction Hall as [| q r ps rs [Hq Hv] Hall IH].
    + destruct Hin.
    + destruct Hin as [-> | Hin].
      * left. rewrite (get_absolute_time_number _ _ _ Htime) in Hq.
        injection Hq as Hq. destruct r as [r1 r2]. simpl in *. congruence.
      * right. now apply IH.
  - rewrite <- (Permutation_length (sort_by_time_perm result)).
    symmetry. eapply Forall2_length; eauto.
  - apply List.Forall_forall. intros p _. unfold is_percentage, beyond.
    destruct (time p); [discriminate | reflexivity].
Qed.

(** The case of [test_beyond_duration_warning]: one warning, four points. *)
Example warning_beyond_duration :
  let bp := {| points := [ {| time := TNum 0; value := 0 |};
                           {| time := TNum (1 # 2); value := 1 |};
                           {| time := TStr "50%"; value := 1 # 2 |};
                           {| time := TStr "100%"; value := 0 |} ];
               bp_name := None |} in
  reduced (to_absolute_times bp (3 # 10))
  = Some ([(0, 0); (3 # 20, 1 # 2); (3 # 10, 0); (1 # 2, 1)]%Q,
          [{| warn_time := 1 # 2; warn_duration := 3 # 10 |}]).
Proof. vm_compute. reflexivity. Qed.

(** ** The command builder *)

(** C5. The argument list is the subcommand if there is one, the mode if
    there is one, the input paths (all of them, in order, for a multi-input
    operation; the first one otherwise), the output path, and the parameters
    in the order they were declared. *)
Theorem get_command_args_grammar `{PyBuiltins} (self : CDPOperation)
  (input_files : list AudioFile) (output_file : AudioFile) :
  multi_input self = true \/ input_files <> [] ->
  get_command_args self input_files output_file
  = Ok ((match subcommand self with
         | Some s => if bool_decide (s = "") then [] else [s]
         | None => []
         end)
        ++ (match mode self with
            | Some m => [str_mode m]
            | None => []
            end)
        ++ (if multi_input self
            then map (fun f => Pathlib.to_str (path f)) input_files
            else map (fun f => Pathlib.to_str (path f)) (take 1 input_files))
        ++ [Pathlib.to_str (path output_file)]
        ++ map str_param (params self)).
Proof.
  intros Hin. unfold get_command_args.
  destruct (subcommand self) as [s |]; [destruct (bool_decide (s = "")) |];
    destruct (mode self) as [m |];
    destruct (multi_input self);
    destruct input_files as [| f fs];
    try (destruct Hin as [Hin | Hin]; [discriminate Hin | now contradict Hin]);
    simpl; rewrite <- ?app_assoc; reflexivity.
Qed.

(** Scenario D, through the theorem. *)
Lemma get_command_args_grammar_witness :
  let f p := {| path := [p]; format := ANA; channels := MONO;
                channel_index := None |} in
  get_command_args Demo.combine_interleave [f "a.ana"; f "b.ana"; f "c.ana"]
    (f "out.ana")
  = Ok ["interleave"; "a.ana"; "b.ana"; "c.ana"; "out.ana"; "1"].
Proof.
  intros f.
  exact (get_command_args_grammar Demo.combine_interleave
           [f "a.ana"; f "b.ana"; f "c.ana"] (f "out.ana")
           (or_introl eq_refl)).
Defined.

(** Scenario C. *)
Example scenario_C :
  let f p := {| path := [p]; format := ANA; channels := MONO;
                channel_index := None |} in
  get_command_args Demo.blur [f "input.ana"] (f "output.ana")
  = Ok ["blur"; "input.ana"; "output.ana"; "2.0"].
Proof. reflexivity. Qed.

(** Without an input, a single-input operation raises [IndexError]. *)
Example get_command_args_no_input :
  get_command_args Demo.blur []
    {| path := ["o.ana"]; format := ANA; channels := MONO;
       channel_index := None |}
  = Err IndexError.
Proof. reflexivity. Qed.

(** ** The monad *)

Section Relations.
Context (R : State -> State -> Prop) `{!PreOrder R}.

Lemma rel_ret {A} (a : A) : run_rel R (ret a).
Proof. intros st. simpl. reflexivity. Qed.

Lemma rel_raise {A} (e : Exn) : run_rel R (raise (A := A) e).
Proof. intros st. simpl. reflexivity. Qed.

Lemma rel_lift {A} (r : Result A) : run_rel R (lift r).
Proof. intros st. simpl. reflexivity. Qed.

Lemma rel_bind {A B} (m : M A) (k : A -> M B) :
  run_rel R m -> (forall a, run_rel R (k a)) -> run_rel R (bind m k).
Proof.
  intros Hm Hk st. unfold bind. specialize (Hm st).
  destruct (m st) as [[a | e] st1]; simpl in *; [| exact Hm].
  etransitivity; [exact Hm | apply Hk].
Qed.

Lemma rel_try_except {A} (m : M A) (e : Exn) :
  run_rel R m -> run_rel R (try_except m e).
Proof.
  intros Hm st. unfold try_except. specialize (Hm st).
  destruct (m st) as [[a | e'] st1]; exact Hm.
Qed.

Lemma rel_finally {A} (m : M A) (c : M unit) :
  run_rel R m -> run_rel R c -> run_rel R (finally m c).
Proof.
  intros Hm Hc st. unfold finally. specialize (Hm st).
  destruct (m st) as [r st1]. specialize (Hc st1).
  destruct (c st1) as [[u | e] st2]; simpl in *; etransitivity; eauto.
Qed.

Lemma rel_exists (p : Path) : run_rel R (exists_ p).
Proof. intros st. simpl. reflexivity. Qed.

Lemma rel_deref (r : nat) : run_rel R (deref r).
Proof. intros st. unfold deref. destruct (heap st !! r); simpl; reflexivity. Qed.


End Relations.

#[global] Instance trace_ext_preorder (P : Event -> Prop) : PreOrder (trace_ext P).
Proof.
  split.
  - intros st. exists []. split; [now rewrite app_nil_r | constructor].
  - intros a b c [t1 [H1 F1]] [t2 [H2 F2]]. exists (t1 ++ t2). split.
    + rewrite H2, H1. now rewrite app_assoc.
    + apply Forall_app. now split.
Qed.

#[global] Instance heap_ext_preorder : PreOrder heap_ext.
Proof. split; unfold heap_ext; [intros st; auto | intros a b c; auto]. Qed.

#[global] Instance not_made_preorder (q : Path) : PreOrder (not_made q).
Proof. split; unfold not_made; [intros st; auto | intros a b c; auto]. Qed.

#[global] Instance untouched_preorder (q : Path) : PreOrder (untouched q).
Proof.
  split; unfold untouched; [intros st; reflexivity |].
  intros a b c Hab Hbc. now rewrite Hbc.
Qed.


Lemma untouched_not_made (q : Path) {A} (m : M A) :
  run_rel (untouched q) m -> run_rel (not_made q) m.
Proof. intros Hm st Hq. now apply (Hm st). Qed.

(** Steps of a proof of [run_rel]: follow the structure of the computation. *)
Ltac rel_step :=
  match goal with
  | |- run_rel ?R (ret _) => apply (rel_ret R)
  | |- run_rel ?R (raise _) => apply (rel_raise R)
  | |- run_rel ?R (lift _) => apply (rel_lift R)
  | |- run_rel ?R (exists_ _) => apply (rel_exists R)
  | |- run_rel ?R (deref _) => apply (rel_deref R)
  | |- run_rel ?R (try_except _ _) => apply (rel_try_except R)
  | |- run_rel ?R (bind _ _) => apply (rel_bind R); [| intros ?]
  | |- run_rel _ (if ?b then _ else _) => destruct b
  | |- run_rel _ (match ?x with _ => _ end) => destruct x
  end.

(** *** The primitives *)

Lemma trace_ext_same (P : Event -> Prop) (st st' : State) :
  trace st' = trace st -> trace_ext P st st'.
Proof.
  intros Heq. exists []. split; [now rewrite app_nil_r | constructor].
Qed.

Lemma trace_log (P : Event -> Prop) (ev : Event) :
  P ev -> run_rel (trace_ext P) (log ev).
Proof. intros Hev st. exists [ev]. split; [reflexivity | now constructor]. Qed.

Lemma trace_set_files (P : Event -> Prop) f : run_rel (trace_ext P) (set_files f).
Proof. intros st. now apply trace_ext_same. Qed.

Lemma trace_created (P : Event -> Prop) p : run_rel (trace_ext P) (created p).
Proof. apply trace_set_files. Qed.

Lemma trace_warn (P : Event -> Prop) ws : run_rel (trace_ext P) (warn ws).
Proof. intros st. now apply trace_ext_same. Qed.

Lemma trace_alloc (P : Event -> Prop) op : run_rel (trace_ext P) (alloc op).
Proof. intros st. now apply trace_ext_same. Qed.

Lemma trace_sh_call `{Toolset} (P : Event -> Prop) c args :
  P (Call c args) -> run_rel (trace_ext P) (sh_call c args).
Proof.
  intros Hev. unfold sh_call. apply (rel_bind _); [now apply trace_log | intros _].
  intros st. destruct (sh _ _ _); simpl; reflexivity.
Qed.

Lemma trace_copy (P : Event -> Prop) src dst :
  P (Copy src dst) -> run_rel (trace_ext P) (copy src dst).
Proof.
  intros Hev. unfold copy. apply (rel_bind _); [now apply trace_log | intros _].
  repeat rel_step; apply trace_created.
Qed.

Lemma trace_next_temp_file (P : Event -> Prop) self base ext :
  run_rel (trace_ext P) (_next_temp_file self base ext).
Proof. intros st. now apply trace_ext_same. Qed.

#[global] Instance step_in_preorder (T : Path) : PreOrder (step_in T).
Proof.
  split.
  - intros st. split; [reflexivity | intros q _; reflexivity].
  - intros a b c [H1 F1] [H2 F2]. split; [etransitivity; eauto |].
    intros q Hq. etransitivity; [apply F1 | apply F2]; exact Hq.
Qed.

Lemma step_in_same (T : Path) (st st' : State) :
  heap st' = heap st -> files st' = files st -> step_in T st st'.
Proof.
  intros Hh Hf. split.
  - intros r op. now rewrite Hh.
  - intros q _. unfold untouched. now rewrite Hf.
Qed.

Lemma step_in_log T ev : run_rel (step_in T) (log ev).
Proof. intros st. now apply step_in_same. Qed.

Lemma step_in_warn T ws : run_rel (step_in T) (warn ws).
Proof. intros st. now apply step_in_same. Qed.

Lemma step_in_alloc T op : run_rel (step_in T) (alloc op).
Proof.
  intros st. split; simpl.
  - intros r o Hr. now apply lookup_app_l_Some.
  - intros q _. unfold untouched. simpl. tauto.
Qed.

Lemma step_in_created T p : T `prefix_of` p -> run_rel (step_in T) (created p).
Proof.
  intros HT st. split; [intros r op; simpl; tauto |].
  intros q Hq. unfold untouched. simpl. rewrite elem_of_union, elem_of_singleton.
  split; [| tauto]. intros [-> | Hin]; [contradiction | exact Hin].
Qed.

Lemma step_in_rmtree T : run_rel (step_in T) (rmtree T).
Proof.
  unfold rmtree. apply (rel_bind _); [apply step_in_log | intros _].
  intros st. split; [intros r op; simpl; tauto |].
  intros q Hq. unfold untouched. simpl. rewrite elem_of_filter. tauto.
Qed.

Lemma step_in_sh_call `{Toolset} T c args : run_rel (step_in T) (sh_call c args).
Proof.
  unfold sh_call. apply (rel_bind _); [apply step_in_log | intros _].
  intros st. destruct (sh _ _ _); simpl; reflexivity.
Qed.

Lemma step_in_copy T src dst :
  T `prefix_of` dst -> run_rel (step_in T) (copy src dst).
Proof.
  intros HT. unfold copy. apply (rel_bind _); [apply step_in_log | intros _].
  repeat rel_step. now apply step_in_created.
Qed.

Lemma step_in_write_text T p content :
  T `prefix_of` p -> run_rel (step_in T) (write_text p content).
Proof.
  intros HT. unfold write_text.
  apply (rel_bind _); [apply step_in_log | intros _]. now apply step_in_created.
Qed.

Lemma prefix_joinpath (T : Path) (name : string) :
  T `prefix_of` Pathlib.joinpath T name.
Proof. now exists [name]. Qed.

Lemma parent_joinpath (T : Path) (name : string) :
  Pathlib.parent (Pathlib.joinpath T name) = T.
Proof. unfold Pathlib.parent, Pathlib.joinpath. apply removelast_last. Qed.

(** The name of a scratch file, when its base and its extension are names of
    one component, is one too. *)
Lemma scratch_name_plain (base ext : string) (c : nat) :
  Pathlib.plain base = true -> Pathlib.plain ext = true ->
  let n := base +:+ "_" +:+ Str.zero_pad 4 c +:+ "." +:+ ext in
  Pathlib.plain n = true /\ n <> "" /\ n <> ".".
Proof.
  intros Hb He n. subst n. split; [| split].
  - rewrite !plain_app, Hb, He, (numeral_plain _ (numeral_zero_pad 4 c)).
    reflexivity.
  - destruct base; discriminate.
  - destruct base as [| a [| b base]]; discriminate.
Qed.

Lemma truediv_scratch_name (T : Path) (base ext : string) (c : nat) :
  Pathlib.plain base = true -> Pathlib.plain ext = true ->
  Pathlib.truediv T (base +:+ "_" +:+ Str.zero_pad 4 c +:+ "." +:+ ext)
  = T ++ [base +:+ "_" +:+ Str.zero_pad 4 c +:+ "." +:+ ext].
Proof.
  intros Hb He. destruct (scratch_name_plain base ext c Hb He) as (Hp & Hne & Hdot).
  now apply truediv_plain.
Qed.

Lemma plain_format_value (fmt : FileFormat) :
  Pathlib.plain (format_value fmt) = true.
Proof. now destruct fmt. Qed.

Lemma plain_names_ext (refs : list nat) (st st' : State) :
  heap_ext st st' -> plain_names refs st = true -> plain_names refs st' = true.
Proof.
  unfold plain_names. intros Hext Hall. rewrite forallb_forall in *.
  intros r Hr. specialize (Hall r Hr).
  destruct (heap st !! r) as [op |] eqn:Hop; [| discriminate].
  now rewrite (Hext r op Hop).
Qed.


#[global] Instance guarded_preorder (refs : list nat) (T : Path) :
  PreOrder (guarded refs T).
Proof.
  split.
  - intros st _. reflexivity.
  - intros a b c Hab Hbc Ha. specialize (Hab Ha).
    etransitivity; [exact Hab | apply Hbc].
    destruct Hab as [Hext _]. now apply (plain_names_ext refs a b).
Qed.



Lemma step_in_heap (T : Path) {A} (m : M A) :
  run_rel (step_in T) m -> run_rel heap_ext m.
Proof. intros Hm st. apply Hm. Qed.

Section ExecutorSteps.
Context `{PyBuiltins} `{Toolset}.
Variable self : PipelineExecutor.

Local Abbreviation T := (temp_dir self).

(** A new scratch file name is in the scratch area, when its base and its
    extension are names of one component. *)
Lemma step_in_next_temp_file {B} base ext (k : Path -> M B) :
  Pathlib.plain base = true -> Pathlib.plain ext = true ->
  (forall p, T `prefix_of` p -> run_rel (step_in T) (k p)) ->
  run_rel (step_in T) (bind (_next_temp_file self base ext) k).
Proof.
  intros Hb He Hk st. unfold bind, _next_temp_file.
  rewrite (truediv_scratch_name T base ext _ Hb He).
  etransitivity; [| apply Hk; now eexists].
  now apply step_in_same.
Qed.


Lemma heap_next_temp_file base ext :
  run_rel heap_ext (_next_temp_file self base ext).
Proof. intros st r op. simpl. auto. Qed.


Lemma step_in_get_duration f : run_rel (step_in T) (get_duration self f).
Proof.
  unfold get_duration. repeat rel_step; apply step_in_sh_call.
Qed.


Lemma heap_write_breakpoint_file bp d base :
  run_rel heap_ext (write_breakpoint_file self bp d base).
Proof.
  unfold write_breakpoint_file. rel_step; [apply heap_next_temp_file |].
  unfold write_to_file. repeat rel_step.
  - apply (step_in_heap []), step_in_warn.
  - apply (step_in_heap a), step_in_write_text. reflexivity.
Qed.

Lemma step_in_split_stereo f : run_rel (step_in T) (split_stereo self f).
Proof.
  unfold split_stereo. repeat rel_step.
  - apply step_in_copy, prefix_joinpath.
  - apply step_in_sh_call.
  - apply step_in_created. simpl. rewrite parent_joinpath. apply prefix_joinpath.
  - apply step_in_created. simpl. rewrite parent_joinpath. apply prefix_joinpath.
Qed.

Lemma step_in_convert_to_ana f : run_rel (step_in T) (convert_to_ana self f).
Proof.
  unfold convert_to_ana. destruct (negb (is_wav f)); [rel_step |].
  apply step_in_next_temp_file; [apply plain_stem | reflexivity |].
  intros p Hp. repeat rel_step.
  - apply step_in_sh_call.
  - now apply step_in_created.
Qed.

Lemma step_in_convert_to_wav f : run_rel (step_in T) (convert_to_wav self f).
Proof.
  unfold convert_to_wav. destruct (negb (is_ana f)); [rel_step |].
  apply step_in_next_temp_file; [apply plain_stem | reflexivity |].
  intros p Hp. repeat rel_step.
  - apply step_in_sh_call.
  - now apply step_in_created.
Qed.

Lemma step_in_prepare_channels fs ch :
  run_rel (step_in T) (prepare_channels self fs ch).
Proof.
  induction fs as [| f fs IH]; simpl; [rel_step |].
  apply (rel_bind _); [| intros here; apply (rel_bind _); [exact IH | intros ?; rel_step]].
  repeat rel_step. apply step_in_split_stereo.
Qed.

Lemma step_in_prepare_formats fs fmt :
  run_rel (step_in T) (prepare_formats self fs fmt).
Proof.
  induction fs as [| f fs IH]; simpl; [rel_step |].
  apply (rel_bind _); [| intros here; apply (rel_bind _); [exact IH | intros ?; rel_step]].
  repeat rel_step; [apply step_in_convert_to_ana | apply step_in_convert_to_wav].
Qed.

Lemma step_in_prepare_inputs fs fmt ch :
  run_rel (step_in T) (prepare_inputs self fs fmt ch).
Proof.
  unfold prepare_inputs. apply (rel_bind _).
  - apply step_in_prepare_channels.
  - intros ?. apply step_in_prepare_formats.
Qed.

Lemma heap_process_params r i ps d :
  run_rel heap_ext (process_params self r i ps d).
Proof.
  revert i. induction ps as [| p ps IH]; intros i; simpl; [rel_step |].
  apply (rel_bind _); [| intros here; apply (rel_bind _); [apply IH | intros ?; rel_step]].
  destruct p; repeat rel_step. apply heap_write_breakpoint_file.
Qed.

Lemma heap_process_breakpoints r fs :
  run_rel heap_ext (_process_breakpoints self r fs).
Proof.
  unfold _process_breakpoints. repeat rel_step.
  - apply (step_in_heap T), step_in_get_duration.
  - apply heap_process_params.
  - apply (step_in_heap T), step_in_alloc.
Qed.

Lemma step_in_execute_cdp_command prog args :
  run_rel (step_in T) (_execute_cdp_command self prog args).
Proof. unfold _execute_cdp_command. rel_step. apply step_in_sh_call. Qed.

Lemma heap_execute_group r base k fs :
  run_rel heap_ext (execute_group self r base k fs).
Proof.
  unfold execute_group. repeat rel_step.
  - apply heap_next_temp_file.
  - apply heap_process_breakpoints.
  - apply (step_in_heap T), step_in_execute_cdp_command.
  - apply (step_in_heap a0), step_in_created. reflexivity.
Qed.

Section Guarded.
Variable refs : list nat.








End Guarded.

Lemma step_in_cleanup :
  (forall d, _temp_dir_obj self = Some d -> d = T) ->
  run_rel (step_in T) (cleanup self).
Proof.
  intros Hobj. unfold cleanup. destruct (_temp_dir_obj self) as [d |] eqn:Hd.
  - rewrite (Hobj d eq_refl). repeat rel_step. apply step_in_rmtree.
  - repeat rel_step. apply step_in_rmtree.
Qed.



End ExecutorSteps.

(** ** The stages of a run *)

Section RunFacts.
Context `{PyBuiltins} `{Toolset}.

Lemma new_executor_ok (d : option Path) (keep verb : bool) (st : State) :
  exists executor stE,
    new_executor d keep verb st = (Ok executor, stE)
    /\ keep_temp executor = keep
    /\ temp_dir executor = match d with Some d => d | None => mkdtemp end
    /\ (forall o, _temp_dir_obj executor = Some o -> o = temp_dir executor)
    /\ files stE = files st
    /\ heap stE = heap st
    /\ trace stE = trace st ++ match d with Some d => [Mkdir d] | None => [] end.
Proof.
  destruct d as [d |]; unfold new_executor, bind; simpl;
    eexists; eexists; (split; [reflexivity |]); simpl.
  - repeat split; try reflexivity. intros o Ho. discriminate.
  - repeat split; try reflexivity.
    + intros o Ho. now injection Ho as <-.
    + now rewrite app_nil_r.
Qed.

Lemma setup_ok (output_path : Path) (opts : RunOptions) (st : State) :
  exists executor stE,
    setup output_path opts st = (Ok executor, stE)
    /\ keep_temp executor = opt_keep_temp opts
    /\ temp_dir executor = scratch_dir opts
    /\ (forall o, _temp_dir_obj executor = Some o -> o = temp_dir executor)
    /\ heap stE = heap st
    /\ files stE =
         (if opt_overwrite opts && bool_decide (output_path ∈ files st)
          then files st ∖ {[output_path]} else files st)
    /\ trace stE =
         trace st
         ++ (if opt_overwrite opts && bool_decide (output_path ∈ files st)
             then [Unlink output_path] else [])
         ++ match opt_temp_dir opts with Some d => [Mkdir d] | None => [] end.
Proof.
  unfold setup, bind at 1, exists_.
  destruct (opt_overwrite opts && bool_decide (output_path ∈ files st)) eqn:Hov.
  - unfold bind, unlink, bind, log, set_files.
    match goal with
    | |- context [new_executor ?d ?k ?v ?s] =>
        destruct (new_executor_ok d k v s)
          as (executor & stE & -> & Hk & Ht & Ho & Hf & Hh & Htr)
    end.
    exists executor, stE. simpl in *. rewrite <- app_assoc in Htr.
    repeat split; assumption || reflexivity.
  - unfold bind, ret.
    match goal with
    | |- context [new_executor ?d ?k ?v ?s] =>
        destruct (new_executor_ok d k v s)
          as (executor & stE & -> & Hk & Ht & Ho & Hf & Hh & Htr)
    end.
    exists executor, stE. repeat split; assumption || reflexivity.
Qed.

(** [Pipeline.run] is the set-up, then the body and the release of the
    executor. *)
Lemma run_stages (operations : list nat) (input_files : list Path)
  (output_path : Path) (opts : RunOptions) (st : State) :
  run operations input_files output_path opts st =
  bind (setup output_path opts)
       (fun executor =>
          finally (run_body executor operations input_files output_path opts)
                  (cleanup executor)) st.
Proof.
  unfold run, setup, bind. simpl.
  destruct (opt_overwrite opts && bool_decide (output_path ∈ files st)); simpl.
  - destruct (new_executor _ _ _ _) as [[e | x] s]; reflexivity.
  - destruct (new_executor _ _ _ _) as [[e | x] s]; reflexivity.
Qed.

(** What the release of the executor does. *)
Lemma cleanup_spec (self : PipelineExecutor) (st : State) :
  (forall o, _temp_dir_obj self = Some o -> o = temp_dir self) ->
  cleanup self st =
  (Ok tt,
   if keep_temp self then st
   else {| _counter := _counter st;
           files := filter (fun p => ~ temp_dir self `prefix_of` p) (files st);
           heap := heap st;
           trace := trace st ++ [Rmtree (temp_dir self)];
           warnings := warnings st |}).
Proof.
  intros Ho. unfold cleanup.
  destruct (_temp_dir_obj self) as [o |] eqn:Hobj.
  - rewrite (Ho o eq_refl). destruct (keep_temp self); reflexivity.
  - destruct (keep_temp self); reflexivity.
Qed.

End RunFacts.

(** ** Release of the scratch area *)

(** The exit of the [with] statement: a run sets up an executor and runs the
    body of the [with] statement; whatever the body does, returning or
    raising, the run ends with the result of the body, and [cleanup] leaves
    the scratch area as it is exactly when [keep_temp] was asked for:
    otherwise one removal of the scratch directory follows, after which no
    file under it exists, the files outside it being those the body left. *)
Theorem scratch_released_unless_kept `{PyBuiltins} `{Toolset}
  (operations : list nat) (input_files : list Path) (output_path : Path)
  (opts : RunOptions) (st : State) :
  exists executor stE,
    setup output_path opts st = (Ok executor, stE)
    /\ temp_dir executor = scratch_dir opts
    /\ let '(body_result, st_body) :=
         run_body executor operations input_files output_path opts stE in
       let '(result, st') :=
         run operations input_files output_path opts st in
       result = body_result
       /\ if opt_keep_temp opts then st' = st_body
          else
            trace st' = trace st_body ++ [Rmtree (scratch_dir opts)]
            /\ forall q,
                 q ∈ files st'
                 <-> q ∈ files st_body /\ ~ scratch_dir opts `prefix_of` q.
Proof.
  destruct (setup_ok output_path opts st)
    as (executor & stE & Hsetup & Hk & Ht & Ho & _).
  exists executor, stE. split; [exact Hsetup |]. split; [exact Ht |].
  rewrite run_stages. unfold bind at 1. rewrite Hsetup. unfold finally.
  destruct (run_body _ _ _ _ _ _) as [rb stb].
  rewrite (cleanup_spec _ _ Ho), Hk, Ht.
  split; [reflexivity |].
  destruct (opt_keep_temp opts); [reflexivity |]. simpl.
  split; [reflexivity |]. intros q. rewrite elem_of_filter. tauto.
Qed.

(** A run that fails at the first conversion, after the split has put
    three files in the scratch area: at the exit of the [with] statement
    they are removed, unless [keep_temp] was asked for. *)
Example scratch_after_failure :
  let st := Demo.empty_state {[ ["in.wav"] ]} [Demo.blur] in
  let run_with keep :=
    @run _ (Demo.toolset_without "pvoc" "2" "2.0") [0%nat] [["in.wav"]]
      ["out.wav"]
      {| opt_temp_dir := None; opt_keep_temp := keep;
         opt_output_channels := None; opt_output_format := None;
         opt_verbose := false; opt_overwrite := false |} st in
  (fst (run_with false), elements (files (snd (run_with false))))
  = (Err (ErrorReturnCode "pvoc"
            ["anal"; "1"; "tmp/tmpdir/in_c1.wav"; "tmp/tmpdir/in_c1_0001.ana"]),
     [["in.wav"]])
  /\ fst (run_with true) = fst (run_with false)
  /\ length (elements (files (snd (run_with true)))) = 4%nat.
Proof. vm_compute. repeat split. Qed.

(** C9, where the code departs from it. When no directory was given, the
    scratch directory is that of a [TemporaryDirectory], and once the call
    is over it is removed whether [keep_temp] was asked for or not: by
    [cleanup] at the exit of the [with] statement, or else by the finalizer
    when the executor is collected. *)
Lemma scratch_collected_though_kept `{PyBuiltins} `{Toolset}
  (operations : list nat) (input_files : list Path) (output_path : Path)
  (opts : RunOptions) (st : State) :
  opt_temp_dir opts = None ->
  let '(r, st') :=
    run_and_collect operations input_files output_path opts st in
  forall q, scratch_dir opts `prefix_of` q -> q ∉ files st'.
Proof.
  intros Hnone. unfold run_and_collect, scratch_dir. rewrite Hnone.
  unfold bind at 1, exists_. unfold bind at 1.
  destruct ((if opt_overwrite opts && bool_decide (output_path ∈ files st)
             then unlink output_path else ret tt) st) as [[u | e] s0] eqn:Hun.
  2: { destruct (_ && _); [unfold unlink, bind, log, set_files in Hun |
                           unfold ret in Hun]; discriminate. }
  unfold bind at 1, new_executor, bind at 1, ret. simpl.
  unfold finally.
  destruct (run_body _ _ _ _ _ _) as [rb stb].
  unfold cleanup, collected. simpl.
  destruct (opt_keep_temp opts); simpl;
    intros q Hq Hin; apply elem_of_filter in Hin as [Hnot _]; contradiction.
Qed.

(** A run of one blur that is asked to keep its scratch area, and is given
    no directory: at the exit of the [with] statement the three scratch
    files are there; once the executor is collected only the output and the
    input are left. *)
Example kept_scratch_is_collected :
  let st := Demo.empty_state {[ ["in.wav"] ]} [Demo.blur] in
  let '(r, st') :=
    @run _ (Demo.toolset "1" "2.0") [0%nat] [["in.wav"]] ["out.wav"]
      Demo.kept_options st in
  let '(r2, st2) :=
    @run_and_collect _ (Demo.toolset "1" "2.0") [0%nat] [["in.wav"]]
      ["out.wav"] Demo.kept_options st in
  r2 = r
  /\ r = Ok {| path := ["out.wav"]; format := WAV; channels := MONO;
               channel_index := None |}
  /\ length (elements (files st')) = 5%nat
  /\ elements (files st2) = [["out.wav"]; ["in.wav"]]
  /\ trace st2 = trace st' ++ [Rmtree ["tmp"; "tmpdir"]].
Proof. vm_compute. repeat split. Qed.

(** ** Probing the inputs *)

Section ProbeFacts.
Context `{PyBuiltins} `{Toolset}.



End ProbeFacts.



(** ** Negotiation of the inputs *)

Lemma bind_Ok {A B} (m : M A) (k : A -> M B) (st st' : State) (b : B) :
  bind m k st = (Ok b, st') ->
  exists a st1, m st = (Ok a, st1) /\ k a st1 = (Ok b, st').
Proof.
  unfold bind. destruct (m st) as [[a | e] st1]; [eauto | discriminate].
Qed.

Lemma bind_Ok_intro {A B} (m : M A) (k : A -> M B) (st st1 : State) (a : A) :
  m st = (Ok a, st1) -> bind m k st = k a st1.
Proof. unfold bind. now intros ->. Qed.


Lemma ret_Ok {A} (a b : A) (st st' : State) :
  ret a st = (Ok b, st') -> b = a /\ st' = st.
Proof. unfold ret. intros Heq. now injection Heq as <- <-. Qed.

Section Outcomes.
Context `{Toolset}.

Lemma deref_Some r op st : heap st !! r = Some op -> deref r st = (Ok op, st).
Proof. unfold deref. now intros ->. Qed.

Lemma deref_Ok r op st st' :
  deref r st = (Ok op, st') -> heap st !! r = Some op /\ st' = st.
Proof.
  unfold deref. destruct (heap st !! r); [| discriminate].
  intros Heq. now injection Heq as <- <-.
Qed.

Lemma sh_call_Ok c args st out st' :
  sh_call c args st = (Ok out, st') ->
  heap st' = heap st /\ files st' = files st
  /\ trace st' = trace st ++ [Call c args]
  /\ sh (files st) (command_name c) args = Some out.
Proof.
  unfold sh_call, bind, log. simpl.
  destruct (sh (files st) (command_name c) args); [| discriminate].
  intros Heq. injection Heq as <- <-. now repeat split.
Qed.

Lemma try_except_Ok {A} (m : M A) e st a st' :
  try_except m e st = (Ok a, st') -> m st = (Ok a, st').
Proof.
  unfold try_except. destruct (m st) as [[x | x] s]; [| discriminate].
  now intros Heq.
Qed.

End Outcomes.

Section NegotiationFacts.
Context `{PyBuiltins} `{Toolset}.
Variable self : PipelineExecutor.

Lemma trace_split_stereo f :
  run_rel (trace_ext is_split_event) (split_stereo self f).
Proof.
  unfold split_stereo. repeat rel_step.
  - now apply trace_copy.
  - now apply trace_sh_call.
  - apply trace_created.
  - apply trace_created.
Qed.

Lemma trace_prepare_channels fs ch :
  run_rel (trace_ext is_split_event) (prepare_channels self fs ch).
Proof.
  induction fs as [| f fs IH]; simpl; [rel_step |].
  apply (rel_bind _); [| intros here; apply (rel_bind _); [exact IH | intros ?; rel_step]].
  repeat rel_step. apply trace_split_stereo.
Qed.

Lemma trace_convert_to_ana f :
  run_rel (trace_ext is_conversion_event) (convert_to_ana self f).
Proof.
  unfold convert_to_ana. repeat rel_step.
  - apply trace_next_temp_file.
  - now apply trace_sh_call.
  - apply trace_created.
Qed.

Lemma trace_convert_to_wav f :
  run_rel (trace_ext is_conversion_event) (convert_to_wav self f).
Proof.
  unfold convert_to_wav. repeat rel_step.
  - apply trace_next_temp_file.
  - now apply trace_sh_call.
  - apply trace_created.
Qed.

Lemma trace_prepare_formats fs fmt :
  run_rel (trace_ext is_conversion_event) (prepare_formats self fs fmt).
Proof.
  induction fs as [| f fs IH]; simpl; [rel_step |].
  apply (rel_bind _); [| intros here; apply (rel_bind _); [exact IH | intros ?; rel_step]].
  repeat rel_step; [apply trace_convert_to_ana | apply trace_convert_to_wav].
Qed.

Lemma split_stereo_Ok f st l st' :
  split_stereo self f st = (Ok l, st') -> l = split_shape self f.
Proof.
  unfold split_stereo, split_shape. destruct (is_stereo f); simpl.
  - intros Hrun.
    repeat (apply bind_Ok in Hrun; destruct Hrun as (? & ? & _ & Hrun)).
    now apply ret_Ok in Hrun.
  - intros Hrun. now apply ret_Ok in Hrun.
Qed.

Lemma prepare_channels_Ok fs ch st l st' :
  prepare_channels self fs ch st = (Ok l, st') ->
  l = match ch with
      | MONO => flat_map (split_shape self) fs
      | STEREO => fs
      end.
Proof.
  revert st l st'. induction fs as [| f fs IH]; intros st l st'; simpl.
  - intros Hrun. apply ret_Ok in Hrun as [-> _]. now destruct ch.
  - intros Hrun.
    apply bind_Ok in Hrun as (here & st1 & Hhere & Hrun).
    apply bind_Ok in Hrun as (prepared & st2 & Hrest & Hrun).
    apply ret_Ok in Hrun as [-> _]. apply IH in Hrest as ->.
    destruct ch; simpl in Hhere.
    + f_equal. destruct (is_stereo f) eqn:Hst.
      * now apply split_stereo_Ok in Hhere.
      * apply ret_Ok in Hhere as [-> _]. unfold split_shape. now rewrite Hst.
    + destruct (is_mono f); [discriminate |].
      now apply ret_Ok in Hhere as [-> _].
Qed.

Lemma convert_to_ana_Ok f st c st' :
  convert_to_ana self f st = (Ok c, st') ->
  if is_wav f
  then format c = ANA /\ channels c = channels f
       /\ channel_index c = channel_index f
  else c = f.
Proof.
  unfold convert_to_ana. destruct (is_wav f); simpl.
  - intros Hrun.
    apply bind_Ok in Hrun as (p & ? & _ & Hrun).
    repeat (apply bind_Ok in Hrun; destruct Hrun as (? & ? & _ & Hrun)).
    apply ret_Ok in Hrun as [-> _]. now repeat split.
  - intros Hrun. now apply ret_Ok in Hrun.
Qed.

Lemma convert_to_wav_Ok f st c st' :
  convert_to_wav self f st = (Ok c, st') ->
  if is_ana f
  then format c = WAV /\ channels c = channels f
       /\ channel_index c = channel_index f
  else c = f.
Proof.
  unfold convert_to_wav. destruct (is_ana f); simpl.
  - intros Hrun.
    apply bind_Ok in Hrun as (p & ? & _ & Hrun).
    repeat (apply bind_Ok in Hrun; destruct Hrun as (? & ? & _ & Hrun)).
    apply ret_Ok in Hrun as [-> _]. now repeat split.
  - intros Hrun. now apply ret_Ok in Hrun.
Qed.

Lemma converted_from_refl fmt f : format f = fmt -> converted_from fmt f f.
Proof. intros Hf. now repeat split. Qed.

Lemma prepare_formats_Ok fs fmt st l st' :
  prepare_formats self fs fmt st = (Ok l, st') ->
  Forall2 (converted_from fmt) fs l.
Proof.
  revert st l st'. induction fs as [| f fs IH]; intros st l st'; simpl.
  - intros Hrun. apply ret_Ok in Hrun as [-> _]. constructor.
  - intros Hrun.
    apply bind_Ok in Hrun as (here & st1 & Hhere & Hrun).
    apply bind_Ok in Hrun as (converted & st2 & Hrest & Hrun).
    apply ret_Ok in Hrun as [-> _]. constructor; [| now apply IH in Hrest].
    clear Hrest IH.
    unfold is_wav, is_ana in *.
    destruct fmt, (format f) eqn:Hf; simpl in Hhere.
    + apply ret_Ok in Hhere as [-> _]. now apply converted_from_refl.
    + apply convert_to_wav_Ok in Hhere. unfold is_ana in Hhere.
      rewrite Hf in Hhere. simpl in Hhere.
      destruct Hhere as (? & ? & ?). repeat split; try assumption.
      intros Hw. congruence.
    + apply convert_to_ana_Ok in Hhere. unfold is_wav in Hhere.
      rewrite Hf in Hhere. simpl in Hhere.
      destruct Hhere as (? & ? & ?). repeat split; try assumption.
      intros Hw. congruence.
    + apply ret_Ok in Hhere as [-> _]. now apply converted_from_refl.
Qed.

End NegotiationFacts.

Section NegotiationSteps.
Context `{PyBuiltins} `{Toolset}.
Variable self : PipelineExecutor.

Lemma copy_Ok_trace src dst st u st' :
  copy src dst st = (Ok u, st') -> trace st' = trace st ++ [Copy src dst].
Proof.
  unfold copy, bind, log, exists_. simpl.
  destruct (negb _); [discriminate |].
  destruct (bool_decide (src = dst)); [discriminate |].
  unfold created, set_files. intros Heq. now injection Heq as _ <-.
Qed.

Lemma created_Ok p st u st' :
  created p st = (Ok u, st') -> trace st' = trace st.
Proof. unfold created, set_files. intros Heq. now injection Heq as _ <-. Qed.

Lemma split_stereo_events f st l st' :
  is_stereo f = true ->
  split_stereo self f st = (Ok l, st') ->
  split_pair l
  /\ exists copied,
       temp_dir self `prefix_of` copied
       /\ trace st'
          = trace st
            ++ [ Copy (path f) copied;
                 Call housekeep ["chans"; "2"; Pathlib.to_str copied] ].
Proof.
  intros Hst. unfold split_stereo. rewrite Hst. cbv zeta. simpl negb. cbv iota.
  intros Hrun.
  apply bind_Ok in Hrun as (u1 & s1 & Hcopy & Hrun).
  apply bind_Ok in Hrun as (out & s2 & Hsplit & Hrun).
  apply bind_Ok in Hrun as (u2 & s3 & Hleft & Hrun).
  apply bind_Ok in Hrun as (u3 & s4 & Hright & Hrun).
  apply ret_Ok in Hrun as [-> ->].
  apply copy_Ok_trace in Hcopy. apply sh_call_Ok in Hsplit as (_ & _ & Hsplit & _).
  apply created_Ok in Hleft. apply created_Ok in Hright. split.
  - eexists _, _. split; [reflexivity |]. now repeat split.
  - eexists. split; [now eexists |].
    rewrite Hright, Hleft, Hsplit, Hcopy, <- app_assoc. reflexivity.
Qed.

Lemma prepare_channels_steps fs ch st l st' :
  prepare_channels self fs ch st = (Ok l, st') ->
  exists groups events,
    Forall3 (split_step (temp_dir self) ch) fs groups events
    /\ l = concat groups
    /\ trace st' = trace st ++ concat events.
Proof.
  revert st l st'. induction fs as [| f fs IH]; intros st l st'; simpl.
  - intros Hrun. apply ret_Ok in Hrun as [-> ->]. exists [], [].
    rewrite app_nil_r. repeat split. constructor.
  - intros Hrun.
    apply bind_Ok in Hrun as (here & st1 & Hhere & Hrun).
    apply bind_Ok in Hrun as (prepared & st2 & Hrest & Hrun).
    apply ret_Ok in Hrun as [-> ->].
    apply IH in Hrest as (groups & events & Hall & -> & Ht).
    assert (Hstep : exists evs,
              split_step (temp_dir self) ch f here evs
              /\ trace st1 = trace st ++ evs).
    { unfold split_step, is_stereo, is_mono in *.
      destruct ch, (channels f) eqn:Hf; simpl in Hhere;
        try (apply ret_Ok in Hhere as [-> ->]; exists [];
             rewrite app_nil_r; now repeat split);
        try discriminate.
      apply split_stereo_events in Hhere
        as (Hpair & copied & Hpre & Ht1);
        [| unfold is_stereo; now rewrite Hf].
      eexists. split; [| exact Ht1]. split; [exact Hpair |].
      exists copied. now split. }
    destruct Hstep as (evs & Hstep & Ht1).
    exists (here :: groups), (evs :: events). split; [now constructor |].
    split; [reflexivity |]. simpl. now rewrite Ht, Ht1, <- app_assoc.
Qed.

Lemma convert_to_ana_events f st c st' :
  is_wav f = true ->
  convert_to_ana self f st = (Ok c, st') ->
  format c = ANA /\ channels c = channels f
  /\ channel_index c = channel_index f
  /\ trace st'
     = trace st
       ++ [ Call pvoc ["anal"; "1"; Pathlib.to_str (path f);
                       Pathlib.to_str (path c)] ].
Proof.
  intros Hw. unfold convert_to_ana. rewrite Hw. simpl negb. cbv iota.
  unfold bind at 1, _next_temp_file at 1.
  intros Hrun.
  apply bind_Ok in Hrun as (out & s2 & Hcall & Hrun).
  apply bind_Ok in Hrun as (u & s3 & Hmade & Hrun).
  apply ret_Ok in Hrun as [-> ->].
  apply sh_call_Ok in Hcall as (_ & _ & Hcall & _).
  apply created_Ok in Hmade. rewrite Hmade, Hcall. now repeat split.
Qed.

Lemma convert_to_wav_events f st c st' :
  is_ana f = true ->
  convert_to_wav self f st = (Ok c, st') ->
  format c = WAV /\ channels c = channels f
  /\ channel_index c = channel_index f
  /\ trace st'
     = trace st
       ++ [ Call pvoc ["synth"; Pathlib.to_str (path f);
                       Pathlib.to_str (path c)] ].
Proof.
  intros Ha. unfold convert_to_wav. rewrite Ha. simpl negb. cbv iota.
  unfold bind at 1, _next_temp_file at 1.
  intros Hrun.
  apply bind_Ok in Hrun as (out & s2 & Hcall & Hrun).
  apply bind_Ok in Hrun as (u & s3 & Hmade & Hrun).
  apply ret_Ok in Hrun as [-> ->].
  apply sh_call_Ok in Hcall as (_ & _ & Hcall & _).
  apply created_Ok in Hmade. rewrite Hmade, Hcall. now repeat split.
Qed.

Lemma prepare_formats_steps fs fmt st l st' :
  prepare_formats self fs fmt st = (Ok l, st') ->
  exists events,
    Forall3 (convert_step fmt) fs l events
    /\ trace st' = trace st ++ concat events.
Proof.
  revert st l st'. induction fs as [| f fs IH]; intros st l st'; simpl.
  - intros Hrun. apply ret_Ok in Hrun as [-> ->]. exists [].
    rewrite app_nil_r. split; [constructor | reflexivity].
  - intros Hrun.
    apply bind_Ok in Hrun as (here & st1 & Hhere & Hrun).
    apply bind_Ok in Hrun as (converted & st2 & Hrest & Hrun).
    apply ret_Ok in Hrun as [-> ->].
    apply IH in Hrest as (events & Hall & Ht).
    assert (Hstep : exists evs,
              convert_step fmt f here evs /\ trace st1 = trace st ++ evs).
    { unfold convert_step, is_wav, is_ana in *.
      destruct fmt, (format f) eqn:Hf; simpl in Hhere.
      - apply ret_Ok in Hhere as [-> ->]. exists [].
        rewrite app_nil_r, bool_decide_eq_true_2 by reflexivity. now split.
      - apply convert_to_wav_events in Hhere as (? & ? & ? & Ht1);
          [| unfold is_ana; now rewrite Hf].
        eexists. split; [| exact Ht1].
        rewrite bool_decide_eq_false_2 by discriminate. now repeat split.
      - apply convert_to_ana_events in Hhere as (? & ? & ? & Ht1);
          [| unfold is_wav; now rewrite Hf].
        eexists. split; [| exact Ht1].
        rewrite bool_decide_eq_false_2 by discriminate. now repeat split.
      - apply ret_Ok in Hhere as [-> ->]. exists [].
        rewrite app_nil_r, bool_decide_eq_true_2 by reflexivity. now split. }
    destruct Hstep as (evs & Hstep & Ht1).
    exists (evs :: events). split; [now constructor |].
    simpl. now rewrite Ht, Ht1, <- app_assoc.
Qed.

End NegotiationSteps.

(** C1: the events of [prepare_inputs] are those of the splits followed by
    those of the conversions, none of the first after one of the second.
    When it returns, the first pass has gone through the inputs in order:
    every stereo input, when mono is required, was copied into the scratch
    directory and split ([housekeep chans 2] on the copy), and is replaced
    by two mono descriptors tagged 1 (left) and 2 (right); every other input
    stays, without an event. The second pass has then gone through the
    descriptors of the first in order: a descriptor in the required format
    is returned as it is, without an event; any other was converted ([pvoc
    anal 1] or [pvoc synth], from its file to the file of the descriptor
    returned), and the descriptor returned has the required format, and the
    channels and the tag of the one converted. The events of the splits are
    exactly those of the first pass, the events of the conversions exactly
    those of the second. *)
Theorem prepare_inputs_channels_before_formats `{PyBuiltins} `{Toolset}
  (self : PipelineExecutor) (input_files : list AudioFile)
  (required_format : FileFormat) (required_channels : ChannelMode)
  (st : State) :
  let '(r, st') :=
    prepare_inputs self input_files required_format required_channels st in
  exists splits conversions,
    trace st' = trace st ++ splits ++ conversions
    /\ Forall is_split_event splits
    /\ Forall is_conversion_event conversions
    /\ match r with
       | Ok converted =>
           exists groups split_events prepared conversion_events,
             Forall3 (split_step (temp_dir self) required_channels)
               input_files groups split_events
             /\ prepared = concat groups
             /\ splits = concat split_events
             /\ Forall3 (convert_step required_format)
                  prepared converted conversion_events
             /\ conversions = concat conversion_events
       | Err _ => True
       end.
Proof.
  unfold prepare_inputs, bind.
  pose proof (trace_prepare_channels self input_files required_channels st)
    as (tc & Htc & Hsplit).
  destruct (prepare_channels self input_files required_channels st)
    as [[prepared | e] st1] eqn:Hch; simpl in Htc.
  - pose proof (trace_prepare_formats self prepared required_format st1)
      as (tf & Htf & Hconv).
    destruct (prepare_formats self prepared required_format st1)
      as [[converted | e] st2] eqn:Hfm; simpl in Htf;
      exists tc, tf; rewrite Htf, Htc, <- app_assoc;
      repeat split; try assumption.
    apply prepare_channels_steps in Hch as (groups & sevs & Hsteps & -> & Ht1).
    apply prepare_formats_steps in Hfm as (cevs & Hconvs & Ht2).
    rewrite Ht1 in Htc. apply app_inv_head in Htc.
    rewrite Ht2 in Htf. apply app_inv_head in Htf.
    exists groups, sevs, (concat groups), cevs. now repeat split.
  - exists tc, []. rewrite app_nil_r. repeat split; auto.
Qed.

(** A stereo waveform for an operation on mono analysis files. *)
Example prepare_stereo_for_mono_ana :
  let self :=
    {| keep_temp := false; verbose := false; _temp_dir_obj := None;
       temp_dir := ["tmp"] |} in
  let st := Demo.empty_state {[ ["in.wav"] ]} [] in
  let '(r, st') :=
    @prepare_inputs (Demo.toolset "2" "2.0") self
      [ {| path := ["in.wav"]; format := WAV; channels := STEREO;
           channel_index := None |} ] ANA MONO st in
  r = Ok [ {| path := ["tmp"; "in_c1_0001.ana"]; format := ANA;
              channels := MONO; channel_index := Some 1%Z |};
           {| path := ["tmp"; "in_c2_0002.ana"]; format := ANA;
              channels := MONO; channel_index := Some 2%Z |} ]
  /\ trace st' =
     [ Copy ["in.wav"] ["tmp"; "in.wav"];
       Call housekeep ["chans"; "2"; "tmp/in.wav"];
       Call pvoc ["anal"; "1"; "tmp/in_c1.wav"; "tmp/in_c1_0001.ana"];
       Call pvoc ["anal"; "1"; "tmp/in_c2.wav"; "tmp/in_c2_0002.ana"] ].
Proof. vm_compute. split; reflexivity. Qed.

(** ** Materialization of the curves *)





Section MaterializationFacts.
Context `{PyBuiltins} `{Toolset}.
Variable self : PipelineExecutor.

Lemma get_duration_Ok f st d st' :
  get_duration self f st = (Ok d, st') ->
  heap st' = heap st /\ files st' = files st
  /\ trace st' = trace st ++ [Call sndinfo ["len"; Pathlib.to_str (path f)]].
Proof.
  unfold get_duration. intros Hrun. apply try_except_Ok in Hrun.
  apply bind_Ok in Hrun as (out & st1 & Hcall & Hrest).
  apply sh_call_Ok in Hcall as (Hh & Hf & Ht & _).
  destruct (duration_in_lines _) as [tok |]; [| discriminate].
  destruct (py_float tok); [| discriminate].
  apply ret_Ok in Hrest as [_ ->]. now repeat split.
Qed.

Lemma get_duration_counter f st r st' :
  get_duration self f st = (r, st') -> _counter st' = _counter st.
Proof.
  unfold get_duration, try_except, bind, sh_call, bind, log. simpl.
  destruct (sh _ _ _); simpl.
  - destruct (duration_in_lines _) as [tok |]; simpl;
      [destruct (py_float tok) |]; simpl; now intros [= _ <-].
  - now intros [= _ <-].
Qed.

(** The text of a curve is the text of the sequence it resolves to. *)
Lemma to_file_content_resolved bp d content ws :
  to_file_content bp d = Ok (content, ws) ->
  exists result, resolved_sequence d bp result /\ content = curve_text result.
Proof.
  unfold to_file_content, to_absolute_times.
  destruct (resolve_points (points bp) d) as [[resolved original] | e] eqn:Hr;
    [| discriminate].
  intros [= <- _]. exists (sort_by_time resolved). split; [| reflexivity].
  exists resolved. apply resolve_points_ok in Hr as [Hall _]. split; [| split].
  - eapply Forall2_impl; [exact Hall |].
    intros p r [Ht Hv]. split; [now apply get_absolute_time_ok | exact Hv].
  - apply sort_by_time_perm.
  - apply sort_by_time_sorted.
Qed.

Lemma write_breakpoint_file_Ok bp d base st filepath st' :
  write_breakpoint_file self bp d base st = (Ok filepath, st') ->
  exists content ws,
    filepath
    = Pathlib.truediv (temp_dir self)
        (base +:+ "_" +:+ Str.zero_pad 4 (S (_counter st)) +:+ "." +:+ "txt")
    /\ to_file_content bp d = Ok (content, ws)
    /\ trace st' = trace st ++ [WriteText filepath content]
    /\ heap st' = heap st
    /\ files st' = {[filepath]} ∪ files st
    /\ _counter st' = S (_counter st).
Proof.
  unfold write_breakpoint_file, write_to_file, bind at 1, _next_temp_file.
  unfold bind at 2, lift at 1. simpl.
  destruct (to_file_content bp d) as [[content ws] | e]; simpl; [| discriminate].
  unfold bind, warn, write_text, bind, log, created, set_files, ret. simpl.
  intros Heq. injection Heq as <- <-. simpl.
  exists content, ws. now repeat split.
Qed.

Lemma process_params_Ok r op i ps d st ps' st' :
  heap st !! r = Some op ->
  process_params self r i ps d st = (Ok ps', st') ->
  exists t,
    trace st' = trace st ++ t
    /\ heap st' = heap st
    /\ files st' = list_to_set (written t) ∪ files st
    /\ materializes (temp_dir self) (name op) d i (_counter st) ps ps' t.
Proof.
  intros Hr. revert i st ps' st' Hr.
  induction ps as [| p ps IH]; intros i st ps' st' Hr; simpl.
  - intros Hrun. apply ret_Ok in Hrun as [-> ->]. exists [].
    rewrite app_nil_r. repeat split; [| constructor].
    simpl. now rewrite (left_id_L ∅ (∪)).
  - intros Hrun.
    apply bind_Ok in Hrun as (here & st1 & Hhere & Hrun).
    apply bind_Ok in Hrun as (rest & st2 & Hrest & Hrun).
    apply ret_Ok in Hrun as [-> ->].
    assert (Hscalar : is_automatable p = false ->
              here = p /\ st1 = st).
    { destruct p; try discriminate; intros _;
        now apply ret_Ok in Hhere as [-> ->]. }
    destruct (is_automatable p) eqn:Hp.
    + destruct p as [| | | bp]; try discriminate. clear Hscalar.
      rewrite (bind_Ok_intro _ _ _ _ _ (deref_Some _ _ _ Hr)) in Hhere.
      apply bind_Ok in Hhere as (filepath & st1' & Hwrite & Hret).
      apply ret_Ok in Hret as [-> ->].
      apply write_breakpoint_file_Ok in Hwrite
        as (content & ws & Hpath & Hcontent & Htr & Hh & Hfiles & Hc).
      apply to_file_content_resolved in Hcontent as (result & Hres & ->).
      apply IH in Hrest as (t2 & Ht2 & Hh2 & Hf2 & Hm2); [| now rewrite Hh].
      exists (WriteText filepath (curve_text result) :: t2).
      rewrite Ht2, Htr, Hh2, Hh, Hf2, Hfiles, <- app_assoc.
      repeat split.
      { apply set_eq. intros q. simpl.
        rewrite !elem_of_union, !elem_of_list_to_set, !elem_of_singleton.
        tauto. }
      rewrite Hc in Hm2. subst filepath. now constructor.
    + destruct (Hscalar eq_refl) as [-> ->].
      apply IH in Hrest as (t2 & Ht2 & Hh2 & Hf2 & Hm2); [| exact Hr].
      exists t2. repeat split; auto. now constructor.
Qed.

Lemma process_breakpoints_no_curve r op fs st :
  heap st !! r = Some op ->
  existsb is_automatable (params op) = false ->
  _process_breakpoints self r fs st = (Ok r, st).
Proof.
  intros Hr Hno. unfold _process_breakpoints.
  rewrite (bind_Ok_intro _ _ _ _ _ (deref_Some _ _ _ Hr)).
  now rewrite Hno.
Qed.

Lemma process_breakpoints_curve r op fs st r' st' :
  heap st !! r = Some op ->
  existsb is_automatable (params op) = true ->
  _process_breakpoints self r fs st = (Ok r', st') ->
  exists f rest duration st1 events processed_params,
    fs = f :: rest
    /\ get_duration self f st = (Ok duration, st1)
    /\ trace st1 = trace st ++ [Call sndinfo ["len"; Pathlib.to_str (path f)]]
    /\ trace st' = trace st1 ++ events
    /\ r' = length (heap st)
    /\ heap st' = heap st ++ [replace_params op processed_params]
    /\ materializes (temp_dir self) (name op) duration 0 (_counter st)
         (params op) processed_params events
    /\ files st' = list_to_set (written events) ∪ files st.
Proof.
  intros Hr Hyes Hrun. unfold _process_breakpoints in Hrun.
  rewrite (bind_Ok_intro _ _ _ _ _ (deref_Some _ _ _ Hr)) in Hrun.
  rewrite Hyes in Hrun. simpl in Hrun.
  apply bind_Ok in Hrun as (duration & st1 & Hdur & Hrun).
  destruct fs as [| f rest]; [discriminate |].
  pose proof (get_duration_Ok _ _ _ _ Hdur) as (Hh1 & Hf1 & Ht1).
  pose proof (get_duration_counter _ _ _ _ Hdur) as Hc1.
  assert (Hr1 : heap st1 !! r = Some op) by now rewrite Hh1.
  rewrite (bind_Ok_intro _ _ _ _ _ (deref_Some _ _ _ Hr1)) in Hrun.
  apply bind_Ok in Hrun as (ps' & st2 & Hps & Hrun).
  apply (process_params_Ok _ _ _ _ _ _ _ _ Hr1) in Hps
    as (t & Ht2 & Hh2 & Hf2 & Hm).
  assert (Hr2 : heap st2 !! r = Some op) by now rewrite Hh2.
  rewrite (bind_Ok_intro _ _ _ _ _ (deref_Some _ _ _ Hr2)) in Hrun.
  unfold alloc in Hrun. injection Hrun as <- <-. simpl.
  exists f, rest, duration, st1, t, ps'.
  rewrite Hh2, Hh1, Hf2, Hf1, <- Hc1. now repeat split.
Qed.



End MaterializationFacts.



(** The curve of that blur against a file of two seconds: one question, one
    file written, and a second object whose parameter is the path of the
    file. *)
Example materialize_blur_ramp :
  let st := Demo.empty_state {[ ["in.ana"] ]} [Demo.blur_ramp] in
  let '(r, st') :=
    @_process_breakpoints _ (Demo.toolset "1" "2.0") Demo.executor 0
      [ {| path := ["in.ana"]; format := ANA; channels := MONO;
           channel_index := None |} ] st in
  r = Ok 1%nat
  /\ heap st' =
     [ Demo.blur_ramp;
       replace_params Demo.blur_ramp [PStr "tmp/blur_auto_param0_0001.txt"] ]
  /\ trace st' =
     [ Call sndinfo ["len"; "in.ana"];
       WriteText ["tmp"; "blur_auto_param0_0001.txt"]
         ("0.000000 1.000000" +:+ String "010" "2.000000 5.000000") ].
Proof. vm_compute. repeat split. Qed.


(** ** Channel groups *)

Section GroupFacts.

(** The group of the tag [k] among [fs]. *)
Let group_of (fs : list AudioFile) (k : option Z) : option Z * list AudioFile :=
  (k, filter (with_tag k) fs).

Lemma filter_with_tag_snoc (k : option Z) (pre : list AudioFile) (f : AudioFile) :
  filter (with_tag k) (pre ++ [f])
  = filter (with_tag k) pre ++ (if decide (channel_index f = k) then [f] else []).
Proof.
  rewrite filter_app. reflexivity.
Qed.

Lemma filter_with_tag_nil (k : option Z) (fs : list AudioFile) :
  (forall f, f ∈ fs -> channel_index f <> k) -> filter (with_tag k) fs = [].
Proof.
  intros Hno. apply elem_of_nil_inv. intros f Hin.
  apply list_elem_of_filter in Hin as [Htag Hin]. now apply (Hno f).
Qed.

Lemma group_of_other (pre : list AudioFile) (f : AudioFile) (ks : list (option Z)) :
  channel_index f ∉ ks ->
  map (group_of (pre ++ [f])) ks = map (group_of pre) ks.
Proof.
  intros Hnot. apply map_ext_in. intros k Hin. unfold group_of.
  rewrite filter_with_tag_snoc.
  destruct (decide (channel_index f = k)) as [Heq | _].
  - exfalso. apply Hnot. rewrite Heq. now apply list_elem_of_In.
  - now rewrite app_nil_r.
Qed.

Lemma dict_append_groups (pre : list AudioFile) (f : AudioFile)
  (ks : list (option Z)) :
  NoDup ks ->
  (channel_index f ∉ ks -> filter (with_tag (channel_index f)) pre = []) ->
  dict_append (map (group_of pre) ks) (channel_index f) f
  = map (group_of (pre ++ [f]))
      (if bool_decide (channel_index f ∈ ks) then ks
       else ks ++ [channel_index f]).
Proof.
  intros Hnd Hnew. induction ks as [| k0 ks IH].
  - simpl. unfold group_of.
    rewrite filter_with_tag_snoc, Hnew by apply not_elem_of_nil.
    now rewrite decide_True.
  - apply NoDup_cons in Hnd as [Hk0 Hnd].
    assert (Hstep : dict_append (map (group_of pre) (k0 :: ks)) (channel_index f) f
      = if decide (k0 = channel_index f)
        then (k0, filter (with_tag k0) pre ++ [f]) :: map (group_of pre) ks
        else group_of pre k0
             :: dict_append (map (group_of pre) ks) (channel_index f) f)
      by reflexivity.
    rewrite Hstep. clear Hstep.
    destruct (decide (k0 = channel_index f)) as [-> | Hne].
    + rewrite bool_decide_eq_true_2 by constructor.
      cbn [map]. rewrite (group_of_other _ _ _ Hk0). unfold group_of at 2.
      rewrite filter_with_tag_snoc, decide_True by reflexivity. reflexivity.
    + rewrite IH; [| exact Hnd |].
      * assert (Hhead : group_of (pre ++ [f]) k0 = group_of pre k0).
        { unfold group_of. rewrite filter_with_tag_snoc.
          rewrite decide_False by congruence. now rewrite app_nil_r. }
        destruct (bool_decide (channel_index f ∈ ks)) eqn:Hin.
        -- apply bool_decide_eq_true_1 in Hin.
           rewrite bool_decide_eq_true_2 by now constructor.
           cbn [map]. now rewrite Hhead.
        -- apply bool_decide_eq_false_1 in Hin.
           rewrite bool_decide_eq_false_2.
           ++ cbn [map app]. now rewrite Hhead.
           ++ intros Hin'. apply elem_of_cons in Hin' as [Heq | Hin']; auto.
      * intros Hnot. apply Hnew. intros Hin'.
        apply elem_of_cons in Hin' as [Heq | Hin']; auto.
Qed.

(** What the grouping loop keeps true of the keys [ks] after the descriptors
    [pre]. *)
Let keys_of (pre : list AudioFile) (ks : list (option Z)) : Prop :=
  NoDup ks
  /\ (forall f, f ∈ pre -> channel_index f ∈ ks)
  /\ (forall k, k ∈ ks -> filter (with_tag k) pre <> []).

Lemma keys_of_snoc pre f ks :
  keys_of pre ks ->
  keys_of (pre ++ [f])
    (if bool_decide (channel_index f ∈ ks) then ks else ks ++ [channel_index f]).
Proof.
  intros (Hnd & Hall & Hne).
  destruct (bool_decide (channel_index f ∈ ks)) eqn:Hin.
  - apply bool_decide_eq_true_1 in Hin. repeat split; [exact Hnd | |].
    + intros f' Hf'. apply elem_of_app in Hf' as [Hf' | Hf']; [now apply Hall |].
      apply list_elem_of_singleton in Hf' as ->. exact Hin.
    + intros k Hk. rewrite filter_with_tag_snoc. intros Heq.
      apply app_eq_nil in Heq as [Heq _]. now apply (Hne k).
  - apply bool_decide_eq_false_1 in Hin. repeat split.
    + apply NoDup_app. repeat split; [exact Hnd | | apply NoDup_singleton].
      intros k Hk Hk'. apply list_elem_of_singleton in Hk' as ->. contradiction.
    + intros f' Hf'. apply elem_of_app.
      apply elem_of_app in Hf' as [Hf' | Hf']; [left; now apply Hall |].
      apply list_elem_of_singleton in Hf' as ->. right. constructor.
    + intros k Hk. rewrite filter_with_tag_snoc. intros Heq.
      apply app_eq_nil in Heq as [Heq Heq'].
      apply elem_of_app in Hk as [Hk | Hk]; [now apply (Hne k) |].
      apply list_elem_of_singleton in Hk as ->.
      rewrite decide_True in Heq' by reflexivity. discriminate.
Qed.

Lemma fold_groups (fs pre : list AudioFile) (ks : list (option Z)) :
  keys_of pre ks ->
  exists ks',
    fold_left (fun channels f => dict_append channels (channel_index f) f) fs
      (map (group_of pre) ks)
    = map (group_of (pre ++ fs)) ks'
    /\ keys_of (pre ++ fs) ks'.
Proof.
  revert pre ks. induction fs as [| f fs IH]; intros pre ks Hinv; simpl.
  - exists ks. now rewrite app_nil_r.
  - pose proof Hinv as (Hnd & Hall & _).
    rewrite dict_append_groups; [| exact Hnd |].
    + destruct (IH _ _ (keys_of_snoc pre f ks Hinv)) as (ks' & Heq & Hinv').
      exists ks'. rewrite <- app_assoc in Heq, Hinv'. now split.
    + intros Hnot. apply filter_with_tag_nil. intros f' Hf' Heq.
      apply Hnot. rewrite <- Heq. now apply Hall.
Qed.

(** The grouping loop groups by channel tag. *)
Lemma group_by_channel_grouped (prepared : list AudioFile) :
  grouped_by_tag prepared (group_by_channel prepared).
Proof.
  destruct (fold_groups prepared [] []) as (ks & Heq & Hnd & Hall & Hne).
  { repeat split; [constructor | intros f Hf; inversion Hf
                   | intros k Hk; inversion Hk]. }
  unfold group_by_channel. simpl in Heq. rewrite Heq. simpl.
  assert (Hkeys : map fst (map (group_of prepared) ks) = ks).
  { rewrite map_map. simpl. apply map_id. }
  unfold grouped_by_tag. rewrite Hkeys. repeat split; [exact Hnd | exact Hall |].
  apply Forall_forall. intros g Hg. apply list_elem_of_In, in_map_iff in Hg.
  destruct Hg as (k & <- & Hk). simpl. split; [| reflexivity].
  apply Hne. now apply list_elem_of_In.
Qed.

End GroupFacts.

(** ** One invocation for each channel group *)

Section InvocationFacts.
Context `{PyBuiltins} `{Toolset}.
Variable self : PipelineExecutor.

Lemma trace_process_breakpoints r fs :
  run_rel (trace_ext not_invocation) (_process_breakpoints self r fs).
Proof.
  unfold _process_breakpoints. repeat rel_step.
  - unfold get_duration. repeat rel_step. now apply trace_sh_call.
  - generalize 0%nat as i. generalize (params a1) as ps.
    induction ps as [| p ps IH]; intros i; simpl; [rel_step |].
    apply (rel_bind _); [| intros ?; apply (rel_bind _); [apply IH | intros ?; rel_step]].
    destruct p; repeat rel_step.
    unfold write_breakpoint_file, write_to_file. repeat rel_step.
    + apply trace_next_temp_file.
    + apply trace_warn.
    + unfold write_text. rel_step; [now apply trace_log | apply trace_created].
  - apply trace_alloc.
Qed.

Lemma filter_not_invocation (t : list Event) :
  Forall not_invocation t -> List.filter is_invocation t = [].
Proof.
  induction 1 as [| ev t Hev _ IH]; simpl; [reflexivity |].
  unfold not_invocation in Hev. now rewrite Hev.
Qed.

Lemma replace_params_same (op : CDPOperation) :
  replace_params op (params op) = op.
Proof. now destruct op. Qed.

(** The object that [_process_breakpoints] returns is the one it was given,
    up to its parameters. *)
Lemma process_breakpoints_object r op fs st r' st' :
  heap st !! r = Some op ->
  _process_breakpoints self r fs st = (Ok r', st') ->
  exists processed_params,
    heap st' !! r' = Some (replace_params op processed_params).
Proof.
  intros Hr Hrun. destruct (existsb is_automatable (params op)) eqn:Hcurve.
  - destruct (process_breakpoints_curve _ _ _ _ _ _ _ Hr Hcurve Hrun)
      as (_ & _ & _ & _ & _ & ps & _ & _ & _ & _ & -> & -> & _).
    exists ps. rewrite lookup_app_r by reflexivity.
    now rewrite Nat.sub_diag.
  - rewrite (process_breakpoints_no_curve _ _ _ _ _ Hr Hcurve) in Hrun.
    injection Hrun as <- <-. exists (params op).
    now rewrite replace_params_same.
Qed.

Lemma execute_cdp_command_Ok prog args st out st' :
  _execute_cdp_command self prog args st = (Ok out, st') ->
  trace st' = trace st ++ [Call (cdp prog) args].
Proof.
  unfold _execute_cdp_command. intros Hrun. apply try_except_Ok in Hrun.
  now apply sh_call_Ok in Hrun as (_ & _ & Ht & _).
Qed.

Lemma execute_group_Ok r op base k fs st o st' :
  heap st !! r = Some op ->
  execute_group self r base k fs st = (Ok o, st') ->
  exists events ev,
    trace st' = trace st ++ events
    /\ List.filter is_invocation events = [ev]
    /\ group_outcome op (k, fs) ev o.
Proof.
  intros Hr Hrun. unfold execute_group in Hrun.
  rewrite (bind_Ok_intro _ _ _ _ _ (deref_Some _ _ _ Hr)) in Hrun.
  unfold bind at 1, _next_temp_file at 1 in Hrun.
  match type of Hrun with
  | context [Pathlib.truediv ?a ?b] => set (output_path := Pathlib.truediv a b) in *
  end.
  match type of Hrun with
  | bind _ _ ?s = _ => set (st2 := s) in *
  end.
  assert (Hr2 : heap st2 !! r = Some op) by exact Hr.
  rewrite (bind_Ok_intro _ _ _ _ _ (deref_Some _ _ _ Hr2)) in Hrun.
  apply bind_Ok in Hrun as (r' & st3 & Hproc & Hrun).
  pose proof (trace_process_breakpoints r fs st2) as (t & Ht & Hnot).
  rewrite Hproc in Ht. simpl in Ht.
  destruct (process_breakpoints_object _ _ _ _ _ _ Hr2 Hproc) as (ps & Hr').
  rewrite (bind_Ok_intro _ _ _ _ _ (deref_Some _ _ _ Hr')) in Hrun.
  apply bind_Ok in Hrun as (args & st3' & Hargs & Hrun).
  unfold lift in Hargs. injection Hargs as Hargs <-.
  rewrite (bind_Ok_intro _ _ _ _ _ (deref_Some _ _ _ Hr')) in Hrun.
  apply bind_Ok in Hrun as (out & st4 & Hcall & Hrun).
  apply execute_cdp_command_Ok in Hcall.
  apply bind_Ok in Hrun as (u & st5 & Hmade & Hrun).
  apply ret_Ok in Hrun as [-> ->].
  unfold created, set_files in Hmade. injection Hmade as _ <-.
  exists (t ++ [Call (cdp (program op)) args]), (Call (cdp (program op)) args).
  simpl. rewrite Hcall, Ht, <- app_assoc. split; [reflexivity |].
  split.
  - rewrite List.filter_app, (filter_not_invocation _ Hnot). reflexivity.
  - repeat split. exists ps, args. now split.
Qed.

Lemma execute_groups_Ok r op base gs st outs st' :
  heap st !! r = Some op ->
  execute_groups self r base gs st = (Ok outs, st') ->
  exists events,
    trace st' = trace st ++ events
    /\ Forall3 (group_outcome op) gs (List.filter is_invocation events) outs.
Proof.
  revert st outs st'.
  induction gs as [| [k fs] gs IH]; intros st outs st' Hr Hrun; simpl in Hrun.
  - apply ret_Ok in Hrun as [-> ->]. exists []. rewrite app_nil_r.
    split; [reflexivity | constructor].
  - apply bind_Ok in Hrun as (o & st1 & Hone & Hrun).
    apply bind_Ok in Hrun as (os & st2 & Hrest & Hrun).
    apply ret_Ok in Hrun as [-> ->].
    pose proof (heap_execute_group self r base k fs st) as Hheap.
    rewrite Hone in Hheap. simpl in Hheap.
    destruct (execute_group_Ok _ _ _ _ _ _ _ _ Hr Hone)
      as (t1 & ev & Ht1 & Hf1 & Hout).
    destruct (IH _ _ _ (Hheap _ _ Hr) Hrest) as (t2 & Ht2 & Hall).
    exists (t1 ++ t2). rewrite Ht2, Ht1, <- app_assoc.
    split; [reflexivity |]. rewrite List.filter_app, Hf1. simpl.
    now constructor.
Qed.

End InvocationFacts.

(** C2: an operation on mono files that returns has negotiated its inputs;
    the negotiated descriptors are grouped by channel tag, one group for each
    tag that occurs, the untagged ones being a group of their own; the
    program of the operation was invoked once for each group, in order, with
    the files of the group, and the descriptors returned are one for each
    group, in order, mono, in the output format, with the tag of the group.
    Both conversions return a descriptor with the channels and the tag of
    the one they were given. *)
Theorem execute_operation_once_per_channel_group `{PyBuiltins} `{Toolset}
  (self : PipelineExecutor) (operation : nat) (op : CDPOperation)
  (input_files : list AudioFile) (output_base_name : string) (st : State) :
  heap st !! operation = Some op ->
  req_channels (input_requirements op) = MONO ->
  (let '(r, st') :=
     execute_operation self operation input_files output_base_name st in
   forall output_files, r = Ok output_files ->
     exists prepared_inputs st1 events,
       prepare_inputs self input_files (req_format (input_requirements op))
         MONO st = (Ok prepared_inputs, st1)
       /\ grouped_by_tag prepared_inputs (group_by_channel prepared_inputs)
       /\ trace st' = trace st1 ++ events
       /\ Forall3 (group_outcome op) (group_by_channel prepared_inputs)
            (List.filter is_invocation events) output_files)
  /\ (forall f s,
        match convert_to_ana self f s with
        | (Ok c, _) =>
            channel_index c = channel_index f /\ channels c = channels f
        | (Err _, _) => True
        end)
  /\ (forall f s,
        match convert_to_wav self f s with
        | (Ok c, _) =>
            channel_index c = channel_index f /\ channels c = channels f
        | (Err _, _) => True
        end).
Proof.
  intros Hr Hmono. split; [| split].
  - destruct (execute_operation self operation input_files output_base_name st)
      as [r st'] eqn:Hrun.
    intros output_files ->. unfold execute_operation in Hrun.
    rewrite (bind_Ok_intro _ _ _ _ _ (deref_Some _ _ _ Hr)) in Hrun.
    apply bind_Ok in Hrun as (prepared & st1 & Hprep & Hrun).
    rewrite Hmono in Hprep.
    pose proof (step_in_prepare_inputs self input_files
                  (req_format (input_requirements op)) MONO st) as [Hheap _].
    rewrite Hprep in Hheap. simpl in Hheap. apply Hheap in Hr.
    rewrite (bind_Ok_intro _ _ _ _ _ (deref_Some _ _ _ Hr)) in Hrun.
    rewrite Hmono in Hrun. simpl in Hrun.
    destruct (execute_groups_Ok _ _ _ _ _ _ _ _ Hr Hrun) as (events & Ht & Hall).
    exists prepared, st1, events. repeat split; try assumption;
      apply group_by_channel_grouped.
  - intros f s. destruct (convert_to_ana self f s) as [[c | e] s'] eqn:Hrun;
      [| exact I].
    apply convert_to_ana_Ok in Hrun. destruct (is_wav f).
    + now destruct Hrun as (_ & ? & ?).
    + now subst c.
  - intros f s. destruct (convert_to_wav self f s) as [[c | e] s'] eqn:Hrun;
      [| exact I].
    apply convert_to_wav_Ok in Hrun. destruct (is_ana f).
    + now destruct Hrun as (_ & ? & ?).
    + now subst c.
Qed.

(** The theorem, at a blur of a stereo waveform. *)
Lemma execute_operation_once_per_channel_group_witness :
  let st := Demo.empty_state {[ ["in.wav"] ]} [Demo.blur] in
  let input_files :=
    [ {| path := ["in.wav"]; format := WAV; channels := STEREO;
         channel_index := None |} ] in
  heap st !! 0%nat = Some Demo.blur
  /\ req_channels (input_requirements Demo.blur) = MONO
  /\ let '(r, st') :=
       @execute_operation _ (Demo.toolset "2" "2.0") Demo.executor 0
         input_files "op00_blur_2.0" st in
     forall output_files, r = Ok output_files ->
       exists prepared_inputs st1 events,
         @prepare_inputs (Demo.toolset "2" "2.0") Demo.executor input_files
           (req_format (input_requirements Demo.blur)) MONO st
         = (Ok prepared_inputs, st1)
         /\ grouped_by_tag prepared_inputs (group_by_channel prepared_inputs)
         /\ trace st' = trace st1 ++ events
         /\ Forall3 (group_outcome Demo.blur) (group_by_channel prepared_inputs)
              (List.filter is_invocation events) output_files.
Proof.
  intros st input_files. split; [reflexivity |]. split; [reflexivity |].
  pose proof
    (@execute_operation_once_per_channel_group _ (Demo.toolset "2" "2.0")
       Demo.executor 0 Demo.blur input_files "op00_blur_2.0" st
       eq_refl eq_refl) as Hthm.
  apply proj1 in Hthm. exact Hthm.
Defined.

(** That blur: two groups, two invocations, two outputs. *)
Example blur_of_a_stereo_waveform :
  let st := Demo.empty_state {[ ["in.wav"] ]} [Demo.blur] in
  let '(r, st') :=
    @execute_operation _ (Demo.toolset "2" "2.0") Demo.executor 0
      [ {| path := ["in.wav"]; format := WAV; channels := STEREO;
           channel_index := None |} ] "op00_blur_2.0" st in
  r = Ok [ {| path := ["tmp"; "op00_blur_2.0_c1_0003.ana"]; format := ANA;
              channels := MONO; channel_index := Some 1%Z |};
           {| path := ["tmp"; "op00_blur_2.0_c2_0004.ana"]; format := ANA;
              channels := MONO; channel_index := Some 2%Z |} ]
  /\ List.filter is_invocation (trace st') =
     [ Call (cdp "blur")
         ["blur"; "tmp/in_c1_0001.ana"; "tmp/op00_blur_2.0_c1_0003.ana"; "2.0"];
       Call (cdp "blur")
         ["blur"; "tmp/in_c2_0002.ana"; "tmp/op00_blur_2.0_c2_0004.ana"; "2.0"] ].
Proof. vm_compute. split; reflexivity. Qed.

(** Tagged and untagged descriptors: three groups, in the order in which
    the tags first occur. *)
Example groups_of_mixed_tags :
  let f p k := {| path := [p]; format := ANA; channels := MONO;
                  channel_index := k |} in
  group_by_channel
    [f "a" (Some 1%Z); f "b" None; f "c" (Some 2%Z); f "d" (Some 1%Z);
     f "e" None]
  = [ (Some 1%Z, [f "a" (Some 1%Z); f "d" (Some 1%Z)]);
      (None, [f "b" None; f "e" None]);
      (Some 2%Z, [f "c" (Some 2%Z)]) ].
Proof. reflexivity. Qed.

(** ** A mono file for an operation on stereo files *)

Lemma bind_Err {A B} (m : M A) (k : A -> M B) (st st' : State) (e : Exn) :
  bind m k st = (Err e, st') ->
  m st = (Err e, st')
  \/ exists a st1, m st = (Ok a, st1) /\ k a st1 = (Err e, st').
Proof.
  unfold bind. destruct (m st) as [[a | e0] st1]; [eauto |].
  intros Heq. injection Heq as -> ->. now left.
Qed.

Lemma bind_assoc {A B C} (m : M A) (k : A -> M B) (k' : B -> M C) (st : State) :
  bind (bind m k) k' st = bind m (fun a => bind (k a) k') st.
Proof.
  unfold bind. destruct (m st) as [[a | e] st1]; reflexivity.
Qed.


Section StereoFacts.
Context `{PyBuiltins} `{Toolset}.
Variable self : PipelineExecutor.





End StereoFacts.



(** A run of the operation on stereo waveforms alone, over a mono waveform:
    the channels are asked for, the error is raised before anything is
    written, and the scratch area is removed. *)
Example widen_of_a_mono_waveform :
  let st := Demo.empty_state {[ ["in.wav"] ]} [Demo.widen] in
  let '(r, st') :=
    @run _ (Demo.toolset "1" "2.0") [0%nat] [["in.wav"]] ["out.wav"]
      Demo.default_options st in
  r = Err (CannotConvertMonoToStereo ["in.wav"])
  /\ trace st' = [Call sfprops ["-c"; "in.wav"]; Rmtree ["tmp"; "tmpdir"]]
  /\ elements (files st') = [["in.wav"]].
Proof. vm_compute. repeat split. Qed.


(** ** Overwriting the output *)

Section OverwriteFacts.
Context `{PyBuiltins} `{Toolset}.
Variable self : PipelineExecutor.















End OverwriteFacts.



(** That run: the output is removed, the question about the channels fails,
    and the file that was at the output path is gone. *)
Example overwrite_then_failure :
  let st := Demo.empty_state {[ ["in.wav"]; ["out.wav"] ]} [Demo.blur] in
  let '(r, st') :=
    @run _ Demo.broken_toolset [0%nat] [["in.wav"]] ["out.wav"]
      Demo.overwrite_options st in
  r = Err (ChannelInfoFailed ["in.wav"])
  /\ trace st' = [ Unlink ["out.wav"]; Call sfprops ["-c"; "in.wav"];
                   Rmtree ["tmp"; "tmpdir"] ]
  /\ elements (files st') = [["in.wav"]].
Proof. vm_compute. repeat split. Qed.


(** * Further properties of the code *)

(** ** Negotiation: what it establishes, and when it has nothing to do *)

Section NegotiationResult.
Context `{PyBuiltins} `{Toolset}.
Variable self : PipelineExecutor.

Lemma not_stereo_mono (f : AudioFile) : is_stereo f = false -> channels f = MONO.
Proof.
  unfold is_stereo. intros Hf. apply bool_decide_eq_false_1 in Hf.
  destruct (channels f); [reflexivity | contradiction].
Qed.

Lemma not_mono_stereo (f : AudioFile) : is_mono f = false -> channels f = STEREO.
Proof.
  unfold is_mono. intros Hf. apply bool_decide_eq_false_1 in Hf.
  destruct (channels f); [contradiction | reflexivity].
Qed.

Lemma prepare_channels_channels fs ch st l st' :
  prepare_channels self fs ch st = (Ok l, st') ->
  Forall (fun c => channels c = ch) l.
Proof.
  revert st l st'. induction fs as [| f fs IH]; intros st l st' Hrun;
    simpl in Hrun.
  - apply ret_Ok in Hrun as [-> _]. constructor.
  - apply bind_Ok in Hrun as (here & st1 & Hhere & Hrun).
    apply bind_Ok in Hrun as (prepared & st2 & Hrest & Hrun).
    apply ret_Ok in Hrun as [-> _]. apply Forall_app. split; [| now apply IH in Hrest].
    destruct ch; simpl in Hhere.
    + destruct (is_stereo f) eqn:Hst.
      * apply split_stereo_Ok in Hhere as ->. unfold split_shape.
        rewrite Hst. now repeat constructor.
      * apply ret_Ok in Hhere as [-> _]. repeat constructor.
        now apply not_stereo_mono.
    + destruct (is_mono f) eqn:Hm; [discriminate |].
      apply ret_Ok in Hhere as [-> _]. repeat constructor.
      now apply not_mono_stereo.
Qed.

Lemma prepare_channels_conforming fs ch st :
  Forall (fun f => channels f = ch) fs ->
  prepare_channels self fs ch st = (Ok fs, st).
Proof.
  induction 1 as [| f fs Hf _ IH]; simpl; [reflexivity |].
  assert (Hhere :
    (if bool_decide (ch = MONO) && is_stereo f then split_stereo self f
     else if bool_decide (ch = STEREO) && is_mono f
          then raise (CannotConvertMonoToStereo (path f))
          else ret [f]) st = (Ok [f], st)).
  { unfold is_stereo, is_mono. rewrite Hf. now destruct ch. }
  rewrite (bind_Ok_intro _ _ _ _ _ Hhere), (bind_Ok_intro _ _ _ _ _ IH).
  reflexivity.
Qed.

Lemma prepare_formats_conforming fs fmt st :
  Forall (fun f => format f = fmt) fs ->
  prepare_formats self fs fmt st = (Ok fs, st).
Proof.
  induction 1 as [| f fs Hf _ IH]; simpl; [reflexivity |].
  assert (Hhere :
    (if bool_decide (fmt = ANA) && is_wav f then convert_to_ana self f
     else if bool_decide (fmt = WAV) && is_ana f then convert_to_wav self f
          else ret f) st = (Ok f, st)).
  { unfold is_wav, is_ana. rewrite Hf. now destruct fmt. }
  rewrite (bind_Ok_intro _ _ _ _ _ Hhere), (bind_Ok_intro _ _ _ _ _ IH).
  reflexivity.
Qed.

Lemma prepare_inputs_Ok_meets fs fmt ch st l st' :
  prepare_inputs self fs fmt ch st = (Ok l, st') -> Forall (meets fmt ch) l.
Proof.
  unfold prepare_inputs. intros Hrun.
  apply bind_Ok in Hrun as (prepared & st1 & Hch & Hfm).
  apply prepare_channels_channels in Hch.
  apply prepare_formats_Ok in Hfm.
  induction Hfm as [| p c ps cs (Hf & Hc & _) _ IH]; [constructor |].
  apply Forall_cons in Hch as [Hp Hps].
  constructor; [| now apply IH]. split; [exact Hf | congruence].
Qed.

Lemma prepare_inputs_conforming fs fmt ch st :
  Forall (meets fmt ch) fs -> prepare_inputs self fs fmt ch st = (Ok fs, st).
Proof.
  intros Hall. unfold prepare_inputs.
  rewrite (bind_Ok_intro _ _ st st fs).
  - apply prepare_formats_conforming. eapply Forall_impl; [exact Hall |].
    now intros f [Hf _].
  - apply prepare_channels_conforming. eapply Forall_impl; [exact Hall |].
    now intros f [_ Hc].
Qed.

End NegotiationResult.

(** X1: when [prepare_inputs] returns, every descriptor it returns has the
    required format and the required channel mode. *)
Theorem prepare_inputs_establishes_requirement `{PyBuiltins} `{Toolset}
  (self : PipelineExecutor) (input_files : list AudioFile)
  (required_format : FileFormat) (required_channels : ChannelMode)
  (st : State) :
  match prepare_inputs self input_files required_format required_channels st with
  | (Ok converted, _) =>
      Forall (meets required_format required_channels) converted
  | (Err _, _) => True
  end.
Proof.
  destruct (prepare_inputs self input_files required_format required_channels st)
    as [[converted | e] st'] eqn:Hrun; [| exact I].
  now apply prepare_inputs_Ok_meets in Hrun.
Qed.

(** X2: on descriptors that all have the required format and channel mode,
    [prepare_inputs] returns them as they are, asks nothing of the toolset
    and changes nothing, not even the counter of the scratch names. *)
Theorem prepare_inputs_nothing_to_do `{PyBuiltins} `{Toolset}
  (self : PipelineExecutor) (input_files : list AudioFile)
  (required_format : FileFormat) (required_channels : ChannelMode)
  (st : State) :
  Forall (meets required_format required_channels) input_files ->
  prepare_inputs self input_files required_format required_channels st
  = (Ok input_files, st).
Proof.
  intros Hall. unfold prepare_inputs.
  assert (Hch : Forall (fun f => channels f = required_channels) input_files).
  { eapply Forall_impl; [exact Hall |]. now intros f [_ Hc]. }
  assert (Hfm : Forall (fun f => format f = required_format) input_files).
  { eapply Forall_impl; [exact Hall |]. now intros f [Hf _]. }
  rewrite (bind_Ok_intro _ _ _ _ _
             (prepare_channels_conforming self _ _ st Hch)).
  now apply prepare_formats_conforming.
Qed.

(** The theorem, at two mono analysis files. *)
Lemma prepare_inputs_nothing_to_do_witness :
  let f p := {| path := [p]; format := ANA; channels := MONO;
                channel_index := None |} in
  let st := Demo.empty_state {[ ["a.ana"]; ["b.ana"] ]} [] in
  Forall (meets ANA MONO) [f "a.ana"; f "b.ana"]
  /\ @prepare_inputs Demo.broken_toolset Demo.executor [f "a.ana"; f "b.ana"]
       ANA MONO st
     = (Ok [f "a.ana"; f "b.ana"], st).
Proof.
  intros f st.
  assert (Hall : Forall (meets ANA MONO) [f "a.ana"; f "b.ana"])
    by (repeat constructor).
  split; [exact Hall |].
  pose proof (@prepare_inputs_nothing_to_do _ Demo.broken_toolset Demo.executor
                [f "a.ana"; f "b.ana"] ANA MONO st Hall) as Hthm.
  exact Hthm.
Defined.

(** X3: negotiation is idempotent: negotiating again what [prepare_inputs]
    returned, for the same requirement, returns it as it is and changes
    nothing. *)
Theorem prepare_inputs_idempotent `{PyBuiltins} `{Toolset}
  (self : PipelineExecutor) (input_files : list AudioFile)
  (required_format : FileFormat) (required_channels : ChannelMode)
  (st : State) :
  match prepare_inputs self input_files required_format required_channels st with
  | (Ok converted, st') =>
      prepare_inputs self converted required_format required_channels st'
      = (Ok converted, st')
  | (Err _, _) => True
  end.
Proof.
  destruct (prepare_inputs self input_files required_format required_channels st)
    as [[converted | e] st'] eqn:Hrun; [| exact I].
  apply prepare_inputs_conforming.
  now apply prepare_inputs_Ok_meets in Hrun.
Qed.

(** ** Merging two channels *)

(** X4: [merge_stereo] checks its inputs before it asks anything of the
    toolset: unless both are mono waveforms it raises a [ValueError] and
    nothing has happened. It returns only for two mono waveforms, after one
    [submix interleave] of the left, the right and the output path, and what
    it returns is an untagged stereo waveform at the output path, which then
    exists. *)
Theorem merge_stereo_checks_then_merges `{PyBuiltins} `{Toolset}
  (self : PipelineExecutor) (left right : AudioFile) (output_path : Path)
  (st : State) :
  let '(r, st') := merge_stereo self left right output_path st in
  if is_mono left && is_mono right && is_wav left && is_wav right then
    trace st'
    = trace st
      ++ [Call submix ["interleave"; Pathlib.to_str (path left);
                       Pathlib.to_str (path right);
                       Pathlib.to_str output_path]]
    /\ match r with
       | Ok merged =>
           merged = {| path := output_path; format := WAV;
                       channels := STEREO; channel_index := None |}
           /\ files st' = {[output_path]} ∪ files st
       | Err e => files st' = files st
       end
  else
    st' = st /\ exists e, r = Err e /\ exn_class e = ValueError.
Proof.
  unfold merge_stereo.
  destruct (is_mono left), (is_mono right); simpl;
    try (split; [reflexivity | now exists BothMustBeMono]).
  destruct (is_wav left), (is_wav right); simpl;
    try (split; [reflexivity | now exists BothMustBeWav]).
  unfold bind, sh_call, bind, log. simpl.
  destruct (sh _ _ _); simpl; now repeat split.
Qed.

(** ** Reading the duration *)

Section DurationFacts.
Context `{PyBuiltins} `{Toolset}.

Lemma split_ws_aux_word (cur : list ascii) (w rest : string) :
  forallb (fun d => negb (Str.is_space d)) (list_ascii_of_string w) = true ->
  Str.split_ws_aux cur (w +:+ String " " rest)
  = match rev cur ++ list_ascii_of_string w with
    | [] => Str.split_ws_aux [] rest
    | word => string_of_list_ascii word :: Str.split_ws_aux [] rest
    end.
Proof.
  revert cur. induction w as [| d w IH]; intros cur Hall; simpl.
  - rewrite app_nil_r. destruct cur as [| c cur]; [reflexivity |].
    simpl. destruct (rev cur ++ [c]) eqn:Heq; [| reflexivity].
    now apply app_eq_nil in Heq as [_ Heq].
  - simpl in Hall. apply andb_true_iff in Hall as [Hd Hw].
    apply negb_true_iff in Hd. rewrite Hd, (IH (d :: cur) Hw). simpl.
    now rewrite <- app_assoc.
Qed.

Lemma not_space_not_newline (d : ascii) :
  negb (Str.is_space d) = true -> negb (Str.is_char d "010") = true.
Proof.
  intros Hd. apply negb_true_iff in Hd. apply negb_true_iff.
  unfold Str.is_char. destruct (Ascii.eqb d "010") eqn:Heq; [| reflexivity].
  apply Ascii.eqb_eq in Heq. subst d. discriminate.
Qed.

End DurationFacts.

(** X5: [get_duration] reads the format of [sndinfo len]: when the answer
    is a line [DURATION: t secs ...], with [t] a word that [float] reads as
    [d], the duration is [d]; one question was asked and no file was
    touched. *)
Theorem get_duration_reads_sndinfo `{PyBuiltins} `{Toolset}
  (self : PipelineExecutor) (audio_file : AudioFile) (st : State)
  (tok rest : string) (d : Q) :
  tok <> "" ->
  forallb (fun c => negb (Str.is_space c)) (list_ascii_of_string tok) = true ->
  forallb (fun c => negb (Str.is_char c "010")) (list_ascii_of_string rest)
  = true ->
  sh (files st) "sndinfo" ["len"; Pathlib.to_str (path audio_file)]
  = Some ("DURATION: " +:+ tok +:+ " " +:+ rest) ->
  py_float tok = Some d ->
  exists st',
    get_duration self audio_file st = (Ok d, st')
    /\ trace st'
       = trace st ++ [Call sndinfo ["len"; Pathlib.to_str (path audio_file)]]
    /\ files st' = files st.
Proof.
  intros Htok Hword Hrest Hsh Hfloat.
  unfold get_duration, try_except, bind, sh_call, bind, log. simpl.
  rewrite Hsh.
  assert (Hline : Str.split_char "010" ("DURATION: " +:+ tok +:+ " " +:+ rest)
                  = ["DURATION: " +:+ tok +:+ " " +:+ rest]).
  { apply split_char_absent. rewrite !list_ascii_of_string_app, !forallb_app.
    rewrite Hrest. simpl. rewrite andb_true_r.
    clear -Hword. induction (list_ascii_of_string tok) as [| c l IH];
      [reflexivity |].
    simpl in *. apply andb_true_iff in Hword as [Hc Hl].
    now rewrite (not_space_not_newline c Hc), (IH Hl). }
  rewrite Hline. cbn [duration_in_lines].
  assert (Hhas : Str.contains "DURATION:"
                   ("DURATION: " +:+ tok +:+ " " +:+ rest) = true)
    by reflexivity.
  rewrite Hhas.
  assert (Hparts : exists more,
    Str.split_ws ("DURATION: " +:+ tok +:+ " " +:+ rest)
    = "DURATION:" :: tok :: more).
  { unfold Str.split_ws.
    change ("DURATION: " +:+ tok +:+ " " +:+ rest)
      with ("DURATION:" +:+ String " " (tok +:+ String " " rest)).
    rewrite split_ws_aux_word by reflexivity. cbn [rev app list_ascii_of_string].
    rewrite split_ws_aux_word by exact Hword. cbn [rev app].
    destruct (list_ascii_of_string tok) as [| c l] eqn:Hl.
    - destruct tok; [contradiction | discriminate].
    - rewrite <- Hl, string_of_list_ascii_of_string. eauto. }
  destruct Hparts as (more & ->). cbn [duration_token].
  rewrite bool_decide_eq_true_2 by reflexivity. rewrite Hfloat.
  eexists. split; [reflexivity |]. now split.
Qed.

(** The theorem, at the answer [DURATION: 2.0 secs samples 184064]. *)
Lemma get_duration_reads_sndinfo_witness :
  let st := Demo.empty_state {[ ["in.ana"] ]} [] in
  let f := {| path := ["in.ana"]; format := ANA; channels := MONO;
              channel_index := None |} in
  exists st',
    @get_duration _ (Demo.toolset "1" "2.0") Demo.executor f st = (Ok 2%Q, st')
    /\ trace st' = trace st ++ [Call sndinfo ["len"; "in.ana"]]
    /\ files st' = files st.
Proof.
  intros st f.
  pose proof (@get_duration_reads_sndinfo _ (Demo.toolset "1" "2.0")
                Demo.executor f st "2.0" "secs samples 184064" 2%Q
                ltac:(discriminate) eq_refl eq_refl eq_refl eq_refl) as Hthm.
  exact Hthm.
Defined.

(** ** The command builder without inputs *)

(** X6: [get_command_args] raises for one reason only, the [IndexError] of a
    single-input operation that is given no input file; a multi-input
    operation without input files gets a command without input paths. *)
Theorem get_command_args_raises_iff_no_input `{PyBuiltins}
  (self : CDPOperation) (input_files : list AudioFile)
  (output_file : AudioFile) (e : Exn) :
  get_command_args self input_files output_file = Err e
  <-> multi_input self = false /\ input_files = [] /\ e = IndexError.
Proof.
  unfold get_command_args. split.
  - destruct (multi_input self); [discriminate |].
    destruct input_files as [| f fs]; [| discriminate].
    intros Heq. injection Heq as <-. now repeat split.
  - intros (-> & -> & ->). reflexivity.
Qed.

(** ** Channel groups lose nothing *)

Lemma dict_append_concat {V} (d : list (option Z * list V)) (k : option Z) (f : V) :
  concat (map snd (dict_append d k f)) ≡ₚ f :: concat (map snd d).
Proof.
  induction d as [| [k' fs] d IH]; simpl; [reflexivity |].
  destruct (decide (k' = k)); simpl.
  - rewrite <- app_assoc. simpl. symmetry. apply Permutation_middle.
  - rewrite IH. now rewrite Permutation_middle.
Qed.

(** X7: the channel groups hold the descriptors they were made of, each one
    as often as it was given: the grouping loop drops none and repeats
    none. *)
Theorem group_by_channel_permutation (prepared_inputs : list AudioFile) :
  concat (map snd (group_by_channel prepared_inputs)) ≡ₚ prepared_inputs.
Proof.
  unfold group_by_channel.
  assert (Hgen : forall fs d,
    concat (map snd
      (fold_left (fun channels f => dict_append channels (channel_index f) f)
         fs d))
    ≡ₚ concat (map snd d) ++ fs).
  { induction fs as [| f fs IH]; intros d; simpl.
    - now rewrite app_nil_r.
    - rewrite IH, dict_append_concat. simpl. apply Permutation_middle. }
  now rewrite Hgen.
Qed.

(** ** An operation without input files *)

(** X8: an operation on mono files that is given no file does nothing at
    all: no scratch name is taken, the program is not invoked, and the
    result is the empty list. A single-input operation on stereo files that
    is given no file raises [IndexError]. *)
Theorem execute_operation_without_inputs `{PyBuiltins} `{Toolset}
  (self : PipelineExecutor) (operation : nat) (op : CDPOperation)
  (output_base_name : string) (st : State) :
  heap st !! operation = Some op ->
  let '(r, st') := execute_operation self operation [] output_base_name st in
  match req_channels (input_requirements op) with
  | MONO => r = Ok [] /\ st' = st
  | STEREO =>
      multi_input op = false ->
      r = Err IndexError /\ trace st' = trace st /\ files st' = files st
  end.
Proof.
  intros Hr. unfold execute_operation.
  rewrite (bind_Ok_intro _ _ _ _ _ (deref_Some _ _ _ Hr)).
  rewrite (bind_Ok_intro _ _ st st []) by reflexivity.
  rewrite (bind_Ok_intro _ _ _ _ _ (deref_Some _ _ _ Hr)).
  destruct (req_channels (input_requirements op)); simpl; [now split |].
  match goal with
  | |- (let '(r, st') := ?X in _) => destruct X as [r st'] eqn:Hrun
  end.
  intros Hsingle. revert Hrun.
  rewrite (bind_Ok_intro _ _ _ _ _ (deref_Some _ _ _ Hr)).
  unfold bind at 1, _next_temp_file at 1.
  match goal with
  | |- context [bind (deref operation) _ ?s] => set (st1 := s)
  end.
  assert (Hr1 : heap st1 !! operation = Some op) by exact Hr.
  rewrite (bind_Ok_intro _ _ _ _ _ (deref_Some _ _ _ Hr1)).
  destruct (existsb is_automatable (params op)) eqn:Hcurve.
  - unfold _process_breakpoints.
    rewrite bind_assoc, (bind_Ok_intro _ _ _ _ _ (deref_Some _ _ _ Hr1)).
    rewrite Hcurve. simpl. intros Heq. injection Heq as <- <-.
    now repeat split.
  - rewrite (bind_Ok_intro _ _ _ _ _
               (process_breakpoints_no_curve self _ _ [] _ Hr1 Hcurve)).
    rewrite (bind_Ok_intro _ _ _ _ _ (deref_Some _ _ _ Hr1)).
    unfold get_command_args. rewrite Hsingle. simpl.
    destruct (subcommand op) as [s |]; [destruct (bool_decide (s = "")) |];
      destruct (mode op); intros Heq; injection Heq as <- <-;
      now repeat split.
Qed.

(** The theorem, at a blur of no file. *)
Lemma execute_operation_without_inputs_witness :
  let st := Demo.empty_state ∅ [Demo.blur] in
  @execute_operation _ Demo.broken_toolset Demo.executor 0 [] "op00_blur_2.0" st
  = (Ok [], st).
Proof.
  intros st.
  pose proof (@execute_operation_without_inputs _ Demo.broken_toolset
                Demo.executor 0 Demo.blur "op00_blur_2.0" st eq_refl) as Hthm.
  destruct (execute_operation Demo.executor 0 [] "op00_blur_2.0" st) as [r st'].
  simpl in Hthm. destruct Hthm as [-> ->]. reflexivity.
Defined.

(** An operation on stereo files that is given no file. *)
Example widen_of_no_file :
  let st := Demo.empty_state ∅ [Demo.widen] in
  fst (@execute_operation _ Demo.broken_toolset Demo.executor 0 [] "op00_widen"
         st)
  = Err IndexError.
Proof. reflexivity. Qed.

(** ** The end of a run *)

Section OutputFacts.
Context `{PyBuiltins} `{Toolset}.
Variable self : PipelineExecutor.

Lemma copy_Ok src dst st u st' :
  copy src dst st = (Ok u, st') -> dst ∈ files st'.
Proof.
  unfold copy, bind, log, exists_. simpl.
  destruct (negb _); [discriminate |].
  destruct (bool_decide (src = dst)); [discriminate |].
  unfold created, set_files. intros Heq. injection Heq as _ <-. simpl.
  apply elem_of_union_l. now apply elem_of_singleton.
Qed.

Lemma merge_stereo_Ok left right out st merged st' :
  merge_stereo self left right out st = (Ok merged, st') ->
  merged = {| path := out; format := WAV; channels := STEREO;
              channel_index := None |}
  /\ out ∈ files st'.
Proof.
  unfold merge_stereo.
  destruct (_ || _); [discriminate |]. destruct (_ || _); [discriminate |].
  unfold bind, sh_call, bind, log. simpl.
  destruct (sh _ _ _); [| discriminate].
  unfold created, set_files, bind, ret. simpl.
  intros Heq. injection Heq as <- <-. split; [reflexivity |]. simpl.
  apply elem_of_union_l. now apply elem_of_singleton.
Qed.

(** What [finalize_channels] returns: the merge of two files, or the one
    file there is, at the output path. *)
Lemma finalize_channels_Ok oc stereo fs out st result st' :
  finalize_channels self oc stereo fs out st = (Ok result, st') ->
  path result = out
  /\ out ∈ files st'
  /\ (if bool_decide (oc = Some STEREO) || (bool_decide (oc = None) && stereo)
      then channels result = STEREO
           /\ (length fs = 2%nat /\ format result = WAV
               \/ exists f0, fs = [f0] /\ result = set_path f0 out)
      else exists f0, fs = [f0] /\ result = set_path f0 out).
Proof.
  unfold finalize_channels.
  assert (Hcopy : forall f0,
    bind (copy (path f0) out) (fun _ => ret (set_path f0 out)) st
    = (Ok result, st') ->
    result = set_path f0 out /\ out ∈ files st').
  { intros f0 Hc. apply bind_Ok in Hc as (u & s1 & Hc & Hret).
    apply ret_Ok in Hret as [-> ->]. split; [reflexivity |].
    now apply copy_Ok in Hc. }
  destruct (_ || _).
  - destruct fs as [| f0 [| f1 [| f2 fs]]]; try discriminate.
    + destruct (is_stereo f0) eqn:Hst; [| discriminate].
      intros Hrun. apply Hcopy in Hrun as [-> Hin].
      repeat split; try assumption.
      * simpl. unfold is_stereo in Hst. now apply bool_decide_eq_true_1 in Hst.
      * right. now exists f0.
    + intros Hrun.
      apply bind_Ok in Hrun as (l & s1 & _ & Hrun).
      apply bind_Ok in Hrun as (r & s2 & _ & Hrun).
      apply merge_stereo_Ok in Hrun as [-> Hin].
      repeat split; try assumption. left. now split.
  - destruct fs as [| f0 [| f1 fs]]; try discriminate.
    intros Hrun. apply Hcopy in Hrun as [-> Hin].
    repeat split; try assumption. now exists f0.
Qed.

Lemma map_M_Forall2 {A B} (f : A -> M B) (P : A -> B -> Prop) xs st ys st' :
  (forall x s y s', f x s = (Ok y, s') -> P x y) ->
  map_M f xs st = (Ok ys, st') -> Forall2 P xs ys.
Proof.
  intros Hf. revert st ys st'.
  induction xs as [| x xs IH]; intros st ys st' Hrun; simpl in Hrun.
  - apply ret_Ok in Hrun as [-> _]. constructor.
  - apply bind_Ok in Hrun as (y & s1 & Hy & Hrun).
    apply bind_Ok in Hrun as (ys' & s2 & Hys & Hrun).
    apply ret_Ok in Hrun as [-> _]. constructor; eauto.
Qed.

(** [finalize_format] puts every file in the output format. *)
Lemma finalize_format_Ok fmt fs st fs' st' :
  finalize_format self fmt fs st = (Ok fs', st') ->
  Forall (fun f => format f = fmt) fs'.
Proof.
  unfold finalize_format. intros Hrun.
  assert (Hall : Forall2 (fun _ c => format c = fmt) fs fs').
  { destruct fmt.
    - eapply map_M_Forall2; [| exact Hrun]. intros x s y s' Hc. simpl.
      apply convert_to_wav_Ok in Hc. unfold is_ana in Hc.
      destruct (format x) eqn:Hx; simpl in Hc; [now subst y | apply Hc].
    - eapply map_M_Forall2; [| exact Hrun]. intros x s y s' Hc. simpl.
      apply convert_to_ana_Ok in Hc. unfold is_wav in Hc.
      destruct (format x) eqn:Hx; simpl in Hc; [apply Hc | now subst y]. }
  clear Hrun. induction Hall; constructor; auto.
Qed.

End OutputFacts.


(** X10: the descriptor a run returns. When stereo output is wanted
    (asked for, or not said and an input is stereo), it is stereo: the merge
    of two final files, which is a waveform whatever output format was asked
    for, or the one final file. Otherwise it is the one final file, in the
    output format asked for, a waveform when none was. *)
Theorem run_result_descriptor `{PyBuiltins} `{Toolset}
  (operations : list nat) (input_files : list Path) (output_path : Path)
  (opts : RunOptions) (st : State) :
  match run operations input_files output_path opts st with
  | (Ok result, _) =>
      let asked :=
        match opt_output_format opts with
        | Some fmt => fmt
        | None => WAV
        end in
      (opt_output_channels opts = Some STEREO ->
       channels result = STEREO
       /\ (format result = WAV \/ format result = asked))
      /\ (opt_output_channels opts = Some MONO -> format result = asked)
      /\ (opt_output_channels opts = None ->
          channels result = STEREO /\ format result = WAV
          \/ format result = asked)
  | (Err _, _) => True
  end.
Proof.
  destruct (setup_ok output_path opts st)
    as (executor & stE & Hsetup & Hkeep & Hdir & Hobj & _).
  rewrite run_stages, (bind_Ok_intro _ _ _ _ _ Hsetup). unfold finally.
  destruct (run_body executor operations input_files output_path opts stE)
    as [[result | e] stb] eqn:Hbody;
    rewrite (cleanup_spec _ _ Hobj); [| exact I].
  unfold run_body in Hbody.
  apply bind_Ok in Hbody as (audio & s1 & _ & Hbody).
  apply bind_Ok in Hbody as (cur & s2 & _ & Hbody).
  apply bind_Ok in Hbody as (cur' & s3 & Hfmt & Hbody).
  apply finalize_format_Ok in Hfmt.
  apply finalize_channels_Ok in Hbody as (_ & _ & Hres).
  assert (Hone : forall f0, cur' = [f0] ->
            format (set_path f0 output_path)
            = match opt_output_format opts with Some fmt => fmt | None => WAV end).
  { intros f0 ->. now apply Forall_cons in Hfmt as [Hf _]. }
  cbv zeta. split; [| split].
  - intros Hoc. rewrite Hoc in Hres. simpl in Hres.
    destruct Hres as [Hch [[_ Hw] | (f0 & Hf0 & ->)]]; split; auto.
  - intros Hoc. rewrite Hoc in Hres. simpl in Hres.
    destruct Hres as (f0 & Hf0 & ->). auto.
  - intros Hoc. rewrite Hoc in Hres. simpl in Hres.
    destruct (existsb is_stereo audio).
    + destruct Hres as [Hch [[_ Hw] | (f0 & Hf0 & ->)]]; auto.
    + destruct Hres as (f0 & Hf0 & ->). auto.
Qed.

(** Asking for mono output does not make the output mono: a run without
    operations over a stereo waveform returns a stereo descriptor. *)
Example mono_asked_stereo_returned :
  let st := Demo.empty_state {[ ["in.wav"] ]} [] in
  fst (@run _ (Demo.toolset "2" "2.0") [] [["in.wav"]] ["out.wav"]
         {| opt_temp_dir := None; opt_keep_temp := false;
            opt_output_channels := Some MONO; opt_output_format := None;
            opt_verbose := false; opt_overwrite := false |} st)
  = Ok {| path := ["out.wav"]; format := WAV; channels := STEREO;
          channel_index := None |}.
Proof. vm_compute. reflexivity. Qed.

(** An output path inside the scratch area is removed by the run that
    wrote it. *)
Example output_in_scratch_is_removed :
  let st := Demo.empty_state {[ ["in.wav"] ]} [] in
  let '(r, st') :=
    @run _ (Demo.toolset "1" "2.0") [] [["in.wav"]] ["work"; "out.wav"]
      {| opt_temp_dir := Some ["work"]; opt_keep_temp := false;
         opt_output_channels := None; opt_output_format := None;
         opt_verbose := false; opt_overwrite := false |} st in
  r = Ok {| path := ["work"; "out.wav"]; format := WAV; channels := MONO;
            channel_index := None |}
  /\ elements (files st') = [["in.wav"]].
Proof. vm_compute. split; reflexivity. Qed.

(** ** An operation on stereo files *)

(** X11: an operation on stereo files that returns was given stereo files
    only; it has negotiated their format, the program was invoked once, with
    the arguments for all the negotiated files and the one output, and the
    result is that one output: an untagged stereo descriptor in the output
    format, in the scratch area when the base name of the output is the name
    of one component. *)
Theorem execute_operation_on_stereo `{PyBuiltins} `{Toolset}
  (self : PipelineExecutor) (operation : nat) (op : CDPOperation)
  (input_files : list AudioFile) (output_base_name : string) (st : State) :
  heap st !! operation = Some op ->
  req_channels (input_requirements op) = STEREO ->
  Pathlib.plain output_base_name = true ->
  let '(r, st') :=
    execute_operation self operation input_files output_base_name st in
  forall output_files, r = Ok output_files ->
    exists prepared_inputs st1 events output_file processed_params args,
      Forall (fun f => channels f = STEREO) input_files
      /\ prepare_inputs self input_files (req_format (input_requirements op))
           STEREO st = (Ok prepared_inputs, st1)
      /\ output_files = [output_file]
      /\ channels output_file = STEREO
      /\ channel_index output_file = None
      /\ format output_file = output_format op
      /\ temp_dir self `prefix_of` path output_file
      /\ trace st' = trace st1 ++ events
      /\ List.filter is_invocation events = [Call (cdp (program op)) args]
      /\ get_command_args (replace_params op processed_params)
           prepared_inputs output_file = Ok args.
Proof.
  intros Hr Hstereo Hbase.
  destruct (execute_operation self operation input_files output_base_name st)
    as [r st'] eqn:Hrun.
  intros output_files ->. unfold execute_operation in Hrun.
  rewrite (bind_Ok_intro _ _ _ _ _ (deref_Some _ _ _ Hr)) in Hrun.
  apply bind_Ok in Hrun as (prepared & st1 & Hprep & Hrun).
  rewrite Hstereo in Hprep.
  pose proof (step_in_prepare_inputs self input_files
                (req_format (input_requirements op)) STEREO st) as [Hheap _].
  rewrite Hprep in Hheap. simpl in Hheap. pose proof (Hheap _ _ Hr) as Hr1.
  rewrite (bind_Ok_intro _ _ _ _ _ (deref_Some _ _ _ Hr1)) in Hrun.
  rewrite Hstereo in Hrun. simpl in Hrun.
  rewrite (bind_Ok_intro _ _ _ _ _ (deref_Some _ _ _ Hr1)) in Hrun.
  unfold bind at 1, _next_temp_file at 1 in Hrun.
  match type of Hrun with
  | context [Pathlib.truediv ?a ?b] => set (output_path := Pathlib.truediv a b) in *
  end.
  match type of Hrun with
  | bind _ _ ?s = _ => set (st2 := s) in *
  end.
  assert (Hr2 : heap st2 !! operation = Some op) by exact Hr1.
  rewrite (bind_Ok_intro _ _ _ _ _ (deref_Some _ _ _ Hr2)) in Hrun.
  apply bind_Ok in Hrun as (r' & st3 & Hproc & Hrun).
  pose proof (trace_process_breakpoints self operation prepared st2)
    as (t & Ht & Hnot).
  rewrite Hproc in Ht. simpl in Ht.
  destruct (process_breakpoints_object _ _ _ _ _ _ _ Hr2 Hproc) as (ps & Hr').
  rewrite (bind_Ok_intro _ _ _ _ _ (deref_Some _ _ _ Hr')) in Hrun.
  apply bind_Ok in Hrun as (args & st3' & Hargs & Hrun).
  unfold lift in Hargs. injection Hargs as Hargs <-.
  rewrite (bind_Ok_intro _ _ _ _ _ (deref_Some _ _ _ Hr')) in Hrun.
  apply bind_Ok in Hrun as (out & st4 & Hcall & Hrun).
  apply execute_cdp_command_Ok in Hcall.
  apply bind_Ok in Hrun as (u & st5 & Hmade & Hrun).
  apply ret_Ok in Hrun as [-> ->].
  unfold created, set_files in Hmade. injection Hmade as _ <-.
  eexists prepared, st1, (t ++ [Call (cdp (program op)) args]), _, ps, args.
  simpl. rewrite Hcall, Ht, <- app_assoc, Hstereo.
  repeat split; try reflexivity; try assumption.
  - unfold prepare_inputs in Hprep.
    apply bind_Ok in Hprep as (prepared0 & s & Hch & _).
    pose proof (prepare_channels_channels _ _ _ _ _ _ Hch) as Hall.
    now apply prepare_channels_Ok in Hch as ->.
  - unfold output_path.
    rewrite truediv_scratch_name by (auto using plain_format_value).
    now eexists.
  - rewrite List.filter_app, (filter_not_invocation _ Hnot). reflexivity.
Qed.

(** The theorem, at an operation on stereo waveforms over one. *)
Lemma execute_operation_on_stereo_witness :
  let st := Demo.empty_state {[ ["in.wav"] ]} [Demo.widen] in
  let f := {| path := ["in.wav"]; format := WAV; channels := STEREO;
              channel_index := None |} in
  let '(r, st') :=
    @execute_operation _ (Demo.toolset "2" "2.0") Demo.executor 0 [f]
      "op00_widen" st in
  forall output_files, r = Ok output_files ->
    exists prepared_inputs st1 events output_file processed_params args,
      Forall (fun f => channels f = STEREO) [f]
      /\ @prepare_inputs (Demo.toolset "2" "2.0") Demo.executor [f]
           (req_format (input_requirements Demo.widen)) STEREO st
         = (Ok prepared_inputs, st1)
      /\ output_files = [output_file]
      /\ channels output_file = STEREO
      /\ channel_index output_file = None
      /\ format output_file = output_format Demo.widen
      /\ temp_dir Demo.executor `prefix_of` path output_file
      /\ trace st' = trace st1 ++ events
      /\ List.filter is_invocation events
         = [Call (cdp (program Demo.widen)) args]
      /\ get_command_args (replace_params Demo.widen processed_params)
           prepared_inputs output_file = Ok args.
Proof.
  intros st f.
  pose proof (@execute_operation_on_stereo _ (Demo.toolset "2" "2.0")
                Demo.executor 0 Demo.widen [f] "op00_widen" st
                eq_refl eq_refl eq_refl) as Hthm.
  exact Hthm.
Defined.

(** That operation: one invocation, one stereo output. *)
Example widen_of_a_stereo_waveform :
  let st := Demo.empty_state {[ ["in.wav"] ]} [Demo.widen] in
  let '(r, st') :=
    @execute_operation _ (Demo.toolset "2" "2.0") Demo.executor 0
      [ {| path := ["in.wav"]; format := WAV; channels := STEREO;
           channel_index := None |} ] "op00_widen" st in
  r = Ok [ {| path := ["tmp"; "op00_widen_0001.wav"]; format := WAV;
              channels := STEREO; channel_index := None |} ]
  /\ trace st' = [Call (cdp "widen") ["in.wav"; "tmp/op00_widen_0001.wav"]].
Proof. vm_compute. split; reflexivity. Qed.

(** ** Loading the inputs *)

Section LoadFacts.
Context `{PyBuiltins} `{Toolset}.
Variable self : PipelineExecutor.

Lemma get_file_info_cases p st :
  let '(r, st') := get_file_info self p st in
  files st' = files st
  /\ match r with
     | Ok (fmt, _) => Pathlib.suffix p = "." +:+ format_value fmt
     | Err e => e = UnknownFileFormat (Pathlib.suffix p)
                \/ e = ChannelInfoFailed p
     end.
Proof.
  unfold get_file_info, bind.
  destruct (bool_decide (Pathlib.suffix p = ".ana")) eqn:Hana.
  - apply bool_decide_eq_true_1 in Hana. simpl. now split.
  - destruct (bool_decide (Pathlib.suffix p = ".wav")) eqn:Hwav;
      [| simpl; split; [reflexivity | now left]].
    apply bool_decide_eq_true_1 in Hwav. simpl.
    unfold try_except, bind, sh_call, bind, log. simpl.
    destruct (sh _ _ _) as [out |]; [| simpl; split; [reflexivity | now right]].
    destruct (py_int out) as [n |]; [| simpl; split; [reflexivity | now right]].
    destruct (ChannelMode_of_int n); simpl; split; auto.
Qed.

End LoadFacts.

(** X13: the loading loop of [Pipeline.run] touches no file. When it
    returns, every input path is a file, and the descriptors are those of the
    input paths, one for one and in order, untagged, with the format that
    the suffix of the path names. When it raises, an input path is not a
    file ([FileNotFoundError]), or has a suffix that is neither [.wav] nor
    [.ana] ([ValueError]), or its channels could not be read
    ([RuntimeError]). *)
Theorem load_inputs_mirrors_the_paths `{PyBuiltins} `{Toolset}
  (executor : PipelineExecutor) (input_files : list Path) (st : State) :
  let '(r, st') := load_inputs executor input_files st in
  files st' = files st
  /\ match r with
     | Ok audio_files =>
         map path audio_files = input_files
         /\ Forall (fun p => p ∈ files st) input_files
         /\ Forall (fun f => channel_index f = None
                             /\ Pathlib.suffix (path f)
                                = "." +:+ format_value (format f))
                   audio_files
     | Err e =>
         exists p,
           p ∈ input_files
           /\ (e = InputNotFound p /\ p ∉ files st
               \/ e = UnknownFileFormat (Pathlib.suffix p)
               \/ e = ChannelInfoFailed p)
     end.
Proof.
  revert st. induction input_files as [| p ps IH]; intros st; simpl.
  - repeat split; constructor.
  - unfold bind at 1, exists_ at 1.
    destruct (bool_decide (p ∈ files st)) eqn:Hin; simpl.
    + apply bool_decide_eq_true_1 in Hin. unfold bind at 1.
      pose proof (get_file_info_cases executor p st) as Hinfo.
      destruct (get_file_info executor p st) as [[[fmt ch] | e] st1].
      * destruct Hinfo as [Hf1 Hsuf]. unfold bind at 1.
        specialize (IH st1).
        destruct (load_inputs executor ps st1) as [[fs | e] st2].
        -- destruct IH as (Hf2 & Hmap & Hall & Hdesc). simpl.
           rewrite Hf2, Hf1, Hmap. repeat split; try assumption.
           ++ constructor; [exact Hin |]. now rewrite <- Hf1.
           ++ constructor; [now split | exact Hdesc].
        -- destruct IH as (Hf2 & q & Hq & Hcase).
           split; [now rewrite Hf2 |].
           exists q. split; [now constructor |]. now rewrite <- Hf1.
      * destruct Hinfo as [Hf1 Hcase]. split; [exact Hf1 |].
        exists p. split; [constructor |]. tauto.
    + apply bool_decide_eq_false_1 in Hin. split; [reflexivity |].
      exists p. split; [constructor |]. left. now split.
Qed.

(** ** The names of the two channels of a split *)

Lemma replace_absent (old new s : string) :
  Str.contains old s = false -> Str.replace old new s = s.
Proof.
  unfold Str.replace. induction s as [| d s IH]; simpl; [reflexivity |].
  intros Hno. apply orb_false_iff in Hno as [Hpre Hrest].
  simpl in Hpre. rewrite Hpre. now rewrite (IH Hrest).
Qed.

Lemma replace_present_differs (old a rest1 rest2 s : string) (x y : ascii) :
  old <> "" ->
  x <> y ->
  Str.contains old s = true ->
  Str.replace old (a +:+ String x rest1) s
  <> Str.replace old (a +:+ String y rest2) s.
Proof.
  intros Hold Hxy. unfold Str.replace.
  induction s as [| d s IH]; simpl.
  - destruct old; [contradiction | discriminate].
  - intros Hhas.
    destruct (String.prefix old (String d s)) eqn:Hpre.
    + simpl in Hpre. rewrite Hpre.
      generalize (Str.replace_aux old (a +:+ String x rest1)
                    (String.length old - 1) s).
      generalize (Str.replace_aux old (a +:+ String y rest2)
                    (String.length old - 1) s).
      clear -Hxy. intros v u.
      induction a as [| c a IHa]; simpl.
      * intros Heq. now injection Heq.
      * intros Heq. injection Heq as Heq. now apply IHa.
    + simpl in Hpre. rewrite Hpre. rewrite Hpre in Hhas. simpl in Hhas.
      intros Heq. injection Heq as Heq. now apply IH.
Qed.

(** X15: the two channel descriptors of a split are mono waveforms tagged 1
    and 2 in the scratch area, and their paths differ exactly when the name
    of the file contains [.wav]: for a stereo file whose name does not, both
    channels are given one and the same path, that of the copy. *)
Theorem split_stereo_channel_paths `{PyBuiltins} `{Toolset}
  (self : PipelineExecutor) (audio_file : AudioFile) (st : State) :
  is_stereo audio_file = true ->
  match split_stereo self audio_file st with
  | (Ok channels_, _) =>
      exists left right,
        channels_ = [left; right]
        /\ meets WAV MONO left /\ meets WAV MONO right
        /\ channel_index left = Some 1%Z /\ channel_index right = Some 2%Z
        /\ Pathlib.parent (path left) = temp_dir self
        /\ Pathlib.parent (path right) = temp_dir self
        /\ (path left <> path right
            <-> Str.contains ".wav" (Pathlib.name (path audio_file)) = true)
        /\ (Str.contains ".wav" (Pathlib.name (path audio_file)) = false ->
            path left
            = Pathlib.joinpath (temp_dir self) (Pathlib.name (path audio_file)))
  | (Err _, _) => True
  end.
Proof.
  intros Hst.
  destruct (split_stereo self audio_file st) as [[l | e] st'] eqn:Hrun;
    [| exact I].
  apply split_stereo_Ok in Hrun as ->. unfold split_shape. rewrite Hst.
  set (T := temp_dir self). set (n := Pathlib.name (path audio_file)).
  assert (Hname : Pathlib.name (Pathlib.joinpath T n) = n).
  { unfold Pathlib.joinpath. apply name_snoc, plain_name. }
  eexists _, _. split; [reflexivity |].
  unfold stereo_channel. simpl. rewrite !parent_joinpath, !Hname.
  repeat split; try reflexivity.
  - intros Hne. destruct (Str.contains ".wav" n) eqn:Hhas; [reflexivity |].
    exfalso. apply Hne. now rewrite !(replace_absent _ _ _ Hhas).
  - intros Hhas Heq. unfold Pathlib.joinpath in Heq.
    apply app_inv_head in Heq. injection Heq as Heq. revert Heq.
    apply (replace_present_differs ".wav" "_c" ".wav" ".wav" n "1" "2");
      [discriminate | discriminate | exact Hhas].
  - intros Hhas. now rewrite (replace_absent _ _ _ Hhas).
Qed.

(** The theorem, at a stereo analysis file. *)
Lemma split_stereo_channel_paths_witness :
  let f := {| path := ["mix.ana"]; format := ANA; channels := STEREO;
              channel_index := None |} in
  let st := Demo.empty_state {[ ["mix.ana"] ]} [] in
  match @split_stereo (Demo.toolset "2" "2.0") Demo.executor f st with
  | (Ok channels_, _) =>
      exists left right,
        channels_ = [left; right]
        /\ meets WAV MONO left /\ meets WAV MONO right
        /\ channel_index left = Some 1%Z /\ channel_index right = Some 2%Z
        /\ Pathlib.parent (path left) = temp_dir Demo.executor
        /\ Pathlib.parent (path right) = temp_dir Demo.executor
        /\ (path left <> path right
            <-> Str.contains ".wav" (Pathlib.name (path f)) = true)
        /\ (Str.contains ".wav" (Pathlib.name (path f)) = false ->
            path left
            = Pathlib.joinpath (temp_dir Demo.executor)
                (Pathlib.name (path f)))
  | (Err _, _) => True
  end.
Proof.
  intros f st.
  pose proof (@split_stereo_channel_paths _ (Demo.toolset "2" "2.0")
                Demo.executor f st eq_refl) as Hthm.
  exact Hthm.
Defined.

(** The split of that file: one path for both channels. *)
Example split_of_a_stereo_analysis_file :
  let f := {| path := ["mix.ana"]; format := ANA; channels := STEREO;
              channel_index := None |} in
  let st := Demo.empty_state {[ ["mix.ana"] ]} [] in
  fst (@split_stereo (Demo.toolset "2" "2.0") Demo.executor f st)
  = Ok [ {| path := ["tmp"; "mix.ana"]; format := WAV; channels := MONO;
            channel_index := Some 1%Z |};
         {| path := ["tmp"; "mix.ana"]; format := WAV; channels := MONO;
            channel_index := Some 2%Z |} ].
Proof. vm_compute. reflexivity. Qed.

(** ** Scratch names *)

Lemma pretty_N_go_head (x : N) (s : string) :
  (0 < x)%N ->
  exists c r, pretty_N_go x s = String c r /\ c <> "0"%char.
Proof.
  revert s. induction (N.lt_wf_0 x) as [x _ IH]. intros s Hpos.
  rewrite pretty_N_go_step by exact Hpos.
  destruct (N.eq_0_gt_0_cases (x `div` 10)) as [Hz | Hp].
  - rewrite Hz, pretty_N_go_0. eexists _, _. split; [reflexivity |].
    assert (Hlt : (x < 10)%N) by (apply (N.div_small_iff x 10); [lia | exact Hz]).
    rewrite N.mod_small by exact Hlt.
    assert (Hx : (x = 1 \/ x = 2 \/ x = 3 \/ x = 4 \/ x = 5 \/ x = 6
                  \/ x = 7 \/ x = 8 \/ x = 9)%N) by lia.
    destruct Hx as [-> | [-> | [-> | [-> | [-> | [-> | [-> | [-> | ->]]]]]]]];
      discriminate.
  - apply IH; [| exact Hp]. now apply N.div_lt.
Qed.

Lemma pretty_nat_head (n : nat) :
  pretty n = "0" \/ exists c r, pretty n = String c r /\ c <> "0"%char.
Proof.
  unfold pretty, pretty_nat, pretty, pretty_N.
  destruct (decide (N.of_nat n = 0%N)); [now left | right].
  apply pretty_N_go_head. lia.
Qed.

Lemma zeros_pretty_inj (a b n m : nat) :
  Str.zeros a +:+ pretty n = Str.zeros b +:+ pretty m -> n = m.
Proof.
  revert b. induction a as [| a IH]; intros [| b]; simpl.
  - apply (inj pretty).
  - intros Heq.
    destruct (pretty_nat_head n) as [Hn | (c & r & Hn & Hc)];
      rewrite Hn in Heq.
    + injection Heq as Heq.
      destruct b; simpl in Heq; [| discriminate].
      destruct (pretty_nat_head m) as [Hm | (c & r & Hm & _)];
        rewrite Hm in Heq; discriminate.
    + injection Heq as Hc' _. contradiction.
  - intros Heq.
    destruct (pretty_nat_head m) as [Hm | (c & r & Hm & Hc)];
      rewrite Hm in Heq.
    + injection Heq as Heq.
      destruct a; simpl in Heq; [| discriminate].
      destruct (pretty_nat_head n) as [Hn | (c & r & Hn & _)];
        rewrite Hn in Heq; discriminate.
    + injection Heq as Hc' _. now symmetry in Hc'.
  - intros Heq. injection Heq as Heq. now apply IH in Heq.
Qed.

Lemma zero_pad_inj (w n m : nat) : Str.zero_pad w n = Str.zero_pad w m -> n = m.
Proof. unfold Str.zero_pad. apply zeros_pretty_inj. Qed.

(** X16: for a base name and an extension that are names of one component
    (no separator in them), [_next_temp_file] takes the next number, touches
    no file and asks nothing, and gives a name directly in the scratch
    directory; the names it gives for one base name and one extension at
    different counts are different. *)
Theorem next_temp_file_fresh `{PyBuiltins} `{Toolset}
  (self : PipelineExecutor) (base_name extension : string) (st : State) :
  Pathlib.plain base_name = true ->
  Pathlib.plain extension = true ->
  let '(r, st') := _next_temp_file self base_name extension st in
  _counter st' = S (_counter st)
  /\ files st' = files st
  /\ trace st' = trace st
  /\ (exists p, r = Ok p /\ Pathlib.parent p = temp_dir self)
  /\ forall st2,
       _counter st2 <> _counter st ->
       fst (_next_temp_file self base_name extension st2) <> r.
Proof.
  intros Hbase Hext. unfold _next_temp_file. simpl.
  rewrite (truediv_scratch_name _ _ _ _ Hbase Hext). repeat split.
  - eexists. split; [reflexivity |].
    unfold Pathlib.parent. apply removelast_last.
  - intros st2 Hne Heq. injection Heq as Heq. apply Hne.
    rewrite (truediv_scratch_name _ _ _ _ Hbase Hext) in Heq.
    apply app_inv_head in Heq.
    injection Heq as Heq. apply append_inv_head in Heq.
    injection Heq as Heq.
    apply (append_inv_tail _ _ ("." +:+ extension)) in Heq.
    apply zero_pad_inj in Heq. lia.
Qed.

(** The theorem, at the first scratch name for the stem [in] and the
    extension [ana]. *)
Lemma next_temp_file_fresh_witness :
  let st := Demo.empty_state {[ ["in.wav"] ]} [] in
  let '(r, st') :=
    @_next_temp_file Demo.executor "in" "ana" st in
  _counter st' = S (_counter st)
  /\ files st' = files st
  /\ trace st' = trace st
  /\ (exists p, r = Ok p /\ Pathlib.parent p = temp_dir Demo.executor)
  /\ forall st2,
       _counter st2 <> _counter st ->
       fst (_next_temp_file Demo.executor "in" "ana" st2) <> r.
Proof.
  intros st.
  pose proof (@next_temp_file_fresh _ (Demo.toolset "1" "2.0") Demo.executor
                "in" "ana" st eq_refl eq_refl) as Hthm.
  exact Hthm.
Defined.

(** The first two scratch names for that stem and that extension. *)
Example first_scratch_names :
  let st := Demo.empty_state {[ ["in.wav"] ]} [] in
  let '(r1, st1) := _next_temp_file Demo.executor "in" "ana" st in
  let '(r2, st2) := _next_temp_file Demo.executor "in" "ana" st1 in
  r1 = Ok ["tmp"; "in_0001.ana"] /\ r2 = Ok ["tmp"; "in_0002.ana"].
Proof. vm_compute. split; reflexivity. Qed.

(** ** Building a curve *)

Lemma endswith_char_snoc (s : string) (c : ascii) :
  Str.endswith_char (s +:+ String c "") c = true.
Proof.
  induction s as [| d s IH]; simpl.
  - unfold Str.is_char. apply Ascii.eqb_refl.
  - destruct s; simpl in *; [unfold Str.is_char; apply Ascii.eqb_refl | exact IH].
Qed.

Lemma rstrip_char_snoc (s : string) (c : ascii) :
  Str.rstrip_char (s +:+ String c "") c = Str.rstrip_char s c.
Proof.
  induction s as [| d s IH]; simpl.
  - unfold Str.is_char. now rewrite Ascii.eqb_refl.
  - now rewrite IH.
Qed.

Lemma rstrip_char_id (s : string) (c : ascii) :
  Str.endswith_char s c = false -> Str.rstrip_char s c = s.
Proof.
  induction s as [| d s IH]; simpl; [reflexivity |].
  destruct s as [| e s].
  - simpl. now intros ->.
  - intros Hend. now rewrite (IH Hend).
Qed.

Section CurveFacts.
Context `{PyBuiltins}.

Lemma get_absolute_time_percent (s : string) (v P D : Q) :
  Str.endswith_char s "%" = false ->
  py_float s = Some P ->
  get_absolute_time {| time := TStr (s +:+ "%"); value := v |} D
  = Ok ((P / 100) * D)%Q.
Proof.
  intros Hend Hfloat. unfold get_absolute_time. simpl.
  rewrite endswith_char_snoc, rstrip_char_snoc, (rstrip_char_id _ _ Hend).
  now rewrite Hfloat.
Qed.

Lemma from_pairs_points_from (pairs : list (TimeSpec * Q)) (bp : Breakpoint) :
  points (fold_left (fun bp tv => add bp (fst tv) (snd tv)) pairs bp)
  = points bp ++ map (fun tv => {| time := fst tv; value := snd tv |}) pairs
  /\ bp_name (fold_left (fun bp tv => add bp (fst tv) (snd tv)) pairs bp)
     = bp_name bp.
Proof.
  revert bp. induction pairs as [| tv pairs IH]; intros bp; simpl.
  - now rewrite app_nil_r.
  - destruct (IH (add bp (fst tv) (snd tv))) as [-> ->]. simpl.
    now rewrite <- app_assoc.
Qed.

End CurveFacts.

(** X17: [from_pairs] makes the curve whose points are the pairs, in the
    order given, under the name given; one more pair at the end is one more
    [add]. *)
Theorem from_pairs_keeps_the_pairs (pairs : list (TimeSpec * Q))
  (name : option string) :
  points (from_pairs pairs name)
  = map (fun tv => {| time := fst tv; value := snd tv |}) pairs
  /\ bp_name (from_pairs pairs name) = name
  /\ len (from_pairs pairs name) = length pairs
  /\ forall t v,
       from_pairs (pairs ++ [(t, v)]) name = add (from_pairs pairs name) t v.
Proof.
  unfold from_pairs, len.
  destruct (from_pairs_points_from pairs (new_breakpoint name)) as [Hp Hn].
  rewrite Hp. simpl. repeat split.
  - exact Hn.
  - now rewrite length_map.
  - intros t v. now rewrite fold_left_app.
Qed.

(** X18: a linear ramp, resolved against a duration that is not negative,
    is the start value at time 0 and the end value at the duration, in this
    order, without a warning. *)
Theorem linear_resolves_to_a_ramp `{PyBuiltins} (start_value end_value D : Q)
  (name : option string) :
  reads_percent_bounds ->
  (0 <= D)%Q ->
  exists t0 t1,
    to_absolute_times (linear start_value end_value name) D
    = Ok ([(t0, start_value); (t1, end_value)], [])
    /\ (t0 == 0)%Q /\ (t1 == D)%Q.
Proof.
  intros [H0 H100] HD.
  exists ((0 / 100) * D)%Q, ((100 / 100) * D)%Q.
  unfold to_absolute_times, linear. simpl.
  unfold get_absolute_time. simpl. rewrite H0, H100. simpl.
  assert (Ht0 : ((0 / 100) * D == 0)%Q) by field.
  assert (Ht1 : ((100 / 100) * D == D)%Q) by field.
  split; [| split; [exact Ht0 | exact Ht1]].
  destruct (Qltb _ _) eqn:Hlt; [| reflexivity].
  apply Qltb_true in Hlt. simpl in Hlt. rewrite Ht0, Ht1 in Hlt.
  exfalso. eapply Qlt_not_le; eauto.
Qed.

(** The theorem, at a ramp from 1 to 5 over two seconds. *)
Lemma linear_resolves_to_a_ramp_witness :
  exists t0 t1,
    to_absolute_times (linear 1 5 None) 2
    = Ok ([(t0, 1%Q); (t1, 5%Q)], [])
    /\ (t0 == 0)%Q /\ (t1 == 2)%Q.
Proof.
  pose proof (@linear_resolves_to_a_ramp Demo.builtins 1 5 2 None
                (conj eq_refl eq_refl) ltac:(discriminate)) as Hthm.
  exact Hthm.
Defined.

Lemma percent_le (a b D : Q) :
  (a <= b)%Q -> (0 <= D)%Q -> ((a / 100) * D <= (b / 100) * D)%Q.
Proof.
  intros Hab HD. apply Qmult_le_compat_r; [| exact HD].
  unfold Qdiv. apply Qmult_le_compat_r; [exact Hab | discriminate].
Qed.

(** A curve of three percentages in ascending order resolves to its three
    points in the order given. *)
Lemma three_percentages `{PyBuiltins} (s : string) (P D v0 v1 v2 : Q)
  (name : option string) :
  reads_percent_bounds ->
  Str.endswith_char s "%" = false ->
  py_float s = Some P ->
  (0 <= P)%Q -> (P <= 100)%Q -> (0 <= D)%Q ->
  to_absolute_times
    (add (add (add (new_breakpoint name) (TStr "0%") v0)
            (TStr (s +:+ "%")) v1)
       (TStr "100%") v2) D
  = Ok ([((0 / 100) * D, v0); ((P / 100) * D, v1); ((100 / 100) * D, v2)]%Q, []).
Proof.
  intros [H0 H100] Hend Hfloat HP0 HP100 HD.
  unfold to_absolute_times, add, new_breakpoint. cbn [points app resolve_points].
  rewrite (get_absolute_time_percent s v1 P D Hend Hfloat).
  unfold get_absolute_time. cbn [time value]. simpl Str.endswith_char.
  simpl Str.rstrip_char. rewrite H0, H100. cbn [beyond_duration].
  rewrite sort_by_time_sorted_id; [reflexivity |].
  repeat constructor; unfold by_time; simpl; now apply percent_le.
Qed.

(** X19: a fade-in over the first [p] percent, with [p] between 0 and 100,
    resolved against a duration [D] that is not negative, is 0 at time 0,
    the maximum at [D * p / 100] and the maximum at [D], in this order,
    without a warning. *)
Theorem fade_in_resolves `{PyBuiltins} (duration_percent max_value D : Q)
  (name : option string) :
  reads_percent_bounds ->
  round_trips duration_percent ->
  (0 <= duration_percent)%Q -> (duration_percent <= 100)%Q -> (0 <= D)%Q ->
  exists t0 t1 t2,
    to_absolute_times (fade_in duration_percent max_value name) D
    = Ok ([(t0, 0%Q); (t1, max_value); (t2, max_value)], [])
    /\ (t0 == 0)%Q /\ (t1 == D * duration_percent / 100)%Q /\ (t2 == D)%Q.
Proof.
  intros Hb [Hend Hfloat] Hp0 Hp100 HD.
  eexists _, _, _. split.
  - unfold fade_in.
    apply (three_percentages (py_str_float duration_percent) duration_percent);
      assumption.
  - repeat split; field.
Qed.

(** The theorem, at the default fade-in over a file of two seconds. *)
Lemma fade_in_resolves_witness :
  exists t0 t1 t2,
    to_absolute_times (fade_in 10 1 None) 2
    = Ok ([(t0, 0%Q); (t1, 1%Q); (t2, 1%Q)], [])
    /\ (t0 == 0)%Q /\ (t1 == 2 * 10 / 100)%Q /\ (t2 == 2)%Q.
Proof.
  pose proof (@fade_in_resolves Demo.builtins 10 1 2 None
                (conj eq_refl eq_refl) (conj eq_refl eq_refl)
                ltac:(discriminate) ltac:(discriminate) ltac:(discriminate))
    as Hthm.
  exact Hthm.
Defined.

(** X20: a fade-out from [p] percent on, with [p] between 0 and 100,
    resolved against a duration [D] that is not negative, is the start value
    at time 0 and at [D * p / 100], and 0 at [D], in this order, without a
    warning. *)
Theorem fade_out_resolves `{PyBuiltins} (start_percent start_value D : Q)
  (name : option string) :
  reads_percent_bounds ->
  round_trips start_percent ->
  (0 <= start_percent)%Q -> (start_percent <= 100)%Q -> (0 <= D)%Q ->
  exists t0 t1 t2,
    to_absolute_times (fade_out start_percent start_value name) D
    = Ok ([(t0, start_value); (t1, start_value); (t2, 0%Q)], [])
    /\ (t0 == 0)%Q /\ (t1 == D * start_percent / 100)%Q /\ (t2 == D)%Q.
Proof.
  intros Hb [Hend Hfloat] Hp0 Hp100 HD.
  eexists _, _, _. split.
  - unfold fade_out.
    apply (three_percentages (py_str_float start_percent) start_percent);
      assumption.
  - repeat split; field.
Qed.

(** The theorem, at the default fade-out over a file of two seconds. *)
Lemma fade_out_resolves_witness :
  exists t0 t1 t2,
    to_absolute_times (fade_out 90 1 None) 2
    = Ok ([(t0, 1%Q); (t1, 1%Q); (t2, 0%Q)], [])
    /\ (t0 == 0)%Q /\ (t1 == 2 * 90 / 100)%Q /\ (t2 == 2)%Q.
Proof.
  pose proof (@fade_out_resolves Demo.builtins 90 1 2 None
                (conj eq_refl eq_refl) (conj eq_refl eq_refl)
                ltac:(discriminate) ltac:(discriminate) ltac:(discriminate))
    as Hthm.
  exact Hthm.
Defined.

(** The default fade-in, as the text of a breakpoint file. *)
Example fade_in_file :
  to_file_content (fade_in 10 1 None) 2
  = Ok ("0.000000 0.000000" +:+ String "010" "0.200000 1.000000"
        +:+ String "010" "2.000000 1.000000", []).
Proof. vm_compute. reflexivity. Qed.

(** ** The predefined operations *)

Lemma raises_only_ret {A} P (a : A) : raises_only P (ret a).
Proof. intros st e st' Heq. discriminate. Qed.

Lemma raises_only_bind {A B} P (m : M A) (k : A -> M B) :
  raises_only P m -> (forall a, raises_only P (k a)) ->
  raises_only P (bind m k).
Proof.
  intros Hm Hk st e st' Hrun.
  apply bind_Err in Hrun as [Hrun | (a & s1 & _ & Hrun)];
    [now apply Hm in Hrun | now apply Hk in Hrun].
Qed.

Lemma raises_only_always_Ok {A} P (m : M A) :
  (forall st, exists a st', m st = (Ok a, st')) -> raises_only P m.
Proof.
  intros Hok st e st' Hrun. destruct (Hok st) as (a & s & Heq).
  rewrite Heq in Hrun. discriminate.
Qed.

(** Steps of a proof of [raises_only], along the binds. *)
Ltac raises_step :=
  match goal with
  | |- raises_only _ (ret _) => apply raises_only_ret
  | |- raises_only _ (bind _ _) => apply raises_only_bind; [| intros ?]
  end.

Section OutsideFacts.
Context `{PyBuiltins} `{Toolset}.
Variable self : PipelineExecutor.

Lemma outside_sh_call c args : raises_only from_outside (sh_call c args).
Proof.
  intros st e st'. unfold sh_call, bind, log. simpl.
  destruct (sh _ _ _); [discriminate |].
  intros Heq. injection Heq as <- _. exact I.
Qed.

Lemma outside_copy src dst : raises_only from_outside (copy src dst).
Proof.
  intros st e st'. unfold copy, bind, log, exists_. simpl.
  destruct (negb _); [intros Heq; injection Heq as <- _; exact I |].
  destruct (bool_decide _); [intros Heq; injection Heq as <- _; exact I |].
  discriminate.
Qed.

Lemma outside_created p : raises_only from_outside (created p).
Proof. apply raises_only_always_Ok. intros st. now eexists _, _. Qed.

Lemma outside_next_temp_file base ext :
  raises_only from_outside (_next_temp_file self base ext).
Proof. apply raises_only_always_Ok. intros st. now eexists _, _. Qed.

Lemma outside_split_stereo f : raises_only from_outside (split_stereo self f).
Proof.
  unfold split_stereo. destruct (negb _); [apply raises_only_ret |].
  cbv zeta. repeat raises_step;
    first [apply outside_copy | apply outside_sh_call | apply outside_created].
Qed.

Lemma outside_convert_to_ana f : raises_only from_outside (convert_to_ana self f).
Proof.
  unfold convert_to_ana. destruct (negb _); [apply raises_only_ret |].
  repeat raises_step;
    first [apply outside_next_temp_file | apply outside_sh_call
          | apply outside_created].
Qed.

Lemma outside_convert_to_wav f : raises_only from_outside (convert_to_wav self f).
Proof.
  unfold convert_to_wav. destruct (negb _); [apply raises_only_ret |].
  repeat raises_step;
    first [apply outside_next_temp_file | apply outside_sh_call
          | apply outside_created].
Qed.

Lemma outside_prepare_channels_mono fs :
  raises_only from_outside (prepare_channels self fs MONO).
Proof.
  induction fs as [| f fs IH]; simpl; [apply raises_only_ret |].
  apply raises_only_bind.
  - destruct (is_stereo f); [apply outside_split_stereo | apply raises_only_ret].
  - intros here. apply raises_only_bind; [exact IH |].
    intros ?. apply raises_only_ret.
Qed.

Lemma outside_prepare_formats fs fmt :
  raises_only from_outside (prepare_formats self fs fmt).
Proof.
  induction fs as [| f fs IH]; simpl; [apply raises_only_ret |].
  apply raises_only_bind.
  - destruct (_ && _); [apply outside_convert_to_ana |].
    destruct (_ && _); [apply outside_convert_to_wav | apply raises_only_ret].
  - intros here. apply raises_only_bind; [exact IH |].
    intros ?. apply raises_only_ret.
Qed.

Lemma outside_prepare_inputs_mono fs fmt :
  raises_only from_outside (prepare_inputs self fs fmt MONO).
Proof.
  unfold prepare_inputs. apply raises_only_bind.
  - apply outside_prepare_channels_mono.
  - intros ?. apply outside_prepare_formats.
Qed.

End OutsideFacts.

(** X21: each of the eight predefined operations, whatever its arguments,
    takes mono files and gives files of the format it takes, has a
    subcommand and at least one parameter; so the negotiation of its inputs
    raises no [ValueError]: when it raises, the toolset or the file system
    did. *)
Theorem predefined_operations_take_mono `{PyBuiltins} `{Toolset}
  (op : CDPOperation) :
  Operations.predefined op ->
  req_channels (input_requirements op) = MONO
  /\ output_format op = req_format (input_requirements op)
  /\ subcommand op <> None
  /\ params op <> []
  /\ forall self input_files st,
       match prepare_inputs self input_files
               (req_format (input_requirements op))
               (req_channels (input_requirements op)) st with
       | (Err e, _) => from_outside e /\ exn_class e <> ValueError
       | (Ok _, _) => True
       end.
Proof.
  intros Hop.
  assert (Hmono : req_channels (input_requirements op) = MONO)
    by (destruct Hop; reflexivity).
  split; [exact Hmono |].
  split; [destruct Hop; reflexivity |].
  split; [destruct Hop; discriminate |].
  split; [destruct Hop; discriminate |].
  intros self input_files st. rewrite Hmono.
  destruct (prepare_inputs self input_files _ MONO st) as [[l | e] st'] eqn:Hrun;
    [exact I |].
  apply outside_prepare_inputs_mono in Hrun. split; [exact Hrun |].
  unfold from_outside in Hrun. intros Hv. now rewrite Hv in Hrun.
Qed.

(** The theorem, at a low-pass filter. *)
Lemma predefined_operations_take_mono_witness :
  let op := @Operations.filter_lohi Demo.builtins
              (PFloat (-60)) (PFloat 1000) (PFloat 2000) 1 in
  req_channels (input_requirements op) = MONO
  /\ output_format op = req_format (input_requirements op)
  /\ subcommand op <> None
  /\ params op <> []
  /\ forall self input_files st,
       match @prepare_inputs Demo.broken_toolset self input_files
               (req_format (input_requirements op))
               (req_channels (input_requirements op)) st with
       | (Err e, _) => from_outside e /\ exn_class e <> ValueError
       | (Ok _, _) => True
       end.
Proof.
  intros op.
  pose proof (@predefined_operations_take_mono Demo.builtins
                Demo.broken_toolset op
                (Operations.predefined_filter_lohi _ _ _ _)) as Hthm.
  exact Hthm.
Defined.

(** The command of that filter. *)
Example filter_lohi_command :
  let f p := {| path := [p]; format := WAV; channels := MONO;
                channel_index := None |} in
  get_command_args
    (Operations.filter_lohi (PFloat (-60)) (PFloat 1000) (PFloat 2000) 1)
    [f "in.wav"] (f "out.wav")
  = Ok ["lohi"; "1"; "in.wav"; "out.wav"; "-60.0"; "1000.0"; "2000.0"].
Proof. vm_compute. reflexivity. Qed.

(** ** One operation after another *)

(** X22: what an operation on mono files returns is ready for a next
    operation that takes mono files of the format it produced: the
    negotiation for that operation returns the descriptors as they are and
    does nothing, so that between two such operations nothing is
    converted. *)
Theorem mono_outputs_need_no_negotiation `{PyBuiltins} `{Toolset}
  (self : PipelineExecutor) (operation : nat) (op : CDPOperation)
  (input_files : list AudioFile) (output_base_name : string) (st : State) :
  heap st !! operation = Some op ->
  req_channels (input_requirements op) = MONO ->
  match execute_operation self operation input_files output_base_name st with
  | (Ok output_files, st') =>
      Forall (meets (output_format op) MONO) output_files
      /\ prepare_inputs self output_files (output_format op) MONO st'
         = (Ok output_files, st')
  | (Err _, _) => True
  end.
Proof.
  intros Hr Hmono.
  destruct (execute_operation self operation input_files output_base_name st)
    as [[outs | e] st'] eqn:Hrun; [| exact I].
  assert (Hall : Forall (meets (output_format op) MONO) outs).
  { unfold execute_operation in Hrun.
    rewrite (bind_Ok_intro _ _ _ _ _ (deref_Some _ _ _ Hr)) in Hrun.
    apply bind_Ok in Hrun as (prepared & st1 & Hprep & Hrun).
    pose proof (step_in_prepare_inputs self input_files
                  (req_format (input_requirements op))
                  (req_channels (input_requirements op)) st) as [Hheap _].
    rewrite Hprep in Hheap. simpl in Hheap. apply Hheap in Hr.
    rewrite (bind_Ok_intro _ _ _ _ _ (deref_Some _ _ _ Hr)) in Hrun.
    rewrite Hmono in Hrun. simpl in Hrun.
    destruct (execute_groups_Ok _ _ _ _ _ _ _ _ Hr Hrun) as (events & _ & Hout).
    clear -Hout. induction Hout as [| g ev o gs evs os Hg _ IH]; constructor.
    - destruct Hg as (_ & Hch & Hfmt & _). now split.
    - exact IH. }
  split; [exact Hall |]. now apply prepare_inputs_conforming.
Qed.

(** The theorem, at a blur of a stereo waveform. *)
Lemma mono_outputs_need_no_negotiation_witness :
  let st := Demo.empty_state {[ ["in.wav"] ]} [Demo.blur] in
  let f := {| path := ["in.wav"]; format := WAV; channels := STEREO;
              channel_index := None |} in
  match @execute_operation _ (Demo.toolset "2" "2.0") Demo.executor 0 [f]
          "op00_blur_2.0" st with
  | (Ok output_files, st') =>
      Forall (meets (output_format Demo.blur) MONO) output_files
      /\ @prepare_inputs (Demo.toolset "2" "2.0") Demo.executor output_files
           (output_format Demo.blur) MONO st'
         = (Ok output_files, st')
  | (Err _, _) => True
  end.
Proof.
  intros st f.
  pose proof (@mono_outputs_need_no_negotiation _ (Demo.toolset "2" "2.0")
                Demo.executor 0 Demo.blur [f] "op00_blur_2.0" st
                eq_refl eq_refl) as Hthm.
  exact Hthm.
Defined.

(** ** A run without input files *)

Section EmptyRun.
Context `{PyBuiltins} `{Toolset}.
Variable self : PipelineExecutor.

Lemma execute_operation_nil_mono r op base st :
  heap st !! r = Some op ->
  req_channels (input_requirements op) = MONO ->
  execute_operation self r [] base st = (Ok [], st).
Proof.
  intros Hr Hmono. unfold execute_operation.
  rewrite (bind_Ok_intro _ _ _ _ _ (deref_Some _ _ _ Hr)).
  rewrite (bind_Ok_intro _ _ st st []) by reflexivity.
  rewrite (bind_Ok_intro _ _ _ _ _ (deref_Some _ _ _ Hr)).
  now rewrite Hmono.
Qed.

Lemma run_operations_nil_mono i ops st :
  Forall (fun r => exists op,
            heap st !! r = Some op
            /\ req_channels (input_requirements op) = MONO) ops ->
  run_operations self i ops [] st = (Ok [], st).
Proof.
  intros Hall. revert i. induction Hall as [| r ops (op & Hr & Hmono) _ IH];
    intros i; simpl; [reflexivity |].
  rewrite (bind_Ok_intro _ _ _ _ _ (deref_Some _ _ _ Hr)).
  rewrite (bind_Ok_intro _ _ _ _ _
             (execute_operation_nil_mono r op _ st Hr Hmono)).
  apply IH.
Qed.

End EmptyRun.

(** X23: a run without input files whose operations all take mono files
    invokes no program and asks nothing: it raises a [ValueError], for the
    stereo output that cannot be made of no file when stereo output is asked
    for, for the number of outputs otherwise; all that happens is the
    set-up and the release of the scratch area. *)
Theorem run_without_inputs `{PyBuiltins} `{Toolset}
  (operations : list nat) (output_path : Path) (opts : RunOptions)
  (st : State) :
  Forall (fun r => exists op,
            heap st !! r = Some op
            /\ req_channels (input_requirements op) = MONO) operations ->
  let '(r, st') := run operations [] output_path opts st in
  r = Err (if bool_decide (opt_output_channels opts = Some STEREO)
           then CannotCreateStereo 0 else MultipleOutputs 0)
  /\ (forall e, r = Err e -> exn_class e = ValueError)
  /\ trace st'
     = trace st
       ++ (if opt_overwrite opts && bool_decide (output_path ∈ files st)
           then [Unlink output_path] else [])
       ++ match opt_temp_dir opts with Some d => [Mkdir d] | None => [] end
       ++ (if opt_keep_temp opts then [] else [Rmtree (scratch_dir opts)]).
Proof.
  intros Hall.
  destruct (setup_ok output_path opts st)
    as (executor & stE & Hsetup & Hkeep & Hdir & Hobj & Hheap & _ & Htrace).
  assert (HallE : Forall (fun r => exists op,
            heap stE !! r = Some op
            /\ req_channels (input_requirements op) = MONO) operations)
    by now rewrite Hheap.
  rewrite run_stages, (bind_Ok_intro _ _ _ _ _ Hsetup). unfold finally.
  assert (Hbody :
    run_body executor operations [] output_path opts stE
    = (Err (if bool_decide (opt_output_channels opts = Some STEREO)
            then CannotCreateStereo 0 else MultipleOutputs 0), stE)).
  { unfold run_body.
    rewrite (bind_Ok_intro _ _ stE stE []) by reflexivity.
    rewrite (bind_Ok_intro _ _ _ _ _
               (run_operations_nil_mono executor 0 operations stE HallE)).
    rewrite (bind_Ok_intro _ _ stE stE [])
      by (unfold finalize_format; destruct (opt_output_format opts) as [[] |];
          reflexivity).
    unfold finalize_channels. simpl. rewrite andb_false_r, orb_false_r.
    now destruct (bool_decide (opt_output_channels opts = Some STEREO)). }
  rewrite Hbody, (cleanup_spec _ _ Hobj), Hkeep, Hdir.
  split; [reflexivity |]. split.
  - intros e Heq. injection Heq as <-.
    destruct (bool_decide (opt_output_channels opts = Some STEREO));
      reflexivity.
  - destruct (opt_keep_temp opts); simpl; rewrite Htrace.
    + now rewrite app_nil_r.
    + now rewrite <- !app_assoc.
Qed.

(** The theorem, at a run of a blur over no file. *)
Lemma run_without_inputs_witness :
  let st := Demo.empty_state ∅ [Demo.blur] in
  let '(r, st') :=
    @run _ Demo.broken_toolset [0%nat] [] ["out.wav"] Demo.default_options st in
  r = Err (if bool_decide (opt_output_channels Demo.default_options
                           = Some STEREO)
           then CannotCreateStereo 0 else MultipleOutputs 0)
  /\ (forall e, r = Err e -> exn_class e = ValueError)
  /\ trace st'
     = trace st
       ++ (if opt_overwrite Demo.default_options
              && bool_decide (["out.wav"] ∈ files st)
           then [Unlink ["out.wav"]] else [])
       ++ match opt_temp_dir Demo.default_options with
          | Some d => [Mkdir d]
          | None => []
          end
       ++ (if opt_keep_temp Demo.default_options then []
           else [Rmtree (@scratch_dir Demo.broken_toolset
                           Demo.default_options)]).
Proof.
  intros st.
  assert (Hall : Forall (fun r => exists op,
            heap st !! r = Some op
            /\ req_channels (input_requirements op) = MONO) [0%nat]).
  { repeat constructor. exists Demo.blur. now split. }
  pose proof (@run_without_inputs _ Demo.broken_toolset [0%nat] ["out.wav"]
                Demo.default_options st Hall) as Hthm.
  exact Hthm.
Defined.

(** ** The order of the two channels *)

(** X24: the two final files of a run are merged by their tags, not by
    their order: with one tagged 1 and one tagged 2, the file tagged 1 is
    the left channel whichever comes first, so that the two orders give the
    same events and the same result. *)
Theorem finalize_channels_by_tag `{PyBuiltins} `{Toolset}
  (executor : PipelineExecutor) (output_channels : option ChannelMode)
  (input_is_stereo : bool) (a b : AudioFile) (output_path : Path)
  (st : State) :
  channel_index a = Some 1%Z ->
  channel_index b = Some 2%Z ->
  finalize_channels executor output_channels input_is_stereo [b; a]
    output_path st
  = finalize_channels executor output_channels input_is_stereo [a; b]
      output_path st
  /\ (bool_decide (output_channels = Some STEREO)
      || (bool_decide (output_channels = None) && input_is_stereo) = true ->
      finalize_channels executor output_channels input_is_stereo [a; b]
        output_path st
      = bind (if negb (is_wav a) then convert_to_wav executor a else ret a)
          (fun left =>
             bind (if negb (is_wav b) then convert_to_wav executor b
                   else ret b)
               (fun right =>
                  merge_stereo executor left right output_path)) st).
Proof.
  intros Ha Hb. unfold finalize_channels.
  assert (H1ab : next_with_index 1 [a; b] a = a).
  { unfold next_with_index. simpl. now rewrite Ha. }
  assert (H2ab : next_with_index 2 [a; b] b = b).
  { unfold next_with_index. simpl. now rewrite Ha, Hb. }
  assert (H1ba : next_with_index 1 [b; a] b = a).
  { unfold next_with_index. simpl. now rewrite Hb, Ha. }
  assert (H2ba : next_with_index 2 [b; a] a = b).
  { unfold next_with_index. simpl. now rewrite Hb. }
  rewrite H1ab, H2ab, H1ba, H2ba.
  destruct (_ || _); split; try reflexivity; discriminate.
Qed.

(** The theorem, at the two channels of a split. *)
Lemma finalize_channels_by_tag_witness :
  let a := {| path := ["tmp"; "l.wav"]; format := WAV; channels := MONO;
              channel_index := Some 1%Z |} in
  let b := {| path := ["tmp"; "r.wav"]; format := WAV; channels := MONO;
              channel_index := Some 2%Z |} in
  let st := Demo.empty_state {[ ["tmp"; "l.wav"]; ["tmp"; "r.wav"] ]} [] in
  @finalize_channels (Demo.toolset "2" "2.0") Demo.executor (Some STEREO)
    false [b; a] ["out.wav"] st
  = @finalize_channels (Demo.toolset "2" "2.0") Demo.executor (Some STEREO)
      false [a; b] ["out.wav"] st.
Proof.
  intros a b st.
  pose proof (@finalize_channels_by_tag _ (Demo.toolset "2" "2.0")
                Demo.executor (Some STEREO) false a b ["out.wav"] st
                eq_refl eq_refl) as Hthm.
  apply proj1 in Hthm. exact Hthm.
Defined.

(** The merge of those two, given right channel first. *)
Example merge_in_tag_order :
  let a := {| path := ["tmp"; "l.wav"]; format := WAV; channels := MONO;
              channel_index := Some 1%Z |} in
  let b := {| path := ["tmp"; "r.wav"]; format := WAV; channels := MONO;
              channel_index := Some 2%Z |} in
  let st := Demo.empty_state {[ ["tmp"; "l.wav"]; ["tmp"; "r.wav"] ]} [] in
  trace (snd (@finalize_channels (Demo.toolset "2" "2.0") Demo.executor
                (Some STEREO) false [b; a] ["out.wav"] st))
  = [Call submix ["interleave"; "tmp/l.wav"; "tmp/r.wav"; "out.wav"]].
Proof. vm_compute. reflexivity. Qed.

(** ** Releasing the scratch area twice *)


